(** * keploy core: orchestrator, buffered connection reads, pass-through
      relay and address codec

    A shallow embedding of [pkg/core/core.go] and of the proxy utility
    file (ReadBytes, ReadRequiredBytes, ReadBuffConn, PassThrough,
    ToIP4AddressStr, ToIPV4), followed by the properties of the
    specification that concern them.

    Conventions.
    - A Go [error] value is an [option error]: [None] is [nil].
    - Machine integers are [Z] with the wrap-around written out.
    - Interfaces (io.Reader, net.Conn, Hooks, Proxy, the app package) are
      type classes over a state type: a method takes the receiver's state
      and returns its result together with the new state.
    - Loops that need not terminate take a [fuel : nat] and return
      [None] when it runs out. *)

From Stdlib Require Import ZArith List Lia Ascii.
From Stdlib Require Import Strings.Byte.
From stdpp Require Import base option list strings gmap.
Import ListNotations.
Open Scope Z_scope.

(* ===================================================================== *)
(** * Part I: definitions                                                *)
(* ===================================================================== *)

(** ** Errors *)

(** The error values that occur in the two files: the sentinel [io.EOF],
    errors implementing [net.Error] (which carry a [Timeout()] answer),
    and errors made by [errors.New] / [fmt.Errorf]. *)
Inductive error : Type :=
| EOF
| NetError (timeout : bool) (msg : string)
| ErrorString (msg : string).

#[global] Instance error_eq_dec : EqDecision error.
Proof. solve_decision. Defined.

(** [err == io.EOF] *)
Definition is_EOF (e : error) : bool := bool_decide (e = EOF).

(** [netErr, ok := err.(net.Error); ok && netErr.Timeout()] on a Go error
    value, which may be nil. *)
Definition is_net_timeout (err : option error) : bool :=
  match err with
  | Some (NetError t _) => t
  | _ => false
  end.

(** ** Integer formatting and parsing (fmt, strconv) *)

Module Fmt.

(** ['0' + d] for a digit value [d]. *)
Definition digit_char (d : Z) : ascii := ascii_of_nat (48 + Z.to_nat d).

(** fmt's [fmtInteger] loop for an unsigned value:
    [for u >= base { buf[i] = digit(u % base); u /= base }; buf[i] = digit(u)],
    the digits being written from the end of the buffer.  The buffer of
    fmt holds 64 binary digits and more, which is the fuel [Sprint_uint]
    gives. *)
Fixpoint fmtInteger (base : Z) (fuel : nat) (u : Z) (acc : list ascii) : list ascii :=
  match fuel with
  | O => acc
  | S f =>
      if base <=? u
      then fmtInteger base f (u / base) (digit_char (u mod base) :: acc)
      else digit_char u :: acc
  end.

Definition Sprint_uint (base : Z) (u : Z) : list ascii := fmtInteger base 64 u [].

(** The zero flag with a width: zeros are written in front until the
    width is reached. *)
Definition zero_pad (width : nat) (s : list ascii) : list ascii :=
  repeat "0"%char (width - length s)%nat ++ s.

(** [fmt.Sprintf("%032b", u)] *)
Definition Sprintf_032b (u : Z) : list ascii := zero_pad 32 (Sprint_uint 2 u).

(** [fmt.Sprintf("%d", u)] or [%v] on an unsigned integer *)
Definition Sprintf_d (u : Z) : list ascii := Sprint_uint 10 u.

(** Errors of [strconv.ParseUint]. *)
Inductive NumError := ErrSyntax | ErrRange.

(** The value of a digit character in [strconv.ParseUint]: ['0'..'9'],
    then letters; [None] for any other byte. *)
Definition digit_val (c : ascii) : option Z :=
  let n := Z.of_nat (nat_of_ascii c) in
  if (48 <=? n) && (n <=? 57) then Some (n - 48)
  else if (97 <=? n) && (n <=? 122) then Some (n - 97 + 10)
  else if (65 <=? n) && (n <=? 90) then Some (n - 65 + 10)
  else None.

Definition maxUint64 : Z := 2 ^ 64 - 1.

(** The digit loop of [strconv.ParseUint(s, base, 64)] for an explicit
    base: a byte that is no digit of the base is a syntax error with
    value 0; overflow is a range error with the maximal value. *)
Fixpoint ParseUint_loop (base : Z) (n : Z) (s : list ascii) : Z * option NumError :=
  match s with
  | [] => (n, None)
  | c :: s' =>
      match digit_val c with
      | None => (0, Some ErrSyntax)
      | Some d =>
          if base <=? d then (0, Some ErrSyntax)
          else if (maxUint64 / base + 1) <=? n then (maxUint64, Some ErrRange)
          else
            let n1 := n * base + d in
            if maxUint64 <? n1 then (maxUint64, Some ErrRange)
            else ParseUint_loop base n1 s'
      end
  end.

Definition ParseUint (s : list ascii) (base : Z) : Z * option NumError :=
  match s with
  | [] => (0, Some ErrSyntax)
  | _ => ParseUint_loop base 0 s
  end.

(** [s[lo:hi]] on a string; Go panics when the bounds are outside the
    string, which is [None] here. *)
Definition slice (s : list ascii) (lo hi : nat) : option (list ascii) :=
  if decide (lo <= hi <= length s)%nat
  then Some (firstn (hi - lo) (skipn lo s))
  else None.

End Fmt.

(** ** The orchestrator, [pkg/core/core.go] *)

Module Core.

(** [utils.CmdType], the kind of an application. *)
Inductive CmdType := Native | Docker | DockerCompose.

(** [models.SetupOptions] and [app.Options] *)
Record SetupOptions := { DockerNetwork : string }.

(** The [app] package is used through this interface: the constructor
    and the three methods that core.go calls.  [A] is the state of an
    [*app.App]; [App_Setup] may change it. *)
Class AppPackage (A : Type) := {
  NewApp : Z -> string -> A;
  App_Setup : A -> SetupOptions -> option error * A;
  Kind : A -> CmdType;
  KeployIPv4Addr : A -> string
}.

Record HookCfg := {
  AppID : Z;
  Pid : Z;
  IsDocker : bool;
  KeployIPV4 : string
}.

Record ProxyOptions := { DnsIPv4Addr : string }.

(** The [Hooks] and [Proxy] interfaces of the package. *)
Class Hooks (H : Type) := {
  Load : H -> Z -> HookCfg -> option error * H;
  SendInode : H -> Z -> Z -> option error * H
}.

Class Proxy (P : Type) := {
  StartProxy : P -> ProxyOptions -> option error * P
}.

(** Modelled from the spec: [utils.AutoInc], whose source is not part of
    the two files.  The spec describes a monotonic generator that yields
    0, 1, 2, ... from a fresh state and never reuses a value. *)
Record AutoInc := { ai_id : Z }.

Definition Next (a : AutoInc) : Z * AutoInc :=
  (ai_id a, {| ai_id := ai_id a + 1 |}).

(** A value held by the [sync.Map]: the map is untyped, [getApp] asserts
    the dynamic type of what it loads. *)
Inductive any (A : Type) :=
| AnyApp (a : A)
| AnyOther.
Arguments AnyApp {A} a.
Arguments AnyOther {A}.

Record Core (A H P : Type) := mkCore {
  id : AutoInc;
  apps : gmap Z (any A);
  hook : H;
  proxy : P;
  proxyStarted : bool
}.
Arguments mkCore {A H P}.
Arguments id {A H P}.
Arguments apps {A H P}.
Arguments hook {A H P}.
Arguments proxy {A H P}.
Arguments proxyStarted {A H P}.

(** The calls made on the collaborators, with their results, in the
    order in which they are made. *)
Inductive Call :=
| CallLoad (id : Z) (cfg : HookCfg) (res : option error)
| CallStartProxy (opts : ProxyOptions) (res : option error).

Section WithCollaborators.
Context {A H P : Type} `{AppPackage A} `{Hooks H} `{Proxy P}.

(** [New]: the zero value of every field that is not given. *)
Definition New (h : H) (p : P) : Core A H P :=
  mkCore {| ai_id := 0 |} ∅ h p false.

Definition uint64 (x : Z) : Z := x mod 2 ^ 64.

(** [Setup]: the application is built and set up; it is returned by
    identifier only.  The registry [apps] is not written. *)
Definition Setup (c : Core A H P) (cmd : string) (opts : SetupOptions)
  : (Z * option error) * Core A H P :=
  let '(n, gen) := Next (id c) in
  let c1 := mkCore gen (apps c) (hook c) (proxy c) (proxyStarted c) in
  let id := uint64 n in
  let a := NewApp id cmd in
  let '(err, _) := App_Setup a {| DockerNetwork := DockerNetwork opts |} in
  match err with
  | Some e => ((0, Some e), c1)
  | None => ((id, None), c1)
  end.

Definition not_found (id : Z) : error :=
  ErrorString ("app with id:" +:+ String.string_of_list_ascii (Fmt.Sprintf_d id)
               +:+ " not found").

Definition assert_failed (id : Z) : error :=
  ErrorString ("failed to type assert app with id:"
               +:+ String.string_of_list_ascii (Fmt.Sprintf_d id)).

Definition getApp (c : Core A H P) (id : Z) : A + error :=
  match apps c !! id with
  | None => inr (not_found id)
  | Some (AnyApp h) => inl h
  | Some AnyOther => inr (assert_failed id)
  end.

Definition hookErr : error := ErrorString "failed to hook into the app".

Definition Hook (c : Core A H P) (id : Z) : (option error * Core A H P) * list Call :=
  match getApp c id with
  | inr _ => ((Some hookErr, c), [])
  | inl a =>
      let isDocker :=
        match Kind a with
        | Docker | DockerCompose => true
        | Native => false
        end in
      let cfg := {| AppID := id; Pid := 0; IsDocker := isDocker;
                    KeployIPV4 := KeployIPv4Addr a |} in
      let '(err, h1) := Load (hook c) id cfg in
      let c1 := mkCore (Core.id c) (apps c) h1 (proxy c) (proxyStarted c) in
      match err with
      | Some _ => ((Some hookErr, c1), [CallLoad id cfg err])
      | None =>
          if proxyStarted c1 then ((None, c1), [CallLoad id cfg err])
          else
            let opts := {| DnsIPv4Addr := KeployIPv4Addr a |} in
            let '(err2, p1) := StartProxy (proxy c1) opts in
            let c2 := mkCore (Core.id c1) (apps c1) (hook c1) p1 (proxyStarted c1) in
            let calls := [CallLoad id cfg err; CallStartProxy opts err2] in
            match err2 with
            | Some _ => ((Some hookErr, c2), calls)
            | None =>
                ((None, mkCore (Core.id c2) (apps c2) (hook c2) (proxy c2) true), calls)
            end
      end
  end.


End WithCollaborators.

(** Concrete collaborators, used to run the code on examples. *)

(** An application is its identifier and command; set-up succeeds. *)
Record SimpleApp := { sa_id : Z; sa_cmd : string }.

#[global] Instance SimpleApp_pkg : AppPackage SimpleApp := {
  NewApp i cmd := {| sa_id := i; sa_cmd := cmd |};
  App_Setup a _ := (None, a);
  Kind _ := Native;
  KeployIPv4Addr _ := "172.18.0.2"
}.

(** Hooks that always load. *)
#[global] Instance unit_Hooks : Hooks unit := {
  Load h _ _ := (None, h);
  SendInode h _ _ := (None, h)
}.

(** A proxy that follows a script of results, one per start; when the
    script is over every start succeeds. *)
#[global] Instance scripted_Proxy : Proxy (list (option error)) := {
  StartProxy p _ :=
    match p with
    | [] => (None, [])
    | r :: p' => (r, p')
    end
}.

(** Observations on the calls of a run. *)

Definition is_start (c : Call) : bool :=
  match c with
  | CallStartProxy _ _ => true
  | CallLoad _ _ _ => false
  end.




(** *** Run *)

(** [models.RunOptions], the fields that [Run] reads. *)
Record RunOptions := { ServeTest : bool; DockerDelay : Z }.

(** [models.AppErrorType]: its zero value, [ErrInternal], and the values
    that only the [app] package gives. *)
Inductive AppErrorType := ErrZero | ErrInternal | ErrOfApp (name : string).

(** [models.AppError] *)
Record AppError := { AppError_Type : AppErrorType; AppError_Err : option error }.

(** The method [Run] of an [*app.App]: its result, and the inode that it
    sends on the channel it is given, when it sends one. *)
Class AppRunner (A : Type) := {
  App_Run : A -> Z -> AppError * option Z
}.

(** The calls that [Run] makes or causes: [a.Run] with the delay it is
    given, and [hook.SendInode], which the goroutine calls with the inode
    it has received. *)
Inductive RunCall :=
| CallAppRun (id : Z) (delay : Z) (res : AppError)
| CallSendInode (id : Z) (inode : Z) (res : option error).

Section WithRunner.
Context {A H P : Type} `{AppPackage A} `{Hooks H} `{Proxy P} `{AppRunner A}.

Definition Run (c : Core A H P) (id : Z) (opts : RunOptions)
  : (AppError * Core A H P) * list RunCall :=
  if ServeTest opts then (({| AppError_Type := ErrZero; AppError_Err := None |}, c), [])
  else
    match getApp c id with
    | inr err => (({| AppError_Type := ErrInternal; AppError_Err := Some err |}, c), [])
    | inl a =>
        let '(res, sent) := App_Run a (DockerDelay opts) in
        match sent with
        | None => ((res, c), [CallAppRun id (DockerDelay opts) res])
        | Some inode =>
            let '(err, h1) := SendInode (hook c) id inode in
            ((res, mkCore (Core.id c) (apps c) h1 (proxy c) (proxyStarted c)),
             [CallAppRun id (DockerDelay opts) res; CallSendInode id inode err])
        end
    end.

(** The exported operations of a Core, and a sequence of them run on one
    Core with what each returns and the calls it makes. *)
Inductive Op :=
| OpSetup (cmd : string) (opts : SetupOptions)
| OpHook (id : Z)
| OpRun (id : Z) (opts : RunOptions).

Inductive Answer :=
| AnsSetup (id : Z) (err : option error)
| AnsHook (err : option error) (calls : list Call)
| AnsRun (res : AppError) (calls : list RunCall).

Definition apply_op (c : Core A H P) (op : Op) : Answer * Core A H P :=
  match op with
  | OpSetup cmd opts => let '((i, err), c1) := Setup c cmd opts in (AnsSetup i err, c1)
  | OpHook i => let '((err, c1), calls) := Hook c i in (AnsHook err calls, c1)
  | OpRun i opts => let '((res, c1), calls) := Run c i opts in (AnsRun res calls, c1)
  end.

Fixpoint apply_ops (c : Core A H P) (ops : list Op) : list Answer * Core A H P :=
  match ops with
  | [] => ([], c)
  | op :: rest =>
      let '(ans, c1) := apply_op c op in
      let '(answers, c2) := apply_ops c1 rest in
      (ans :: answers, c2)
  end.

(** What an operation answers when it finds no application and calls no
    collaborator. *)
Definition inert (op : Op) (ans : Answer) : Prop :=
  match op, ans with
  | OpSetup _ _, AnsSetup _ _ => True
  | OpHook _, AnsHook err calls => err = Some hookErr /\ calls = []
  | OpRun i opts, AnsRun res calls =>
      calls = []
      /\ res = (if ServeTest opts
                then {| AppError_Type := ErrZero; AppError_Err := None |}
                else {| AppError_Type := ErrInternal; AppError_Err := Some (not_found i) |})
  | _, _ => False
  end.


End WithRunner.

(** An application whose set-up fails when its command is empty, and
    whose run sends its identifier as inode. *)
Record FussyApp := { fa_id : Z; fa_cmd : string }.

Definition empty_command : error := ErrorString "empty command".

#[global] Instance FussyApp_pkg : AppPackage FussyApp := {
  NewApp i cmd := {| fa_id := i; fa_cmd := cmd |};
  App_Setup a _ := (if String.eqb (fa_cmd a) "" then Some empty_command else None, a);
  Kind _ := Docker;
  KeployIPv4Addr _ := "172.18.0.2"
}.

#[global] Instance FussyApp_runner : AppRunner FussyApp := {
  App_Run a _ := ({| AppError_Type := ErrOfApp "app stopped"; AppError_Err := None |},
                  Some (fa_id a))
}.

(** Hooks that record what they are sent and refuse every inode. *)
#[global] Instance recording_Hooks : Hooks (list Z) := {
  Load h _ _ := (None, h);
  SendInode h _ inode := (Some (ErrorString "map update failed"), inode :: h)
}.

End Core.

(** ** The proxy utilities: reads, relay and address codec *)

Module Util.

(** *** The environment of a call *)

(** A [context.Context], as far as these functions see it: they only
    poll [ctx.Done()] in a [select] with a [default] branch.  A context is
    cancelled once and stays so, so the answers to the successive polls
    are a number of "not yet" followed by "done" for ever.  [None] is a
    context that is never cancelled, [Some k] one whose next [k] polls
    still find it open. *)
Definition Context := option nat.

Inductive ConnId := Client | Dest.

(** What a call does, in order: polls of [ctx.Done()] with their answer,
    reads, sleeps, sends on the two channels of [ReadBuffConn], writes
    and closes of connections. *)
Inductive Event :=
| EvDone (done : bool)
| EvRead (size : nat)
| EvSleep (ms : Z)
| EvSendBuffer (buffer : list byte)
| EvSendErr (err : error)
| EvWrite (c : ConnId) (b : list byte)
| EvClose (c : ConnId).

#[global] Instance ConnId_eq_dec : EqDecision ConnId.
Proof. solve_decision. Defined.

Record World := mkWorld {
  ctx : Context;
  trace : list Event
}.

Definition emit (e : Event) (w : World) : World :=
  mkWorld (ctx w) (trace w ++ [e]).

(** [select { case <-ctx.Done(): ...; default: ... }]: whether the first
    branch is taken, and the world after the poll. *)
Definition Done (w : World) : bool * World :=
  match ctx w with
  | None => (false, emit (EvDone false) w)
  | Some O => (true, emit (EvDone true) w)
  | Some (S k) => (false, emit (EvDone false) (mkWorld (Some k) (trace w)))
  end.

(** Whether [<-ctx.Done()] is ready, without a poll of its own. *)
Definition is_done (w : World) : bool :=
  match ctx w with
  | Some O => true
  | _ => false
  end.

(** [io.Reader]: [Read r size] is [reader.Read(buf)] with
    [len(buf) = size]; it gives the bytes put into [buf[:n]] (so [n] is
    their number) and the error.  The interface's contract [n <= len(buf)]
    is part of it. *)
Class Reader (R : Type) := {
  Read : R -> nat -> (list byte * option error) * R;
  Read_le : forall r size, (length (fst (fst (Read r size))) <= size)%nat
}.

(** [net.Conn], as far as it is used. *)
Class Conn (C : Type) := {
  Conn_Reader :: Reader C;
  Write : C -> list byte -> (nat * option error) * C;
  Close : C -> option error * C
}.

(** A [for { ... }] loop: the body either continues with a new state or
    returns. *)
Inductive step (St A : Type) :=
| Continue (s : St)
| Return (a : A).
Arguments Continue {St A} s.
Arguments Return {St A} a.

Fixpoint loop {St A : Type} (body : St -> step St A) (fuel : nat) (s : St) : option A :=
  match fuel with
  | O => None
  | S f =>
      match body s with
      | Return a => Some a
      | Continue s' => loop body f s'
      end
  end.

(** *** ReadBytes *)

Definition maxEmptyReads : Z := 5.

(** The variables of the loop of [ReadBytes]. *)
Record ReadState (R : Type) := mkReadState {
  rs_world : World;
  rs_reader : R;
  rs_buffer : list byte;
  rs_emptyReads : Z
}.
Arguments mkReadState {R}.
Arguments rs_world {R}.
Arguments rs_reader {R}.
Arguments rs_buffer {R}.
Arguments rs_emptyReads {R}.

Definition ReadResult (R : Type) : Type := (list byte * option error) * World * R.

(** One iteration of the loop of [ReadBytes]. *)
Definition ReadBytes_iter {R} `{Reader R} (s : ReadState R)
  : step (ReadState R) (ReadResult R) :=
  let '(done, w) := Done (rs_world s) in
  if done then Return ((rs_buffer s, None), w, rs_reader s)
  else
    let '((data, err), r) := Read (rs_reader s) 1024 in
    let w := emit (EvRead 1024) w in
    let n := length data in
    let buffer := if (0 <? n)%nat then rs_buffer s ++ data else rs_buffer s in
    let emptyReads := if (0 <? n)%nat then 0 else rs_emptyReads s in
    match err with
    | Some e =>
        if is_EOF e then
          let emptyReads := emptyReads + 1 in
          if maxEmptyReads <=? emptyReads
          then Return ((buffer, err), w, r)
          else Continue (mkReadState (emit (EvSleep 100) w) r buffer emptyReads)
        else Return ((buffer, err), w, r)
    | None =>
        if (n <? 1024)%nat
        then Return ((buffer, None), w, r)
        else Continue (mkReadState w r buffer emptyReads)
    end.

Definition ReadBytes {R} `{Reader R} (fuel : nat) (w : World) (reader : R)
  : option (ReadResult R) :=
  loop ReadBytes_iter fuel (mkReadState w reader [] 0).

(** *** ReadRequiredBytes *)

(** [make([]byte, numBytes)] panics on a negative length.  It panics as
    well for a length above what the allocator of the platform can give;
    that limit is not part of the model, where every length from 0 on is
    taken to be within it. *)
Inductive outcome (T : Type) :=
| Ret (t : T)
| Panic.
Arguments Ret {T} t.
Arguments Panic {T}.

Record RequiredState (R : Type) := mkRequiredState {
  rq_world : World;
  rq_reader : R;
  rq_buffer : list byte;
  rq_numBytes : Z;
  rq_emptyReads : Z
}.
Arguments mkRequiredState {R}.
Arguments rq_world {R}.
Arguments rq_reader {R}.
Arguments rq_buffer {R}.
Arguments rq_numBytes {R}.
Arguments rq_emptyReads {R}.

Definition RequiredResult (R : Type) : Type :=
  outcome (list byte * option error) * World * R.

Definition ReadRequiredBytes_iter {R} `{Reader R} (s : RequiredState R)
  : step (RequiredState R) (RequiredResult R) :=
  let '(done, w) := Done (rq_world s) in
  if done then Return (Ret (rq_buffer s, None), w, rq_reader s)
  else if rq_numBytes s <? 0 then Return (Panic, w, rq_reader s)
  else
    let '((data, err), r) := Read (rq_reader s) (Z.to_nat (rq_numBytes s)) in
    let w := emit (EvRead (Z.to_nat (rq_numBytes s))) w in
    let n := Z.of_nat (length data) in
    if n =? rq_numBytes s then Return (Ret (rq_buffer s ++ data, None), w, r)
    else
      let buffer := if 0 <? n then rq_buffer s ++ data else rq_buffer s in
      let numBytes := if 0 <? n then rq_numBytes s - n else rq_numBytes s in
      let emptyReads := if 0 <? n then 0 else rq_emptyReads s in
      match err with
      | Some e =>
          if is_EOF e then
            let emptyReads := emptyReads + 1 in
            if maxEmptyReads <=? emptyReads
            then Return (Ret (buffer, err), w, r)
            else Continue (mkRequiredState (emit (EvSleep 100) w) r buffer numBytes emptyReads)
          else Return (Ret (buffer, err), w, r)
      | None => Continue (mkRequiredState w r buffer numBytes emptyReads)
      end.

Definition ReadRequiredBytes {R} `{Reader R} (fuel : nat) (w : World) (reader : R)
  (numBytes : Z) : option (RequiredResult R) :=
  loop ReadRequiredBytes_iter fuel (mkRequiredState w reader [] numBytes 0).

(** *** ReadBuffConn *)

(** What one iteration of [ReadBuffConn] ends with: a return without a
    send (the context is done), the send of an error followed by a
    return, or the send of a buffer. *)
Inductive publication :=
| PubNone
| PubErr (err : error)
| PubBuffer (buffer : list byte).

(** One iteration of [ReadBuffConn] up to its send.  The connection is
    not nil (for a nil one the code only logs before reading). *)
Definition ReadBuffConn_iter {R} `{Reader R} (fuel : nat) (w : World) (conn : R)
  : option (publication * World * R) :=
  let '(done, w) := Done w in
  if done then Some (PubNone, w, conn)
  else
    match ReadBytes fuel w conn with
    | None => None
    | Some ((buffer, err), w, conn) =>
        match err with
        | Some e => Some (PubErr e, w, conn)
        | None => Some (PubBuffer buffer, w, conn)
        end
    end.

(** [ReadBuffConn] with receivers that take every value sent: a send is
    recorded in the trace and the loop goes on. *)
Fixpoint ReadBuffConn {R} `{Reader R} (fuel : nat) (w : World) (conn : R)
  : option (World * R) :=
  match fuel with
  | O => None
  | S f =>
      match ReadBuffConn_iter f w conn with
      | None => None
      | Some (PubNone, w, conn) => Some (w, conn)
      | Some (PubErr e, w, conn) => Some (emit (EvSendErr e) w, conn)
      | Some (PubBuffer b, w, conn) => ReadBuffConn f (emit (EvSendBuffer b) w) conn
      end
  end.

(** *** PassThrough *)

Definition passErr : error :=
  ErrorString "failed to pass network traffic to the destination conn".

(** [for _, v := range requestBuffer { _, err := destConn.Write(v); ... }]:
    the error of the first write that fails, if any. *)
Fixpoint write_requests {C} `{Conn C} (w : World) (destConn : C)
  (requestBuffer : list (list byte)) : option error * World * C :=
  match requestBuffer with
  | [] => (None, w, destConn)
  | v :: rest =>
      let '((_, err), d) := Write destConn v in
      let w := emit (EvWrite Dest v) w in
      match err with
      | Some e => (Some e, w, d)
      | None => write_requests w d rest
      end
  end.

(** The branch that the three-way [select] of [PassThrough] takes, with
    the value received. *)
Inductive selected :=
| SelBuffer (buffer : list byte)
| SelErr (err : option error)
| SelDone.

(** The result of [PassThrough]: the byte slice (always nil) and the
    error. *)
Definition PassResult : Type := option (list byte) * option error.

(** The body of the [select] and the final return. *)
Definition PassThrough_select {C} `{Conn C} (sel : selected) (w : World) (clientConn : C)
  : PassResult * World * C :=
  match sel with
  | SelBuffer buffer =>
      let '((_, err), cl) := Write clientConn buffer in
      let w := emit (EvWrite Client buffer) w in
      match err with
      | Some e => ((None, Some e), w, cl)
      | None => ((None, None), w, cl)
      end
  | SelErr err =>
      if negb (is_net_timeout err) && bool_decide (err <> None)
      then ((None, err), w, clientConn)
      else ((None, None), w, clientConn)
  | SelDone => ((None, None), w, clientConn)
  end.

(** Which branch of the [select] is taken.  The goroutine runs
    [ReadBuffConn] on the destination; only one value is ever received
    from its channels, so what it offers is what its first iteration ends
    with.  When the goroutine has returned without a send the context is
    done and only that branch is ready.  When it offers a value and the
    context is done as well, Go chooses among the ready branches:
    [pick_done] is that choice. *)
Definition select_branch (pick_done : bool) (done : bool) (pub : publication) : selected :=
  match pub with
  | PubNone => SelDone
  | PubErr e => if done && pick_done then SelDone else SelErr (Some e)
  | PubBuffer b => if done && pick_done then SelDone else SelBuffer b
  end.

(** [PassThrough].  A nil [destConn] is [None].  The deferred [Close] of
    the destination runs when the function returns, on each path after
    the [defer] statement.  [None] as a result: the fuel has run out
    before the goroutine has offered anything (with a context that is
    never done and a reader that never ends a message the call blocks). *)
Definition PassThrough {C} `{Conn C} (fuel : nat) (pick_done : bool) (w : World)
  (clientConn : C) (destConn : option C) (requestBuffer : list (list byte))
  : option (PassResult * World * C * option C) :=
  match destConn with
  | None => Some ((None, Some passErr), w, clientConn, None)
  | Some d =>
      let '(werr, w, d) := write_requests w d requestBuffer in
      match werr with
      | Some e =>
          let '(_, d) := Close d in
          Some ((None, Some e), emit (EvClose Dest) w, clientConn, Some d)
      | None =>
          match ReadBuffConn_iter fuel w d with
          | None => None
          | Some (pub, w, d) =>
              let '(res, w, cl) :=
                PassThrough_select (select_branch pick_done (is_done w) pub) w clientConn in
              let '(_, d) := Close d in
              Some (res, emit (EvClose Dest) w, cl, Some d)
          end
      end
  end.

(** *** Address codec *)

(** [ToIP4AddressStr]: the 32 binary digits of [ip], cut into four
    groups of eight, each parsed back as a number and printed in
    decimal.  The errors of [ParseUint] are dropped, as in the code.
    [None] is a panic of a slice expression. *)
Definition ToIP4AddressStr (ip : Z) : option (list ascii) :=
  let ipBinary := Fmt.Sprintf_032b ip in
  s1 ← Fmt.slice ipBinary 0 8;
  s2 ← Fmt.slice ipBinary 8 16;
  s3 ← Fmt.slice ipBinary 16 24;
  s4 ← Fmt.slice ipBinary 24 32;
  let firstByte := fst (Fmt.ParseUint s1 2) in
  let secondByte := fst (Fmt.ParseUint s2 2) in
  let thirdByte := fst (Fmt.ParseUint s3 2) in
  let fourthByte := fst (Fmt.ParseUint s4 2) in
  Some (Fmt.Sprintf_d firstByte ++ ["."%char] ++ Fmt.Sprintf_d secondByte ++ ["."%char]
        ++ Fmt.Sprintf_d thirdByte ++ ["."%char] ++ Fmt.Sprintf_d fourthByte).

(** A [net.IP] is a byte slice; bytes are numbers below 256 and the nil
    slice is the empty list. *)
Definition IP := list Z.

Definition is_digit (c : ascii) : bool :=
  let n := nat_of_ascii c in (48 <=? n)%nat && (n <=? 57)%nat.

Definition is_dot (c : ascii) : bool := bool_decide (c = "."%char).

(** The standard library's parser of dotted-decimal text
    ([parseIPv4Fields] of net/netip).  [prev] is the byte before the
    current one ([None] at index 0); the remaining input being empty
    after a dot is the test [i == len(s)-1].  The result is the four
    fields, or [None] for each of the parser's errors. *)
Fixpoint parseIPv4Fields (s : list ascii) (prev : option ascii)
  (val : Z) (pos : nat) (digLen : Z) (fields : list Z) : option (list Z) :=
  match s with
  | [] => if (pos <? 3)%nat then None else Some (<[3%nat := val mod 256]> fields)
  | c :: rest =>
      if is_digit c then
        if (digLen =? 1) && (val =? 0) then None
        else
          let val := val * 10 + (Z.of_nat (nat_of_ascii c) - 48) in
          if 255 <? val then None
          else parseIPv4Fields rest (Some c) val pos (digLen + 1) fields
      else if is_dot c then
        match prev, rest with
        | None, _ => None
        | _, [] => None
        | Some p, _ =>
            if is_dot p then None
            else if (pos =? 3)%nat then None
            else parseIPv4Fields rest (Some c) 0 (S pos) 0 (<[pos := val mod 256]> fields)
        end
      else None
  end.

Definition parseIPv4 (s : list ascii) : option (list Z) :=
  parseIPv4Fields s None 0 0%nat 0 [0; 0; 0; 0].

(** The first of the bytes ['.'], [':'] and ['%'] in the text decides
    which parser [netip.ParseAddr] uses. *)
Inductive family := TextV4 | TextV6 | TextZone | TextNone.

Fixpoint text_family (s : list ascii) : family :=
  match s with
  | [] => TextNone
  | c :: rest =>
      if is_dot c then TextV4
      else if bool_decide (c = ":"%char) then TextV6
      else if bool_decide (c = "%"%char) then TextZone
      else text_family rest
  end.

Section ParseIP.
(** The parser of IPv6 text of the standard library is taken as given:
    its result as a [net.IP] (nil when the text is invalid). *)
Variable parseIPv6 : list ascii -> IP.

(** [net.ParseIP]: an IPv4 address is returned in its 16-byte form. *)
Definition ParseIP (s : list ascii) : IP :=
  match text_family s with
  | TextV4 =>
      match parseIPv4 s with
      | Some f => [0; 0; 0; 0; 0; 0; 0; 0; 0; 0; 255; 255] ++ f
      | None => []
      end
  | TextV6 => parseIPv6 s
  | TextZone | TextNone => []
  end.
End ParseIP.

(** [ip.To4()]: [None] is the nil result. *)
Definition To4 (ip : IP) : option IP :=
  if (length ip =? 4)%nat then Some ip
  else if (length ip =? 16)%nat
          && forallb (Z.eqb 0) (firstn 10 ip)
          && bool_decide (ip !! 10%nat = Some 255)
          && bool_decide (ip !! 11%nat = Some 255)
  then Some (firstn 4 (skipn 12 ip))
  else None.

Definition uint32 (x : Z) : Z := x mod 2 ^ 32.

(** [ToIPV4] *)
Definition ToIPV4 (ip : IP) : Z * bool :=
  match To4 ip with
  | None => (0, false)
  | Some ipv4 =>
      let b i := uint32 (nth i ipv4 0) in
      (Z.lor (Z.lor (Z.lor (uint32 (Z.shiftl (b 0%nat) 24)) (uint32 (Z.shiftl (b 1%nat) 16)))
                    (uint32 (Z.shiftl (b 2%nat) 8)))
             (b 3%nat),
       true)
  end.

(** *** GetNextID and ReadInitialBuf *)

(** A signed 64-bit integer: the value of [x] after wrap-around. *)
Definition int64 (x : Z) : Z := (x + 2 ^ 63) mod 2 ^ 64 - 2 ^ 63.

(** [var idCounter int64 = -1] *)
Definition idCounter0 : Z := -1.

(** [GetNextID]: [atomic.AddInt64(&idCounter, 1)] adds one to the counter
    and returns the new value.  The counter is the state; the addition is
    atomic, so concurrent calls are some sequence of these steps. *)
Definition GetNextID (idCounter : Z) : Z * Z :=
  let v := int64 (idCounter + 1) in (v, v).

(** [k] calls one after the other: the values returned and the counter
    afterwards. *)
Fixpoint GetNextID_calls (k : nat) (idCounter : Z) : list Z * Z :=
  match k with
  | O => ([], idCounter)
  | S k' =>
      let '(v, c) := GetNextID idCounter in
      let '(vs, c') := GetNextID_calls k' c in
      (v :: vs, c')
  end.

Definition readErr : error := ErrorString "failed to read the initial request buffer".

(** [ReadInitialBuf]: the nil slice is the empty list. *)
Definition ReadInitialBuf {R} `{Reader R} (fuel : nat) (w : World) (conn : R)
  : option (ReadResult R) :=
  match ReadBytes fuel w conn with
  | None => None
  | Some ((initialBuf, err), w, conn) =>
      if bool_decide (err <> None) && negb (bool_decide (err = Some EOF))
      then Some (([], Some readErr), w, conn)
      else if bool_decide (err = Some EOF) && (length initialBuf =? 0)%nat
      then Some (([], Some readErr), w, conn)
      else if bool_decide (err <> None)
      then Some (([], Some readErr), w, conn)
      else Some ((initialBuf, None), w, conn)
  end.

(** *** ToIPv6AddressStr, IPv6ToUint32Array, IPToDotDecimal *)

(** [byte(x)]: the conversion keeps the low eight bits. *)
Definition byte_of (x : Z) : Z := x mod 256.

(** A [[4]uint32]. *)
Definition Words : Type := Z * Z * Z * Z.

Definition word_at (ip : Words) (i : nat) : Z :=
  let '(w0, w1, w2, w3) := ip in
  match i with
  | 0%nat => w0
  | 1%nat => w1
  | 2%nat => w2
  | _ => w3
  end.

(** The body of the loop of [ToIPv6AddressStr] for one [i]. *)
Definition put_word (ip : Words) (ipBytes : list Z) (i : nat) : list Z :=
  let ipBytes := <[(i * 4)%nat := byte_of (Z.shiftr (word_at ip i) 24)]> ipBytes in
  let ipBytes := <[(i * 4 + 1)%nat := byte_of (Z.shiftr (word_at ip i) 16)]> ipBytes in
  let ipBytes := <[(i * 4 + 2)%nat := byte_of (Z.shiftr (word_at ip i) 8)]> ipBytes in
  <[(i * 4 + 3)%nat := byte_of (word_at ip i)]> ipBytes.

(** The byte slice that [ToIPv6AddressStr] builds: [make([]byte, 16)]
    filled by [for i := 0; i < 4; i++]. *)
Definition ToIPv6Bytes (ip : Words) : IP :=
  fold_left (put_word ip) [0; 1; 2; 3]%nat (repeat 0 16).

(** netip's [appendDecimal] for one byte. *)
Definition appendDecimal (b : list ascii) (x : Z) : list ascii :=
  let b := if 100 <=? x then b ++ [Fmt.digit_char (x / 100)] else b in
  let b := if 10 <=? x then b ++ [Fmt.digit_char (x / 10 mod 10)] else b in
  b ++ [Fmt.digit_char (x mod 10)].

(** The text of a 4-byte address ([appendTo4] of netip). *)
Definition string4 (p4 : IP) : list ascii :=
  let ret := appendDecimal [] (nth 0 p4 0) in
  let ret := ret ++ ["."%char] in
  let ret := appendDecimal ret (nth 1 p4 0) in
  let ret := ret ++ ["."%char] in
  let ret := appendDecimal ret (nth 2 p4 0) in
  let ret := ret ++ ["."%char] in
  appendDecimal ret (nth 3 p4 0).

Section IPString.
(** The texts that the standard library gives to addresses that are not
    IPv4 addresses are taken as given: the IPv6 text of a 16-byte
    address, and the text of a slice of any other length. *)
Variable string16 : IP -> list ascii.
Variable hexString : IP -> list ascii.

(** [ip.String()] *)
Definition IP_String (ip : IP) : list ascii :=
  if (length ip =? 0)%nat then String.list_ascii_of_string "<nil>"
  else if negb (length ip =? 4)%nat && negb (length ip =? 16)%nat
  then "?"%char :: hexString ip
  else
    match To4 ip with
    | Some p4 => if (length p4 =? 4)%nat then string4 p4 else string16 ip
    | None => string16 ip
    end.

(** [ToIPv6AddressStr] *)
Definition ToIPv6AddressStr (ip : Words) : list ascii :=
  IP_String (ToIPv6Bytes ip).

(** [IPToDotDecimal] *)
Definition IPToDotDecimal (ip : IP) : list ascii :=
  let ipStr := IP_String ip in
  match To4 ip with
  | Some p4 => IP_String p4
  | None => ipStr
  end.
End IPString.

(** [ip.To16()]: [None] is the nil result. *)
Definition To16 (ip : IP) : option IP :=
  if (length ip =? 4)%nat
  then Some ([0; 0; 0; 0; 0; 0; 0; 0; 0; 0; 255; 255]
             ++ [nth 0 ip 0; nth 1 ip 0; nth 2 ip 0; nth 3 ip 0])
  else if (length ip =? 16)%nat then Some ip
  else None.

(** [binary.BigEndian.Uint32(b)] on a slice of four bytes. *)
Definition BigEndian_Uint32 (b : list Z) : Z :=
  Z.lor (Z.lor (Z.lor (uint32 (nth 3 b 0)) (uint32 (Z.shiftl (uint32 (nth 2 b 0)) 8)))
               (uint32 (Z.shiftl (uint32 (nth 1 b 0)) 16)))
        (uint32 (Z.shiftl (uint32 (nth 0 b 0)) 24)).

Definition invalidIPv6 : error := ErrorString "invalid IPv6 address".

(** [IPv6ToUint32Array] *)
Definition IPv6ToUint32Array (ip : IP) : Words * option error :=
  match To16 ip with
  | None => ((0, 0, 0, 0), Some invalidIPv6)
  | Some ip =>
      ((BigEndian_Uint32 (firstn 4 ip),
        BigEndian_Uint32 (firstn 4 (skipn 4 ip)),
        BigEndian_Uint32 (firstn 4 (skipn 8 ip)),
        BigEndian_Uint32 (firstn 4 (skipn 12 ip))), None)
  end.

(** *** GetLocalIPv4 and GetLocalIPv6 *)

(** [net.IPv6loopback] *)
Definition IPv6loopback : IP := [0; 0; 0; 0; 0; 0; 0; 0; 0; 0; 0; 0; 0; 0; 0; 1].

(** [ip.IsLoopback()]: for an address that is no IPv4 address the
    comparison [ip.Equal(IPv6loopback)] is the equality of the bytes. *)
Definition IsLoopback (ip : IP) : bool :=
  match To4 ip with
  | Some ip4 => nth 0 ip4 0 =? 127
  | None => bool_decide (ip = IPv6loopback)
  end.

(** A [net.Addr]: a [*net.IPNet] with its [IP] field, or a value of
    another type. *)
Inductive Addr :=
| IPNetAddr (ip : IP)
| OtherAddr.

(** A network interface, as far as it is used: the result of its
    [Addrs()]. *)
Definition Interface : Type := list Addr + error.

(** The inner loop of [GetLocalIPv4]: the first address that passes the
    test. *)
Fixpoint first_addr (test : IP -> bool) (addrs : list Addr) : option IP :=
  match addrs with
  | [] => None
  | IPNetAddr ip :: rest => if test ip then Some ip else first_addr test rest
  | OtherAddr :: rest => first_addr test rest
  end.

(** The outer loop; the nil address is the empty list. *)
Fixpoint scan_interfaces (test : IP -> bool) (notFound : error) (ifaces : list Interface)
  : IP * option error :=
  match ifaces with
  | [] => ([], Some notFound)
  | inr err :: _ => ([], Some err)
  | inl addrs :: rest =>
      match first_addr test addrs with
      | Some ip => (ip, None)
      | None => scan_interfaces test notFound rest
      end
  end.

Definition is_local_v4 (ip : IP) : bool :=
  negb (IsLoopback ip) && bool_decide (To4 ip <> None).

Definition is_local_v6 (ip : IP) : bool :=
  negb (IsLoopback ip) && bool_decide (To4 ip = None) && bool_decide (To16 ip <> None).

(** [GetLocalIPv4]; the argument is the result of [net.Interfaces()]. *)
Definition GetLocalIPv4 (interfaces : list Interface + error) : IP * option error :=
  match interfaces with
  | inr err => ([], Some err)
  | inl ifaces =>
      scan_interfaces is_local_v4 (ErrorString "no valid IP address found") ifaces
  end.

(** [GetLocalIPv6] *)
Definition GetLocalIPv6 (interfaces : list Interface + error) : IP * option error :=
  match interfaces with
  | inr err => ([], Some err)
  | inl ifaces =>
      scan_interfaces is_local_v6 (ErrorString "no valid IPv6 address found") ifaces
  end.

(** *** Readers and connections for examples *)

(** A reader that follows a script of results; when the script is over
    it reports end of stream without data. *)
Definition script := list (list byte * option error).

Definition script_Read (r : script) (size : nat) : (list byte * option error) * script :=
  match r with
  | [] => (([], Some EOF), [])
  | (data, err) :: r' => ((firstn size data, err), r')
  end.

Lemma script_Read_le (r : script) (size : nat) :
  (length (fst (fst (script_Read r size))) <= size)%nat.
Proof.
  destruct r as [|[data err] r']; simpl; [lia|].
  rewrite length_firstn. lia.
Qed.

#[global] Instance script_Reader : Reader script := {
  Read := script_Read;
  Read_le := script_Read_le
}.

(** A stream that has ended: every read returns no byte and the
    end-of-stream error. *)
Inductive ended := Ended.

Lemma ended_Read_le (r : ended) (size : nat) :
  (length (fst (fst (([] : list byte, Some EOF), r))) <= size)%nat.
Proof. simpl. lia. Qed.

#[global] Instance ended_Reader : Reader ended := {
  Read r _ := (([], Some EOF), r);
  Read_le := ended_Read_le
}.

(** A connection: a script of read results, a script of write results
    (every write succeeds when it is over) and the result of [Close]. *)
Record ScriptConn := mkScriptConn {
  sc_reads : script;
  sc_writes : list (option error);
  sc_close : option error
}.

Lemma ScriptConn_Read_le (c : ScriptConn) (size : nat) :
  (length (fst (fst (let '(res, r) := script_Read (sc_reads c) size in
                     (res, mkScriptConn r (sc_writes c) (sc_close c))))) <= size)%nat.
Proof.
  pose proof (script_Read_le (sc_reads c) size) as Hle.
  destruct (script_Read (sc_reads c) size) as [res r]. exact Hle.
Qed.

#[global] Instance ScriptConn_Reader : Reader ScriptConn := {
  Read c size :=
    let '(res, r) := script_Read (sc_reads c) size in
    (res, mkScriptConn r (sc_writes c) (sc_close c));
  Read_le := ScriptConn_Read_le
}.

#[global] Instance ScriptConn_Conn : Conn ScriptConn := {
  Conn_Reader := ScriptConn_Reader;
  Write c b :=
    match sc_writes c with
    | [] => ((length b, None), c)
    | r :: ws =>
        ((match r with Some _ => O | None => length b end, r),
         mkScriptConn (sc_reads c) ws (sc_close c))
    end;
  Close c := (sc_close c, c)
}.

(** *** Observations used to state properties *)

(** The context after [k] polls that found it open, and whether the next
    [k] polls find it open. *)
Definition spend (k : nat) (c : Context) : Context :=
  match c with
  | None => None
  | Some n => Some (n - k)%nat
  end.

Definition open_for (k : nat) (c : Context) : bool :=
  match c with
  | None => true
  | Some n => (k <=? n)%nat
  end.

(** The state of a loop after [k] iterations that all continue; [None]
    when one of them returns. *)
Fixpoint iter_n {St A : Type} (body : St -> step St A) (k : nat) (s : St) : option St :=
  match k with
  | O => Some s
  | S k' =>
      match body s with
      | Return _ => None
      | Continue s' => iter_n body k' s'
      end
  end.

(** The reader after [k] reads into a 1024-byte buffer that each return
    no byte and end of stream; [None] when one of the [k] reads returns
    anything else. *)
Fixpoint eof_streak {R} `{Reader R} (k : nat) (r : R) : option R :=
  match k with
  | O => Some r
  | S k' =>
      let '((data, err), r1) := Read r 1024 in
      if (length data =? 0)%nat && bool_decide (err = Some EOF)
      then eof_streak k' r1
      else None
  end.

(** The events of [k] attempts that are retried: a poll, a read and the
    100ms sleep, each time. *)
Fixpoint retries (k : nat) : list Event :=
  match k with
  | O => []
  | S k' => [EvDone false; EvRead 1024; EvSleep 100] ++ retries k'
  end.

Definition is_send (e : Event) : bool :=
  match e with
  | EvSendBuffer _ | EvSendErr _ => true
  | _ => false
  end.

(** The sends of a trace, in order. *)
Definition sends (tr : list Event) : list Event := List.filter is_send tr.

(** Whether a trace has a send after a poll that found the context
    done. *)
Fixpoint publishes_after_done (tr : list Event) : bool :=
  match tr with
  | [] => false
  | EvDone true :: rest => existsb is_send rest
  | _ :: rest => publishes_after_done rest
  end.

(** [delivers w conn ms w' conn']: from [w] and [conn], the loop of
    [ReadBuffConn] goes through one iteration for each buffer of [ms]:
    the check finds the context open, [ReadBytes] returns the buffer with
    a nil error, and the buffer is sent; [w'] and [conn'] are the world
    and the connection after the last send. *)
Inductive delivers {R} `{Reader R} : World -> R -> list (list byte) -> World -> R -> Prop :=
| delivers_nil w conn : delivers w conn [] w conn
| delivers_cons w conn fuel m w1 conn1 ms w2 conn2 :
    is_done w = false ->
    ReadBytes fuel (snd (Done w)) conn = Some ((m, None), w1, conn1) ->
    delivers (emit (EvSendBuffer m) w1) conn1 ms w2 conn2 ->
    delivers w conn (m :: ms) w2 conn2.

(** The writes and closes on a connection, in order. *)
Definition is_conn_event (c : ConnId) (e : Event) : bool :=
  match e with
  | EvWrite c' _ | EvClose c' => bool_decide (c' = c)
  | _ => false
  end.

Definition conn_events (c : ConnId) (tr : list Event) : list Event :=
  List.filter (is_conn_event c) tr.

(** The results of writing the chunks one after the other on a
    connection, all of them. *)
Fixpoint write_results {C} `{Conn C} (d : C) (chunks : list (list byte))
  : list (option error) :=
  match chunks with
  | [] => []
  | v :: rest =>
      let '((_, err), d') := Write d v in
      err :: write_results d' rest
  end.

(** The [n] low binary digits of [v], most significant first. *)
Fixpoint bits_msb (n : nat) (v : Z) : list ascii :=
  match n with
  | O => []
  | S n' => bits_msb n' (v / 2) ++ [Fmt.digit_char (v mod 2)]
  end.

(** The byte of [v] that starts at bit [s]. *)
Definition byte_at (s : Z) (v : Z) : Z := (v / 2 ^ s) mod 256.

(** The bytes of [k] reads into a 1024-byte buffer that each fill it and
    return no error, and the reader after them; [None] when one of the
    [k] reads returns anything else. *)
Fixpoint full_streak {R} `{Reader R} (k : nat) (r : R) : option (list byte * R) :=
  match k with
  | O => Some ([], r)
  | S k' =>
      let '((data, err), r1) := Read r 1024 in
      if (length data =? 1024)%nat && bool_decide (err = None)
      then match full_streak k' r1 with
           | Some (acc, r') => Some (data ++ acc, r')
           | None => None
           end
      else None
  end.

(** The events of [k] attempts that go on without a sleep: a poll and a
    read, each time. *)
Fixpoint windows (k : nat) : list Event :=
  match k with
  | O => []
  | S k' => [EvDone false; EvRead 1024] ++ windows k'
  end.

(** A reader that never ends: every read returns one byte together with
    the end-of-stream error. *)
Inductive chatter := Chatter.

Lemma chatter_Read_le (r : chatter) (size : nat) :
  (length (fst (fst ((firstn size ["000"%byte], Some EOF), r))) <= size)%nat.
Proof. simpl. rewrite length_firstn. simpl. lia. Qed.

#[global] Instance chatter_Reader : Reader chatter := {
  Read r size := ((firstn size ["000"%byte], Some EOF), r);
  Read_le := chatter_Read_le
}.

(** [k] reads of [ReadRequiredBytes] that each bring some of the bytes
    still required, but not all of them, without error: the bytes, the
    events of these iterations, the count that is left and the reader
    after them; [None] when one of the [k] reads returns anything else. *)
Fixpoint partial_reads {R} `{Reader R} (k : nat) (numBytes : Z) (r : R)
  : option (list byte * list Event * Z * R) :=
  match k with
  | O => Some ([], [], numBytes, r)
  | S k' =>
      let '((data, err), r1) := Read r (Z.to_nat numBytes) in
      let n := Z.of_nat (length data) in
      if (0 <? n) && (n <? numBytes) && bool_decide (err = None)
      then match partial_reads k' (numBytes - n) r1 with
           | Some (acc, evs, rest, r') =>
               Some (data ++ acc,
                     [EvDone false; EvRead (Z.to_nat numBytes)] ++ evs, rest, r')
           | None => None
           end
      else None
  end.

(** The events of [k] attempts with a buffer of [size] bytes that are
    retried. *)
Fixpoint attempts (size : nat) (k : nat) : list Event :=
  match k with
  | O => []
  | S k' => [EvDone false; EvRead size; EvSleep 100] ++ attempts size k'
  end.

(** Every element is a byte. *)
Definition in_byte_range (l : list Z) : Prop := List.Forall (fun b => 0 <= b < 256) l.

(** The addresses of type [*net.IPNet] among the addresses of one
    interface, and of a list of interfaces whose [Addrs()] succeed, in the
    order in which the loops visit them. *)
Definition ipnets (addrs : list Addr) : list IP :=
  flat_map (fun a => match a with IPNetAddr ip => [ip] | OtherAddr => [] end) addrs.

Definition listed (ifaces : list (list Addr)) : list IP := flat_map ipnets ifaces.

(** Interfaces for examples: a loopback interface and one with a
    link-local IPv6 address and two IPv4 addresses. *)
Definition example_lo : list Addr :=
  [IPNetAddr [127; 0; 0; 1]; IPNetAddr IPv6loopback].

Definition example_linklocal : IP := [254; 128; 0; 0; 0; 0; 0; 0; 0; 0; 0; 0; 0; 0; 0; 9].

Definition example_eth0 : list Addr :=
  [OtherAddr; IPNetAddr example_linklocal; IPNetAddr [192; 168; 1; 5];
   IPNetAddr [10; 0; 0; 7]].

Definition example_interfaces : list Interface + error :=
  inl [inl example_lo; inl example_eth0].

Definition example_addrs_error : error :=
  ErrorString "route ip+net: no such network interface".

End Util.

(* ===================================================================== *)
(** * Part II: properties                                                *)
(* ===================================================================== *)

(** ** The orchestrator *)

Section CoreProperties.
Import Core.
Context {A H P : Type} `{AppPackage A} `{Hooks H} `{Proxy P}.

Lemma Setup_apps (c : Core A H P) cmd opts :
  apps (snd (Setup c cmd opts)) = apps c.
Proof.
  unfold Setup. simpl.
  destruct (App_Setup _ _) as [[e|] a']; reflexivity.
Qed.

Lemma getApp_unregistered (c : Core A H P) i :
  apps c !! i = None -> getApp c i = inr (not_found i).
Proof. intros Hn. unfold getApp. rewrite Hn. reflexivity. Qed.

Lemma Hook_unregistered (c : Core A H P) i :
  apps c !! i = None -> Hook c i = ((Some hookErr, c), []).
Proof. intros Hn. unfold Hook. rewrite (getApp_unregistered _ _ Hn). reflexivity. Qed.







(** C1 (the code departs from this claim): a call of [Setup] on a new
    Core that returns an identifier with a nil error leaves the registry
    empty: the application is not stored, [getApp] answers "not found"
    for the identifier returned, and [Hook] for it fails with the generic
    error before any collaborator is called. *)
Theorem Setup_does_not_register (h : H) (p : P) cmd opts i (c1 : Core A H P) :
  Setup (New h p) cmd opts = ((i, None), c1) ->
  apps c1 = ∅
  /\ getApp c1 i = inr (not_found i)
  /\ Hook c1 i = ((Some hookErr, c1), []).
Proof.
  intros Hs.
  assert (Ha : apps c1 = ∅).
  { pose proof (Setup_apps (New h p) cmd opts) as Hp. rewrite Hs in Hp. exact Hp. }
  assert (Hn : apps c1 !! i = None) by (rewrite Ha; apply lookup_empty).
  split; [exact Ha|]. split.
  - apply getApp_unregistered, Hn.
  - apply Hook_unregistered, Hn.
Qed.


Lemma Hook_open_gate (c : Core A H P) i err c1 calls :
  proxyStarted c = false ->
  Hook c i = ((err, c1), calls) ->
  (exists cfg, In (CallLoad i cfg None) calls) ->
  exists cfg opts res,
    calls = [CallLoad i cfg None; CallStartProxy opts res]
    /\ match res with
       | None => err = None /\ proxyStarted c1 = true
       | Some _ => err = Some hookErr /\ proxyStarted c1 = false
       end.
Proof.
  intros Hs Hh [cfg Hin]. unfold Hook in Hh.
  destruct (getApp c i) as [a|e].
  2:{ injection Hh as <- <- <-. destruct Hin. }
  destruct (Load (hook c) i _) as [[e|] h1]; simpl in Hh.
  { injection Hh as <- <- <-. destruct Hin as [Hin|[]]. discriminate. }
  rewrite Hs in Hh.
  destruct (StartProxy (proxy c) _) as [[e|] p1]; simpl in Hh;
    injection Hh as <- <- <-; eexists _, _, _; (split; [reflexivity|]); simpl; auto.
Qed.

End CoreProperties.

Lemma Setup_does_not_register_witness :
  exists c1,
    Core.Setup (Core.New (A := Core.SimpleApp) tt []) "cmd" {| Core.DockerNetwork := "" |}
    = ((0, None), c1)
    /\ Core.apps c1 = ∅
    /\ Core.getApp c1 0 = inr (Core.not_found 0)
    /\ Core.Hook c1 0 = ((Some Core.hookErr, c1), []).
Proof.
  eexists. split; [reflexivity|].
  apply (Setup_does_not_register (A := Core.SimpleApp) tt [] "cmd"
           {| Core.DockerNetwork := "" |}).
  reflexivity.
Defined.

(** ** The orchestrator over sequences of operations *)

Section CoreMore.
Import Core.
Context {A H P : Type} `{AppPackage A} `{Hooks H} `{Proxy P} `{AppRunner A}.

Lemma Setup_eq (c : Core A H P) cmd opts :
  Setup c cmd opts
  = (match fst (App_Setup (NewApp (uint64 (ai_id (id c))) cmd)
                  {| DockerNetwork := DockerNetwork opts |}) with
     | Some e => (0, Some e)
     | None => (uint64 (ai_id (id c)), None)
     end,
     mkCore {| ai_id := ai_id (id c) + 1 |} (apps c) (hook c) (proxy c) (proxyStarted c)).
Proof.
  unfold Setup, Next. destruct (App_Setup _ _) as [[e|] a']; reflexivity.
Qed.

Lemma Run_frame (c : Core A H P) i opts :
  let '((res, c1), calls) := Run c i opts in
  apps c1 = apps c /\ id c1 = id c /\ proxy c1 = proxy c
  /\ proxyStarted c1 = proxyStarted c.
Proof.
  unfold Run. destruct (ServeTest opts); [auto|].
  destruct (getApp c i) as [a|e]; [|auto].
  destruct (App_Run a _) as [res [inode|]]; [|auto].
  destruct (SendInode _ _ _) as [err h1]. cbn. auto.
Qed.

Lemma Hook_frame (c : Core A H P) i :
  let '((err, c1), calls) := Hook c i in
  apps c1 = apps c /\ id c1 = id c
  /\ (proxyStarted c = true -> proxyStarted c1 = true).
Proof.
  unfold Hook. destruct (getApp c i) as [a|e]; [|auto].
  destruct (Load _ _ _) as [[e|] h1]; cbn; [auto|].
  destruct (proxyStarted c) eqn:Hs; cbn; [auto|].
  destruct (StartProxy _ _) as [[e|] p1]; cbn; auto.
Qed.

Lemma apply_op_frame (c : Core A H P) op :
  let '(ans, c1) := apply_op c op in
  apps c1 = apps c /\ (proxyStarted c = true -> proxyStarted c1 = true).
Proof.
  destruct op as [cmd opts|i|i opts]; cbn [apply_op].
  - rewrite Setup_eq. destruct (fst _); cbn; auto.
  - pose proof (Hook_frame c i) as Hf. destruct (Hook c i) as [[err c1] calls].
    destruct Hf as (Ha & _ & Hg). auto.
  - pose proof (Run_frame c i opts) as Hf. destruct (Run c i opts) as [[res c1] calls].
    destruct Hf as (Ha & _ & _ & Hg). split; [exact Ha|]. rewrite Hg. auto.
Qed.

Lemma apply_op_inert (c : Core A H P) op :
  apps c = ∅ -> proxyStarted c = false ->
  let '(ans, c1) := apply_op c op in
  inert op ans /\ hook c1 = hook c /\ proxy c1 = proxy c /\ proxyStarted c1 = false.
Proof.
  intros Ha Hs. destruct op as [cmd opts|i|i opts]; cbn [apply_op].
  - rewrite Setup_eq. destruct (fst _); cbn; auto.
  - rewrite Hook_unregistered by (rewrite Ha; apply lookup_empty). cbn. auto.
  - unfold Run. destruct (ServeTest opts) eqn:Ht.
    + cbn. rewrite Ht. auto.
    + rewrite getApp_unregistered by (rewrite Ha; apply lookup_empty). cbn.
      rewrite Ht. auto.
Qed.

(** X22: no exported operation of a Core writes its registry.  Over any
    sequence of [Setup], [Hook] and [Run] calls on any Core the registry
    stays what it was, and a gate that is set stays set.  On a Core as
    [New] makes it the registry is therefore always empty: every [Hook]
    returns the generic error, every [Run] without [ServeTest] returns
    [ErrInternal] with "app with id:N not found" (with [ServeTest] the
    zero [AppError]), no collaborator is ever called ([Load],
    [StartProxy], [a.Run], [SendInode]), and the proxy is never
    started. *)
Theorem Core_registry_is_never_written :
  (forall (c : Core A H P) ops,
      let '(answers, c') := apply_ops c ops in
      apps c' = apps c /\ (proxyStarted c = true -> proxyStarted c' = true))
  /\ (forall (h : H) (p : P) ops,
        let '(answers, c') := apply_ops (New h p) ops in
        List.Forall2 inert ops answers
        /\ hook c' = h /\ proxy c' = p /\ proxyStarted c' = false).
Proof.
  split.
  - intros c ops. revert c. induction ops as [|op ops IH]; intros c; cbn [apply_ops].
    + auto.
    + pose proof (apply_op_frame c op) as Hf. destruct (apply_op c op) as [ans c1].
      specialize (IH c1). destruct (apply_ops c1 ops) as [answers c2].
      destruct Hf as [Ha Hg], IH as [Ha' Hg']. split; [congruence|auto].
  - intros h p ops.
    assert (Hgen : forall (c : Core A H P),
               apps c = ∅ -> proxyStarted c = false ->
               let '(answers, c') := apply_ops c ops in
               List.Forall2 inert ops answers
               /\ hook c' = hook c /\ proxy c' = proxy c /\ proxyStarted c' = false).
    { induction ops as [|op ops IH]; intros c Ha Hs; cbn [apply_ops].
      - split; [constructor|auto].
      - pose proof (apply_op_inert c op Ha Hs) as Hi.
        pose proof (apply_op_frame c op) as Hf.
        destruct (apply_op c op) as [ans c1].
        destruct Hi as (Hi & Hh & Hp & Hs1), Hf as [Ha1 _].
        specialize (IH c1). rewrite Ha1 in IH. specialize (IH Ha Hs1).
        destruct (apply_ops c1 ops) as [answers c2].
        destruct IH as (Hall & Hh2 & Hp2 & Hs2).
        split; [constructor; assumption|]. repeat split; congruence. }
    apply (Hgen (New h p)); reflexivity.
Qed.

Lemma apply_ops_cons (c : Core A H P) op ops :
  fst (apply_ops c (op :: ops))
  = fst (apply_op c op) :: fst (apply_ops (snd (apply_op c op)) ops).
Proof.
  cbn [apply_ops]. destruct (apply_op c op) as [ans c1].
  cbn [fst snd]. destruct (apply_ops c1 ops). reflexivity.
Qed.

Lemma apply_op_Setup (c : Core A H P) cmd opts :
  apply_op c (OpSetup cmd opts)
  = (match fst (App_Setup (NewApp (uint64 (ai_id (id c))) cmd)
                  {| DockerNetwork := DockerNetwork opts |}) with
     | Some e => AnsSetup 0 (Some e)
     | None => AnsSetup (uint64 (ai_id (id c))) None
     end,
     mkCore {| ai_id := ai_id (id c) + 1 |} (apps c) (hook c) (proxy c) (proxyStarted c)).
Proof.
  cbn [apply_op]. rewrite Setup_eq. destruct (fst _); reflexivity.
Qed.

Lemma Setup_seq_ids (l : list (string * SetupOptions)) :
  forall (c : Core A H P) (k : nat) cmd opts,
    0 <= ai_id (id c) ->
    ai_id (id c) + Z.of_nat (length l) <= 2 ^ 64 ->
    l !! k = Some (cmd, opts) ->
    fst (apply_ops c (map (fun x => OpSetup (fst x) (snd x)) l)) !! k
    = Some (match fst (App_Setup (NewApp (ai_id (id c) + Z.of_nat k) cmd)
                         {| DockerNetwork := DockerNetwork opts |}) with
            | Some e => AnsSetup 0 (Some e)
            | None => AnsSetup (ai_id (id c) + Z.of_nat k) None
            end).
Proof.
  induction l as [|[cmd0 opts0] l IH]; intros c k cmd opts Hn Hlen Hk; [discriminate|].
  cbn [map fst snd]. rewrite apply_ops_cons, apply_op_Setup. cbn [fst snd].
  cbn [length] in Hlen.
  assert (Hu : uint64 (ai_id (id c)) = ai_id (id c)).
  { unfold uint64. apply Z.mod_small. lia. }
  rewrite Hu.
  destruct k as [|k].
  - injection Hk as -> ->. rewrite Z.add_0_r. reflexivity.
  - cbn [lookup list_lookup].
    rewrite (IH _ k cmd opts); cbn [id ai_id]; [|lia|lia|exact Hk].
    replace (ai_id (id c) + Z.of_nat (S k)) with (ai_id (id c) + 1 + Z.of_nat k) by lia.
    reflexivity.
Qed.

(** X23: identifiers go by position.  In a sequence of at most 2^64
    [Setup] calls on a new Core, the call at position k (from 0) builds
    its application with identifier k; it returns (k, nil) when the
    set-up of the application succeeds and (0, err) when it fails.  A
    call that fails has used up its identifier: the calls after it are
    numbered as if it had succeeded.  (The generator [utils.AutoInc] is
    the described one, counting from 0.) *)
Theorem Setup_ids_by_position (h : H) (p : P) (l : list (string * SetupOptions))
    (k : nat) cmd opts :
  Z.of_nat (length l) <= 2 ^ 64 ->
  l !! k = Some (cmd, opts) ->
  fst (apply_ops (New h p) (map (fun x => OpSetup (fst x) (snd x)) l)) !! k
  = Some (match fst (App_Setup (NewApp (Z.of_nat k) cmd)
                       {| DockerNetwork := DockerNetwork opts |}) with
          | Some e => AnsSetup 0 (Some e)
          | None => AnsSetup (Z.of_nat k) None
          end).
Proof.
  intros Hlen Hk.
  apply (Setup_seq_ids l (New h p) k cmd opts); cbn; [lia|lia|exact Hk].
Qed.

(** X24: what one call of [Hook] can do, whatever the collaborators
    answer.  It returns nil or the one generic error, never the error of
    [getApp], [Load] or [StartProxy]; when it returns nil the proxy has
    started, and when it returns the error the gate is as it was.  It
    leaves the registry and the identifier generator alone.  [Load] is
    called only for the identifier given, with [AppID] that identifier,
    [Pid] 0, the address of the registered application and [IsDocker]
    set exactly for the kinds Docker and DockerCompose; [StartProxy] is
    called only through an open gate, after a [Load] that returned nil,
    and with the same address as that [Load]. *)
Theorem Hook_outcome (c : Core A H P) (i : Z) :
  let '((err, c1), calls) := Hook c i in
  apps c1 = apps c /\ id c1 = id c
  /\ (err = None \/ err = Some hookErr)
  /\ (err = None -> proxyStarted c1 = true)
  /\ (err <> None -> proxyStarted c1 = proxyStarted c)
  /\ (forall j cfg r, In (CallLoad j cfg r) calls ->
        j = i /\ AppID cfg = i /\ Pid cfg = 0
        /\ exists a, getApp c i = inl a
                     /\ KeployIPV4 cfg = KeployIPv4Addr a
                     /\ IsDocker cfg = match Kind a with Native => false | _ => true end)
  /\ (forall opts r, In (CallStartProxy opts r) calls ->
        proxyStarted c = false
        /\ exists cfg, In (CallLoad i cfg None) calls
                       /\ DnsIPv4Addr opts = KeployIPV4 cfg).
Proof.
  unfold Hook. destruct (getApp c i) as [a|e].
  2:{ refine (conj _ (conj _ (conj _ (conj _ (conj _ (conj _ _)))))); auto;
        try solve [intros Hn; discriminate Hn | intros ? ? ? [] | intros ? ? []]. }
  assert (Hload : forall j cfg r res tail,
             In (CallLoad j cfg r)
               (CallLoad i {| AppID := i; Pid := 0;
                              IsDocker := match Kind a with
                                          | Docker | DockerCompose => true
                                          | Native => false
                                          end;
                              KeployIPV4 := KeployIPv4Addr a |} res :: tail) ->
             forallb is_start tail = true ->
             j = i /\ AppID cfg = i /\ Pid cfg = 0
             /\ exists a0, inl a = inl a0 (B := error)
                          /\ KeployIPV4 cfg = KeployIPv4Addr a0
                          /\ IsDocker cfg = match Kind a0 with Native => false | _ => true end).
  { intros j cfg r res tail [Hin|Hin] Hst.
    - injection Hin as <- <- <-. cbn. do 3 (split; [reflexivity|]).
      exists a. auto.
    - rewrite forallb_forall in Hst. specialize (Hst _ Hin). discriminate. }
  assert (Hstart : forall opts r res r2,
             In (CallStartProxy opts r)
               [CallLoad i {| AppID := i; Pid := 0;
                              IsDocker := match Kind a with
                                          | Docker | DockerCompose => true
                                          | Native => false
                                          end;
                              KeployIPV4 := KeployIPv4Addr a |} res;
                CallStartProxy {| DnsIPv4Addr := KeployIPv4Addr a |} r2] ->
             res = None ->
             false = false
             /\ exists cfg,
                 In (CallLoad i cfg None)
                   [CallLoad i {| AppID := i; Pid := 0;
                                  IsDocker := match Kind a with
                                              | Docker | DockerCompose => true
                                              | Native => false
                                              end;
                                  KeployIPV4 := KeployIPv4Addr a |} res;
                    CallStartProxy {| DnsIPv4Addr := KeployIPv4Addr a |} r2]
                 /\ DnsIPv4Addr opts = KeployIPV4 cfg).
  { intros opts r res r2 [Hin|[Hin|[]]] ->; [discriminate|]. injection Hin as <- <-.
    split; [reflexivity|]. eexists. split; [left; reflexivity|reflexivity]. }
  destruct (Load _ _ _) as [[e|] h1]; cbn -[In].
  { refine (conj _ (conj _ (conj _ (conj _ (conj _ (conj _ _)))))); auto;
      try solve [intros Hn; discriminate Hn
                | intros j cfg r Hin; apply (Hload j cfg r _ _ Hin); reflexivity
                | intros opts r [Hin|[]]; discriminate Hin]. }
  destruct (proxyStarted c) eqn:Hs; cbn -[In].
  { refine (conj _ (conj _ (conj _ (conj _ (conj _ (conj _ _)))))); auto;
      try solve [intros Hn; congruence
                | intros j cfg r Hin; apply (Hload j cfg r _ _ Hin); reflexivity
                | intros opts r [Hin|[]]; discriminate Hin]. }
  destruct (StartProxy _ _) as [[e|] p1]; cbn -[In].
  - refine (conj _ (conj _ (conj _ (conj _ (conj _ (conj _ _)))))); auto;
      try solve [intros Hn; discriminate Hn
                | intros j cfg r Hin; apply (Hload j cfg r _ _ Hin); reflexivity
                | intros opts r Hin; apply (Hstart opts r _ _ Hin); reflexivity].
  - refine (conj _ (conj _ (conj _ (conj _ (conj _ (conj _ _)))))); auto;
      try solve [intros Hn; congruence
                | intros j cfg r Hin; apply (Hload j cfg r _ _ Hin); reflexivity
                | intros opts r Hin; apply (Hstart opts r _ _ Hin); reflexivity].
Qed.




End CoreMore.

Lemma Setup_ids_by_position_witness :
  fst (Core.apply_ops (Core.New (A := Core.FussyApp) (H := list Z) [] [])
         (map (fun x => Core.OpSetup (fst x) (snd x))
            [("app"%string, {| Core.DockerNetwork := "" |});
             (""%string, {| Core.DockerNetwork := "" |});
             ("app2"%string, {| Core.DockerNetwork := "net" |})])) !! 2%nat
  = Some (match fst (Core.App_Setup (Core.NewApp (A := Core.FussyApp) (Z.of_nat 2) "app2")
                       {| Core.DockerNetwork := "net" |}) with
          | Some e => Core.AnsSetup 0 (Some e)
          | None => Core.AnsSetup (Z.of_nat 2) None
          end).
Proof.
  apply (Setup_ids_by_position (A := Core.FussyApp) (H := list Z) [] []
           [("app"%string, {| Core.DockerNetwork := "" |});
            (""%string, {| Core.DockerNetwork := "" |});
            ("app2"%string, {| Core.DockerNetwork := "net" |})]
           2 "app2" {| Core.DockerNetwork := "net" |}).
  - cbn. lia.
  - reflexivity.
Defined.


(** ** ReadBytes and ReadRequiredBytes *)

Section ReadProperties.
Import Util.
Context {R : Type} `{Reader R}.

Lemma loop_iter_n {St A} (body : St -> step St A) k fuel s s' :
  iter_n body k s = Some s' -> loop body (k + fuel) s = loop body fuel s'.
Proof.
  revert s. induction k as [|k IH]; intros s Hk; simpl in *.
  - injection Hk as ->. reflexivity.
  - destruct (body s) as [s1|a]; [apply IH, Hk|discriminate].
Qed.

Lemma loop_invariant {St A} (body : St -> step St A) (I : St -> Prop) (Q : A -> Prop) :
  (forall s s', I s -> body s = Continue s' -> I s') ->
  (forall s a, I s -> body s = Return a -> Q a) ->
  forall fuel s a, I s -> loop body fuel s = Some a -> Q a.
Proof.
  intros Hc Hr. induction fuel as [|fuel IH]; intros s a Hi Hl; simpl in Hl; [discriminate|].
  destruct (body s) as [s1|a1] eqn:Hs.
  - apply (IH s1); [apply (Hc s), Hs; exact Hi|exact Hl].
  - injection Hl as <-. apply (Hr s); assumption.
Qed.

Lemma Done_open (w : World) k :
  open_for (S k) (ctx w) = true ->
  Done w = (false, mkWorld (spend 1 (ctx w)) (trace w ++ [EvDone false]))
  /\ open_for k (spend 1 (ctx w)) = true.
Proof.
  unfold Done, open_for, spend, emit. destruct w as [[[|n]|] tr]; simpl.
  - discriminate.
  - intros Hle. rewrite Nat.sub_0_r. split; [reflexivity|].
    destruct k; [reflexivity|]. apply Nat.leb_le. apply Nat.leb_le in Hle. lia.
  - intros _. split; reflexivity.
Qed.

Lemma Done_not_done (w : World) :
  is_done w = false ->
  Done w = (false, mkWorld (spend 1 (ctx w)) (trace w ++ [EvDone false])).
Proof.
  unfold Done, is_done, spend, emit. destruct w as [[[|n]|] tr]; simpl; intros Hd.
  - discriminate.
  - rewrite Nat.sub_0_r. reflexivity.
  - reflexivity.
Qed.

Lemma Done_done (w : World) :
  is_done w = true -> Done w = (true, emit (EvDone true) w).
Proof.
  unfold Done, is_done. destruct w as [[[|n]|] tr]; simpl; intros Hd;
    try discriminate; reflexivity.
Qed.

Lemma spend_spend a b c : spend a (spend b c) = spend (b + a) c.
Proof. destruct c as [n|]; simpl; [f_equal; lia|reflexivity]. Qed.

(** A streak of [k] empty reads at end of stream that stays below the
    ceiling: the loop takes [k] iterations, sleeps after each, and goes
    on with the counter raised by [k] and the buffer unchanged. *)
Lemma ReadBytes_streak k : forall (w : World) (r r' : R) b e,
  eof_streak k r = Some r' ->
  open_for k (ctx w) = true ->
  0 <= e -> e + Z.of_nat k < maxEmptyReads ->
  iter_n ReadBytes_iter k (mkReadState w r b e)
  = Some (mkReadState (mkWorld (spend k (ctx w)) (trace w ++ retries k)) r' b (e + Z.of_nat k)).
Proof.
  induction k as [|k IH]; intros w r r' b e Hs Ho He Hlt.
  - simpl in *. injection Hs as ->. destruct w as [c tr]; simpl.
    rewrite app_nil_r, Z.add_0_r. repeat f_equal.
    destruct c; simpl; [f_equal; lia|reflexivity].
  - cbn [eof_streak] in Hs. cbn [iter_n]. unfold ReadBytes_iter. cbn [rs_world rs_reader rs_buffer rs_emptyReads].
    destruct (Done_open w k Ho) as [-> Ho'].
    destruct (Read r 1024) as [[data err] r1].
    destruct (length data =? 0)%nat eqn:Hlen; [|discriminate].
    destruct (bool_decide (err = Some EOF)) eqn:Herr; [|discriminate].
    apply bool_decide_eq_true in Herr. subst err. simpl in Hs.
    apply Nat.eqb_eq in Hlen. rewrite Hlen. simpl.
    unfold maxEmptyReads in *.
    destruct (5 <=? e + 1) eqn:Hc; [apply Z.leb_le in Hc; lia|].
    rewrite (IH _ r1 r' b (e + 1) Hs); simpl; try assumption; try lia.
    unfold emit; simpl. rewrite spend_spend.
    rewrite <- !app_assoc. simpl.
    replace (e + Z.of_nat (S k)) with (e + 1 + Z.of_nat k) by lia.
    reflexivity.
Qed.

(** The attempt that reaches the ceiling returns the buffer with the
    end-of-stream error. *)
Lemma ReadBytes_ceiling (w : World) (r r' : R) b e :
  eof_streak 1 r = Some r' ->
  is_done w = false ->
  e + 1 = maxEmptyReads ->
  ReadBytes_iter (mkReadState w r b e)
  = Return ((b, Some EOF),
            mkWorld (spend 1 (ctx w)) (trace w ++ [EvDone false; EvRead 1024]), r').
Proof.
  intros Hs Hd He. cbn [eof_streak] in Hs. unfold ReadBytes_iter.
  cbn [rs_world rs_reader rs_buffer rs_emptyReads].
  rewrite (Done_not_done w Hd).
  destruct (Read r 1024) as [[data err] r1].
  destruct (length data =? 0)%nat eqn:Hlen; [|discriminate].
  destruct (bool_decide (err = Some EOF)) eqn:Herr; [|discriminate].
  apply bool_decide_eq_true in Herr. subst err. simpl in Hs. injection Hs as ->.
  apply Nat.eqb_eq in Hlen. rewrite Hlen. simpl.
  rewrite He. simpl. unfold emit; simpl. rewrite <- app_assoc. reflexivity.
Qed.

Lemma eof_streak_split a b (r r' : R) :
  eof_streak (a + b) r = Some r' ->
  exists r1, eof_streak a r = Some r1 /\ eof_streak b r1 = Some r'.
Proof.
  revert r. induction a as [|a IH]; intros r Hs.
  - exists r. split; [reflexivity|exact Hs].
  - cbn [Nat.add eof_streak] in *.
    destruct (Read r 1024) as [[data err] r1].
    destruct ((length data =? 0)%nat && bool_decide (err = Some EOF)); [|discriminate].
    apply IH, Hs.
Qed.

Lemma open_for_le a b c : (a <= b)%nat -> open_for b c = true -> open_for a c = true.
Proof.
  destruct c as [n|]; simpl; [|reflexivity].
  intros Hab Hb. apply Nat.leb_le. apply Nat.leb_le in Hb. lia.
Qed.

Lemma open_for_spend a b c :
  open_for (a + b) c = true -> open_for b (spend a c) = true.
Proof.
  destruct c as [n|]; simpl; [|reflexivity].
  intros Hb. apply Nat.leb_le. apply Nat.leb_le in Hb. lia.
Qed.

(** A read of fewer bytes than the window, without error, ends the call
    at once. *)
Lemma ReadBytes_iter_short (w : World) (r r' : R) data b e :
  is_done w = false ->
  Read r 1024 = ((data, None), r') ->
  (0 < length data < 1024)%nat ->
  ReadBytes_iter (mkReadState w r b e)
  = Return ((b ++ data, None),
            mkWorld (spend 1 (ctx w)) (trace w ++ [EvDone false; EvRead 1024]), r').
Proof.
  intros Hd Hr [Hpos Hlt]. unfold ReadBytes_iter.
  cbn [rs_world rs_reader rs_buffer rs_emptyReads].
  rewrite (Done_not_done w Hd), Hr.
  destruct (0 <? length data)%nat eqn:H0; [|apply Nat.ltb_ge in H0; lia].
  destruct (length data <? 1024)%nat eqn:H1; [|apply Nat.ltb_ge in H1; lia].
  unfold emit; simpl. rewrite <- app_assoc. reflexivity.
Qed.

Lemma retries_add a b : retries (a + b) = retries a ++ retries b.
Proof.
  induction a as [|a IH]; [reflexivity|].
  cbn [Nat.add retries]. rewrite IH. reflexivity.
Qed.

Lemma retries_snoc k :
  retries (S k) = retries k ++ [EvDone false; EvRead 1024; EvSleep 100].
Proof. rewrite <- Nat.add_1_r, retries_add. reflexivity. Qed.

Lemma Done_false (w w1 : World) :
  Done w = (false, w1) -> trace w1 = trace w ++ [EvDone false].
Proof.
  unfold Done. destruct (ctx w) as [[|n]|]; intros [= <-]; reflexivity.
Qed.

(** A reader whose reads all return no byte and end of stream. *)
Lemma always_eof_streak (k : nat) :
  (forall r0 : R, fst (Read r0 1024) = ([], Some EOF)) ->
  forall r : R, exists r', eof_streak k r = Some r'.
Proof.
  intros Ha. induction k as [|k IH]; intros r; [exists r; reflexivity|].
  cbn [eof_streak]. specialize (Ha r).
  destruct (Read r 1024) as [[data err] r1]. simpl in Ha. injection Ha as -> ->.
  simpl. apply IH.
Qed.

(** The end-of-stream error is returned only by the attempt that follows
    four attempts that were retried. *)
Lemma ReadBytes_eof_after_retries fuel (w : World) (r : R) buf w' r' :
  ReadBytes fuel w r = Some ((buf, Some EOF), w', r') ->
  exists pre, trace w' = pre ++ retries 4 ++ [EvDone false; EvRead 1024].
Proof.
  intros Hr. unfold ReadBytes in Hr.
  refine (loop_invariant ReadBytes_iter
            (fun s => 0 <= rs_emptyReads s <= 4
                      /\ exists pre, trace (rs_world s)
                                     = pre ++ retries (Z.to_nat (rs_emptyReads s)))
            (fun a => match a with
                      | ((_, Some EOF), w0, _) =>
                          exists pre, trace w0 = pre ++ retries 4 ++ [EvDone false; EvRead 1024]
                      | _ => True
                      end) _ _ fuel _ _ _ Hr).
  - intros s s' [He [pre Hpre]]. unfold ReadBytes_iter.
    destruct (Done (rs_world s)) as [[|] w1] eqn:Hd; [discriminate|].
    apply Done_false in Hd.
    destruct (Read (rs_reader s) 1024) as [[data err] r1].
    destruct err as [e0|].
    + destruct (is_EOF e0); [|discriminate].
      destruct (maxEmptyReads <=? _) eqn:Hc; [discriminate|].
      apply Z.leb_gt in Hc. unfold maxEmptyReads in Hc.
      intros [= <-]. cbn [rs_world rs_emptyReads]. unfold emit; simpl. rewrite Hd.
      destruct (0 <? length data)%nat.
      * split; [lia|]. exists (trace (rs_world s)). simpl. rewrite <- !app_assoc. reflexivity.
      * split; [lia|]. exists pre.
        replace (Z.to_nat (rs_emptyReads s + 1)) with (S (Z.to_nat (rs_emptyReads s))) by lia.
        rewrite retries_snoc, Hpre, <- !app_assoc. reflexivity.
    + destruct (length data <? 1024)%nat eqn:Hn; [discriminate|].
      apply Nat.ltb_ge in Hn.
      intros [= <-]. cbn [rs_world rs_emptyReads].
      destruct (0 <? length data)%nat eqn:H0; [|apply Nat.ltb_ge in H0; lia].
      split; [lia|]. eexists. simpl. rewrite app_nil_r. reflexivity.
  - intros s [[[b [e0|]] w0] r0] [He [pre Hpre]]; [|intros _; exact I].
    destruct e0; try (intros _; exact I).
    unfold ReadBytes_iter.
    destruct (Done (rs_world s)) as [[|] w1] eqn:Hd; [discriminate|].
    apply Done_false in Hd.
    destruct (Read (rs_reader s) 1024) as [[data err] r1].
    destruct err as [e0|].
    + destruct (is_EOF e0) eqn:Heof.
      * destruct (maxEmptyReads <=? _) eqn:Hc; [|discriminate].
        apply Z.leb_le in Hc. unfold maxEmptyReads in Hc.
        intros [= <- _ <- <-].
        destruct (0 <? length data)%nat; [lia|].
        assert (rs_emptyReads s = 4) as He4 by lia.
        rewrite He4 in Hpre. exists pre. unfold emit; simpl.
        rewrite Hd, Hpre. change (Z.to_nat 4) with 4%nat. rewrite <- !app_assoc. reflexivity.
      * intros [= <- -> <- <-]. discriminate.
    + destruct (length data <? 1024)%nat; discriminate.
  - cbn [rs_emptyReads rs_world]. split; [lia|]. exists (trace w). simpl.
    rewrite app_nil_r. reflexivity.
Qed.

(** C3: for a reader whose reads always return no byte and the
    end-of-stream error, [ReadBytes] (with a context that stays open) has
    not returned after four attempts and returns at the fifth, with the
    accumulated bytes (none) and the end-of-stream error; it has slept
    100ms after each of the first four attempts and not after the fifth
    (it is enough that the next five reads are such).  A streak of
    [k < 5] such reads is retried: the call is still in its loop after
    it, with the counter at [k], and when the next read brings a short
    chunk without error the call returns that chunk with a nil error.
    Whenever [ReadBytes] returns the end-of-stream error, the attempt that
    returns it comes right after four attempts that were retried. *)
Theorem ReadBytes_eof_ceiling (w : World) (r : R) :
  ((forall r0 : R, fst (Read r0 1024) = ([], Some EOF)) ->
   open_for 5 (ctx w) = true ->
   ReadBytes 4 w r = None
   /\ exists r5, forall fuel,
        ReadBytes (5 + fuel) w r
        = Some (([], Some EOF),
                mkWorld (spend 5 (ctx w))
                        (trace w ++ retries 4 ++ [EvDone false; EvRead 1024]),
                r5))
  /\ (forall r5,
        eof_streak 5 r = Some r5 -> open_for 5 (ctx w) = true ->
        ReadBytes 4 w r = None
        /\ forall fuel,
            ReadBytes (5 + fuel) w r
            = Some (([], Some EOF),
                    mkWorld (spend 5 (ctx w))
                            (trace w ++ retries 4 ++ [EvDone false; EvRead 1024]),
                    r5))
  /\ (forall k rk,
        (k < 5)%nat -> eof_streak k r = Some rk -> open_for k (ctx w) = true ->
        forall fuel,
          ReadBytes (k + fuel) w r
          = loop ReadBytes_iter fuel
              (mkReadState (mkWorld (spend k (ctx w)) (trace w ++ retries k)) rk []
                           (Z.of_nat k)))
  /\ (forall k rk data r',
        (k < 5)%nat -> eof_streak k r = Some rk -> open_for (S k) (ctx w) = true ->
        Read rk 1024 = ((data, None), r') -> (0 < length data < 1024)%nat ->
        forall fuel,
          ReadBytes (k + S fuel) w r
          = Some ((data, None),
                  mkWorld (spend (S k) (ctx w))
                          (trace w ++ retries k ++ [EvDone false; EvRead 1024]),
                  r'))
  /\ (forall fuel buf w' r',
        ReadBytes fuel w r = Some ((buf, Some EOF), w', r') ->
        exists pre, trace w' = pre ++ retries 4 ++ [EvDone false; EvRead 1024]).
Proof.
  assert (Hstreak : forall k rk,
             (k < 5)%nat -> eof_streak k r = Some rk -> open_for k (ctx w) = true ->
             iter_n ReadBytes_iter k (mkReadState w r [] 0)
             = Some (mkReadState (mkWorld (spend k (ctx w)) (trace w ++ retries k)) rk []
                                 (Z.of_nat k))).
  { intros k rk Hk Hs Ho.
    rewrite (ReadBytes_streak k w r rk [] 0 Hs Ho); [reflexivity|lia|unfold maxEmptyReads; lia]. }
  assert (Hfive : forall r5,
             eof_streak 5 r = Some r5 -> open_for 5 (ctx w) = true ->
             ReadBytes 4 w r = None
             /\ forall fuel,
                 ReadBytes (5 + fuel) w r
                 = Some (([], Some EOF),
                         mkWorld (spend 5 (ctx w))
                                 (trace w ++ retries 4 ++ [EvDone false; EvRead 1024]),
                         r5)).
  { intros r5 Hs Ho.
    destruct (eof_streak_split 4 1 r r5 Hs) as (r4 & Hs4 & Hs1).
    pose proof (Hstreak 4%nat r4 ltac:(lia) Hs4 (open_for_le 4 5 _ ltac:(lia) Ho)) as Hit.
    split.
    + unfold ReadBytes. rewrite <- (Nat.add_0_r 4).
      rewrite (loop_iter_n _ 4 0 _ _ Hit). reflexivity.
    + intros fuel. unfold ReadBytes.
      change (5 + fuel)%nat with (4 + S fuel)%nat.
      rewrite (loop_iter_n _ 4 (S fuel) _ _ Hit). cbn [loop].
      rewrite (ReadBytes_ceiling _ r4 r5 [] 4 Hs1); cbn [ctx trace].
      * rewrite spend_spend, <- app_assoc. reflexivity.
      * unfold is_done; cbn [ctx].
        apply (open_for_spend 4 1) in Ho.
        destruct (spend 4 (ctx w)) as [[|n]|]; [discriminate|reflexivity..].
      * reflexivity. }
  split; [|split; [exact Hfive|split; [|split]]].
  - intros Ha Ho. destruct (always_eof_streak 5 Ha r) as [r5 Hs].
    destruct (Hfive r5 Hs Ho) as [H4 H5]. split; [exact H4|]. exists r5. exact H5.
  - intros k rk Hk Hs Ho fuel. unfold ReadBytes.
    apply loop_iter_n, Hstreak; assumption.
  - intros k rk data r' Hk Hs Ho Hr Hlen fuel. unfold ReadBytes.
    rewrite (loop_iter_n _ k (S fuel) _ _
               (Hstreak k rk Hk Hs (open_for_le k (S k) _ ltac:(lia) Ho))).
    cbn [loop].
    rewrite (ReadBytes_iter_short _ rk r' data [] _); cbn [ctx trace]; try assumption.
    + rewrite spend_spend, <- app_assoc, Nat.add_1_r. reflexivity.
    + unfold is_done; cbn [ctx].
      replace (S k) with (k + 1)%nat in Ho by lia.
      apply (open_for_spend k 1) in Ho.
      destruct (spend k (ctx w)) as [[|n]|]; [discriminate|reflexivity..].
  - intros fuel buf w' r'. apply ReadBytes_eof_after_retries.
Qed.

(** C4: when the first read returns [n] bytes with [0 < n < 1024] and no
    error (the context being open at the first check), [ReadBytes]
    returns exactly those bytes with a nil error; it has made one poll
    and one read, and has not slept. *)
Theorem ReadBytes_short_read (w : World) (r r' : R) data fuel :
  is_done w = false ->
  Read r 1024 = ((data, None), r') ->
  (0 < length data < 1024)%nat ->
  ReadBytes (S fuel) w r
  = Some ((data, None),
          mkWorld (spend 1 (ctx w)) (trace w ++ [EvDone false; EvRead 1024]), r').
Proof.
  intros Hd Hr Hlen. unfold ReadBytes. cbn [loop].
  rewrite (ReadBytes_iter_short w r r' data [] 0 Hd Hr Hlen). reflexivity.
Qed.

End ReadProperties.

Lemma ReadBytes_eof_ceiling_witness :
  Util.ReadBytes 4 (Util.mkWorld None []) Util.Ended = None
  /\ exists r5, forall fuel,
      Util.ReadBytes (5 + fuel) (Util.mkWorld None []) Util.Ended
      = Some (([], Some EOF),
              Util.mkWorld None
                ([] ++ Util.retries 4 ++ [Util.EvDone false; Util.EvRead 1024]),
              r5).
Proof.
  apply (proj1 (ReadBytes_eof_ceiling (Util.mkWorld None []) Util.Ended)).
  - intros r0. reflexivity.
  - reflexivity.
Defined.

Lemma ReadBytes_short_read_witness :
  Util.ReadBytes 1 (Util.mkWorld None []) ([(["h"; "e"; "l"; "l"; "o"]%byte, None)] : Util.script)
  = Some ((["h"; "e"; "l"; "l"; "o"]%byte, None),
          Util.mkWorld None [Util.EvDone false; Util.EvRead 1024], ([] : Util.script)).
Proof.
  apply (ReadBytes_short_read (Util.mkWorld None [])
           ([(["h"; "e"; "l"; "l"; "o"]%byte, None)] : Util.script) []).
  - reflexivity.
  - reflexivity.
  - simpl. lia.
Defined.

(** ** Cancellation in the read primitives *)

Section ReadCancellation.
Import Util.
Context {R : Type} `{Reader R}.

Lemma ReadBytes_iter_done (s : ReadState R) :
  is_done (rs_world s) = true ->
  ReadBytes_iter s = Return ((rs_buffer s, None), emit (EvDone true) (rs_world s), rs_reader s).
Proof. intros Hd. unfold ReadBytes_iter. rewrite (Done_done _ Hd). reflexivity. Qed.

Lemma ReadRequiredBytes_iter_done (s : RequiredState R) :
  is_done (rq_world s) = true ->
  ReadRequiredBytes_iter s
  = Return (Ret (rq_buffer s, None), emit (EvDone true) (rq_world s), rq_reader s).
Proof. intros Hd. unfold ReadRequiredBytes_iter. rewrite (Done_done _ Hd). reflexivity. Qed.

(** An iteration that returns an error returns the error of its read,
    right after that read. *)
Lemma ReadBytes_iter_error (s : ReadState R) buf e w' r' :
  ReadBytes_iter s = Return ((buf, Some e), w', r') ->
  last (trace w') = Some (EvRead 1024)
  /\ exists data, Read (rs_reader s) 1024 = ((data, Some e), r').
Proof.
  unfold ReadBytes_iter.
  destruct (Done (rs_world s)) as [[|] w1]; [discriminate|].
  destruct (Read (rs_reader s) 1024) as [[data err] r1].
  destruct err as [e1|].
  - destruct (is_EOF e1).
    + destruct (maxEmptyReads <=? _); [|discriminate].
      intros [= <- <- <- <-]. split; [apply last_snoc|eauto].
    + intros [= <- <- <- <-]. split; [apply last_snoc|eauto].
  - destruct (length data <? 1024)%nat; discriminate.
Qed.

Lemma ReadRequiredBytes_iter_error (s : RequiredState R) buf e w' r' :
  ReadRequiredBytes_iter s = Return (Ret (buf, Some e), w', r') ->
  (exists size, last (trace w') = Some (EvRead size))
  /\ exists size data, Read (rq_reader s) size = ((data, Some e), r').
Proof.
  unfold ReadRequiredBytes_iter.
  destruct (Done (rq_world s)) as [[|] w1]; [discriminate|].
  destruct (rq_numBytes s <? 0); [discriminate|].
  destruct (Read (rq_reader s) _) as [[data err] r1] eqn:Hr.
  destruct (_ =? rq_numBytes s); [discriminate|].
  destruct err as [e1|]; [|discriminate].
  destruct (is_EOF e1).
  - destruct (maxEmptyReads <=? _); [|discriminate].
    intros [= <- <- <- <-]. split; [eexists; apply last_snoc|eauto].
  - intros [= <- <- <- <-]. split; [eexists; apply last_snoc|eauto].
Qed.

Lemma loop_returns {St A} (body : St -> step St A) (Q : A -> Prop) :
  (forall s a, body s = Return a -> Q a) ->
  forall fuel s a, loop body fuel s = Some a -> Q a.
Proof.
  intros Hb. induction fuel as [|fuel IH]; intros s a Hl; simpl in Hl; [discriminate|].
  destruct (body s) as [s1|a1] eqn:Hs.
  - apply (IH s1), Hl.
  - injection Hl as <-. apply (Hb s), Hs.
Qed.

(** C8: when the cancellation check at the head of an iteration of
    [ReadBytes] or [ReadRequiredBytes] finds the context done (after any
    number [k] of iterations that went on), the call returns the bytes
    accumulated in those iterations with a nil error.  An error returned
    by either call is the error of a read of the reader, returned right
    after that read: a call that returns at the cancellation check never
    returns an error. *)
Theorem cancellation_is_not_an_error :
  (forall k (w : World) (r : R) s fuel,
      iter_n ReadBytes_iter k (mkReadState w r [] 0) = Some s ->
      is_done (rs_world s) = true ->
      ReadBytes (k + S fuel) w r
      = Some ((rs_buffer s, None), emit (EvDone true) (rs_world s), rs_reader s))
  /\ (forall k (w : World) (r : R) n s fuel,
        iter_n ReadRequiredBytes_iter k (mkRequiredState w r [] n 0) = Some s ->
        is_done (rq_world s) = true ->
        ReadRequiredBytes (k + S fuel) w r n
        = Some (Ret (rq_buffer s, None), emit (EvDone true) (rq_world s), rq_reader s))
  /\ (forall fuel (w : World) (r : R) buf e w' r',
        ReadBytes fuel w r = Some ((buf, Some e), w', r') ->
        last (trace w') = Some (EvRead 1024)
        /\ exists r0 data, Read r0 1024 = ((data, Some e), r'))
  /\ (forall fuel (w : World) (r : R) n buf e w' r',
        ReadRequiredBytes fuel w r n = Some (Ret (buf, Some e), w', r') ->
        (exists size, last (trace w') = Some (EvRead size))
        /\ exists r0 size data, Read r0 size = ((data, Some e), r')).
Proof.
  split; [|split; [|split]].
  - intros k w r s fuel Hit Hd. unfold ReadBytes.
    rewrite (loop_iter_n _ k (S fuel) _ _ Hit). cbn [loop].
    rewrite (ReadBytes_iter_done s Hd). reflexivity.
  - intros k w r n s fuel Hit Hd. unfold ReadRequiredBytes.
    rewrite (loop_iter_n _ k (S fuel) _ _ Hit). cbn [loop].
    rewrite (ReadRequiredBytes_iter_done s Hd). reflexivity.
  - intros fuel w r buf e w' r' Hr. unfold ReadBytes in Hr.
    refine (loop_returns ReadBytes_iter
              (fun a => match a with
                        | ((_, Some e0), w0, r1) =>
                            last (trace w0) = Some (EvRead 1024)
                            /\ exists r0 data, Read r0 1024 = ((data, Some e0), r1)
                        | _ => True
                        end) _ fuel _ _ Hr).
    intros s [[[b [e0|]] w0] r1] Hs; [|exact I].
    destruct (ReadBytes_iter_error s b e0 w0 r1 Hs) as [Hl [data Hd]]. eauto.
  - intros fuel w r n buf e w' r' Hr. unfold ReadRequiredBytes in Hr.
    refine (loop_returns ReadRequiredBytes_iter
              (fun a => match a with
                        | (Ret (_, Some e0), w0, r1) =>
                            (exists size, last (trace w0) = Some (EvRead size))
                            /\ exists r0 size data, Read r0 size = ((data, Some e0), r1)
                        | _ => True
                        end) _ fuel _ _ Hr).
    intros s [[[[b [e0|]]|] w0] r1] Hs; try exact I.
    destruct (ReadRequiredBytes_iter_error s b e0 w0 r1 Hs) as [Hl (size & data & Hd)]. eauto 6.
Qed.

End ReadCancellation.

Lemma cancellation_is_not_an_error_witness :
  let window := repeat "000"%byte 1024 in
  let r : Util.script := [(window, None); (window, None)] in
  Util.ReadBytes 2 (Util.mkWorld (Some 1%nat) []) r
  = Some ((window, None),
          Util.mkWorld (Some 0%nat)
            [Util.EvDone false; Util.EvRead 1024; Util.EvDone true],
          [(window, None)]).
Proof.
  intros window r.
  apply (proj1 cancellation_is_not_an_error 1%nat (Util.mkWorld (Some 1%nat) []) r
           (Util.mkReadState
              (Util.mkWorld (Some 0%nat) [Util.EvDone false; Util.EvRead 1024])
              [(window, None)] window 0) 0%nat).
  - vm_compute. reflexivity.
  - reflexivity.
Defined.

(** ** ReadBuffConn *)

Section ReadBuffConnProperties.
Import Util.
Context {R : Type} `{Reader R}.

Lemma loop_mono {St A} (body : St -> step St A) f f' s a :
  loop body f s = Some a -> (f <= f')%nat -> loop body f' s = Some a.
Proof.
  revert f' s. induction f as [|f IH]; intros f' s Hl Hle; simpl in Hl; [discriminate|].
  destruct f' as [|f']; [lia|]. simpl.
  destruct (body s) as [s1|a1]; [|exact Hl].
  apply IH; [exact Hl|lia].
Qed.

Lemma ReadBuffConn_iter_mono f f' (w : World) (conn : R) x :
  ReadBuffConn_iter f w conn = Some x -> (f <= f')%nat ->
  ReadBuffConn_iter f' w conn = Some x.
Proof.
  unfold ReadBuffConn_iter. destruct (Done w) as [[|] w0]; [auto|].
  destruct (ReadBytes f w0 conn) as [res|] eqn:Hr; [|discriminate].
  intros Hx Hle. unfold ReadBytes in *. rewrite (loop_mono _ f f' _ _ Hr Hle). exact Hx.
Qed.

Lemma ReadBuffConn_mono f : forall f' (w : World) (conn : R) x,
  ReadBuffConn f w conn = Some x -> (f <= f')%nat -> ReadBuffConn f' w conn = Some x.
Proof.
  induction f as [|f IH]; intros f' w conn x Hl Hle; simpl in Hl; [discriminate|].
  destruct f' as [|f']; [lia|]. simpl.
  destruct (ReadBuffConn_iter f w conn) as [[[pub w1] c1]|] eqn:Hi; [|discriminate].
  rewrite (ReadBuffConn_iter_mono f f' w conn _ Hi ltac:(lia)).
  destruct pub; [exact Hl|exact Hl|]. apply IH; [exact Hl|lia].
Qed.

Lemma filter_emit (f : Event -> bool) e (w : World) :
  List.filter f (trace (emit e w)) = List.filter f (trace w) ++ (if f e then [e] else []).
Proof. unfold emit; simpl. rewrite List.filter_app. reflexivity. Qed.

Lemma sends_emit e (w : World) :
  sends (trace (emit e w)) = sends (trace w) ++ (if is_send e then [e] else []).
Proof. apply filter_emit. Qed.

(** A filter on events that lets no poll, read or sleep through sees
    nothing of what [ReadBytes] does. *)
Section Quiet.
Variable f : Event -> bool.
Hypothesis f_done : forall b, f (EvDone b) = false.
Hypothesis f_read : forall n, f (EvRead n) = false.
Hypothesis f_sleep : forall ms, f (EvSleep ms) = false.

Lemma filter_Done (w : World) : List.filter f (trace (snd (Done w))) = List.filter f (trace w).
Proof.
  unfold Done. destruct (ctx w) as [[|n]|]; simpl;
    rewrite List.filter_app; simpl; rewrite f_done; apply app_nil_r.
Qed.

Lemma ReadBytes_iter_filter (s : ReadState R) :
  match ReadBytes_iter s with
  | Continue s' => List.filter f (trace (rs_world s')) = List.filter f (trace (rs_world s))
  | Return (_, w', _) => List.filter f (trace w') = List.filter f (trace (rs_world s))
  end.
Proof.
  unfold ReadBytes_iter.
  pose proof (filter_Done (rs_world s)) as Hd.
  destruct (Done (rs_world s)) as [[|] w1]; simpl in Hd; [exact Hd|].
  destruct (Read (rs_reader s) 1024) as [[data err] r1].
  assert (He : List.filter f (trace (emit (EvRead 1024) w1)) = List.filter f (trace (rs_world s))).
  { rewrite filter_emit, f_read, app_nil_r. exact Hd. }
  destruct err as [e1|].
  - destruct (is_EOF e1); [|exact He].
    destruct (maxEmptyReads <=? _); [exact He|].
    cbn [rs_world]. rewrite filter_emit, f_sleep, app_nil_r. exact He.
  - destruct (length data <? 1024)%nat; exact He.
Qed.

Lemma ReadBytes_filter fuel (w : World) (r : R) res w' r' :
  ReadBytes fuel w r = Some (res, w', r') -> List.filter f (trace w') = List.filter f (trace w).
Proof.
  intros Hr. unfold ReadBytes in Hr.
  refine (loop_invariant ReadBytes_iter
            (fun s => List.filter f (trace (rs_world s)) = List.filter f (trace w))
            (fun a => List.filter f (trace (snd (fst a))) = List.filter f (trace w))
            _ _ fuel _ _ _ Hr).
  - intros s s' Hi Hs. pose proof (ReadBytes_iter_filter s) as Hp. rewrite Hs in Hp. congruence.
  - intros s [[res0 w0] r0] Hi Hs. pose proof (ReadBytes_iter_filter s) as Hp.
    rewrite Hs in Hp. simpl. congruence.
  - reflexivity.
Qed.

Lemma ReadBuffConn_iter_filter fuel (w : World) (conn : R) pub w' conn' :
  ReadBuffConn_iter fuel w conn = Some (pub, w', conn') ->
  List.filter f (trace w') = List.filter f (trace w).
Proof.
  unfold ReadBuffConn_iter. pose proof (filter_Done w) as Hd.
  destruct (Done w) as [[|] w0]; simpl in Hd.
  { intros [= <- <- <-]. exact Hd. }
  destruct (ReadBytes fuel w0 conn) as [[[[b err] w1] c1]|] eqn:Hr; [|discriminate].
  pose proof (ReadBytes_filter _ _ _ _ _ _ Hr) as Hf.
  destruct err; intros [= <- <- <-]; congruence.
Qed.

End Quiet.

Lemma sends_Done (w : World) : sends (trace (snd (Done w))) = sends (trace w).
Proof. apply filter_Done. reflexivity. Qed.

Lemma ReadBytes_sends fuel (w : World) (r : R) res w' r' :
  ReadBytes fuel w r = Some (res, w', r') -> sends (trace w') = sends (trace w).
Proof. apply ReadBytes_filter; reflexivity. Qed.

Lemma is_done_emit e (w : World) : is_done (emit e w) = is_done w.
Proof. reflexivity. Qed.

(** After the iterations of [delivers] the loop goes on from the world it
    has reached. *)
Lemma ReadBuffConn_delivers (w : World) (conn : R) ms w1 conn1 :
  delivers w conn ms w1 conn1 ->
  sends (trace w1) = sends (trace w) ++ map EvSendBuffer ms
  /\ forall F x, ReadBuffConn F w1 conn1 = Some x -> exists F', ReadBuffConn F' w conn = Some x.
Proof.
  induction 1 as [w conn|w conn fuel m w1 conn1 ms w2 conn2 Hd Hr Hdel [IHs IHf]].
  - split; [simpl; symmetry; apply app_nil_r|]. intros F x Hx. exists F. exact Hx.
  - split.
    + rewrite IHs, sends_emit, (ReadBytes_sends _ _ _ _ _ _ Hr), sends_Done. simpl.
      rewrite <- app_assoc. reflexivity.
    + intros F x Hx. destruct (IHf F x Hx) as [F1 HF1].
      exists (S (Nat.max fuel F1)). cbn [ReadBuffConn]. unfold ReadBuffConn_iter.
      rewrite (Done_not_done w Hd). rewrite (Done_not_done w Hd) in Hr. cbn [snd] in Hr.
      unfold ReadBytes in *.
      rewrite (loop_mono _ fuel (Nat.max fuel F1) _ _ Hr ltac:(lia)).
      apply (ReadBuffConn_mono F1); [exact HF1|lia].
Qed.

(** C5 (amended): every buffer that [ReadBytes] returns with a nil error
    is sent on the output channel, in order, and nothing else is sent on
    it.  When the check at the head of the loop then finds the context
    done, [ReadBuffConn] returns and sends nothing more; when [ReadBytes]
    returns an error, that error is sent on the error channel and
    [ReadBuffConn] returns.  When the context is found done inside
    [ReadBytes] and not at the head of the loop, [ReadBytes] returns what
    it has accumulated with a nil error: that buffer is sent on the output
    channel, and [ReadBuffConn] returns at its next check. *)
Theorem ReadBuffConn_publishes :
  (forall (w : World) (conn : R) ms w1 conn1,
      delivers w conn ms w1 conn1 ->
      sends (trace w1) = sends (trace w) ++ map EvSendBuffer ms
      /\ (is_done w1 = true ->
          (exists F, ReadBuffConn F w conn = Some (emit (EvDone true) w1, conn1))
          /\ sends (trace (emit (EvDone true) w1)) = sends (trace w) ++ map EvSendBuffer ms)
      /\ (forall fuel b e w2 conn2,
             is_done w1 = false ->
             ReadBytes fuel (snd (Done w1)) conn1 = Some ((b, Some e), w2, conn2) ->
             (exists F, ReadBuffConn F w conn = Some (emit (EvSendErr e) w2, conn2))
             /\ sends (trace (emit (EvSendErr e) w2))
                = sends (trace w) ++ map EvSendBuffer ms ++ [EvSendErr e]))
  /\ (forall (w : World) (conn : R) fuel b w1 conn1,
        is_done w = false ->
        ReadBytes fuel (snd (Done w)) conn = Some ((b, None), w1, conn1) ->
        is_done w1 = true ->
        exists F, ReadBuffConn F w conn
                  = Some (emit (EvDone true) (emit (EvSendBuffer b) w1), conn1)).
Proof.
  assert (Hmain : forall (w : World) (conn : R) ms w1 conn1,
             delivers w conn ms w1 conn1 ->
             is_done w1 = true ->
             exists F, ReadBuffConn F w conn = Some (emit (EvDone true) w1, conn1)).
  { intros w conn ms w1 conn1 Hdel Hd.
    destruct (ReadBuffConn_delivers w conn ms w1 conn1 Hdel) as [_ Hf].
    apply (Hf 1%nat). cbn [ReadBuffConn]. unfold ReadBuffConn_iter.
    rewrite (Done_done w1 Hd). reflexivity. }
  split.
  - intros w conn ms w1 conn1 Hdel.
    destruct (ReadBuffConn_delivers w conn ms w1 conn1 Hdel) as [Hs Hf].
    split; [exact Hs|]. split.
    + intros Hd. split; [apply (Hmain w conn ms); assumption|].
      rewrite sends_emit, Hs. simpl. apply app_nil_r.
    + intros fuel b e w2 conn2 Hd Hr. split.
      * apply (Hf (S fuel)). cbn [ReadBuffConn]. unfold ReadBuffConn_iter.
        rewrite (Done_not_done w1 Hd). rewrite (Done_not_done w1 Hd) in Hr. cbn [snd] in Hr.
        rewrite Hr. reflexivity.
      * rewrite sends_emit, (ReadBytes_sends _ _ _ _ _ _ Hr), sends_Done, Hs. simpl.
        rewrite <- app_assoc. reflexivity.
  - intros w conn fuel b w1 conn1 Hd Hr Hd1.
    apply (Hmain w conn [b] (emit (EvSendBuffer b) w1) conn1).
    + eapply delivers_cons; [exact Hd|exact Hr|apply delivers_nil].
    + exact Hd1.
Qed.

End ReadBuffConnProperties.

(** C5, as stated, fails: the context is found open by the check of
    [ReadBuffConn] and done by the check of [ReadBytes] right after it;
    [ReadBytes] returns no bytes and a nil error without having read, and
    [ReadBuffConn] sends that empty buffer on the output channel after the
    cancellation was seen, although the connection holds a message that
    was never read. *)
Lemma ReadBuffConn_publishes_after_cancellation :
  let r : Util.script := [(["h"; "e"; "l"; "l"; "o"]%byte, None)] in
  Util.ReadBuffConn 2 (Util.mkWorld (Some 1%nat) []) r
  = Some (Util.mkWorld (Some 0%nat)
            [Util.EvDone false; Util.EvDone true; Util.EvSendBuffer []; Util.EvDone true],
          r)
  /\ Util.publishes_after_done
       [Util.EvDone false; Util.EvDone true; Util.EvSendBuffer []; Util.EvDone true] = true.
Proof. split; reflexivity. Qed.

Lemma ReadBuffConn_publishes_witness :
  let r : Util.script := [(["h"; "e"; "l"; "l"; "o"]%byte, None)] in
  let w := Util.mkWorld None [] in
  exists w2,
    (exists F, Util.ReadBuffConn F w r = Some (Util.emit (Util.EvSendErr EOF) w2, []))
    /\ Util.sends (Util.trace (Util.emit (Util.EvSendErr EOF) w2))
       = [] ++ map Util.EvSendBuffer [["h"; "e"; "l"; "l"; "o"]%byte] ++ [Util.EvSendErr EOF].
Proof.
  intros r w.
  pose (w1 := Util.emit (Util.EvSendBuffer ["h"; "e"; "l"; "l"; "o"]%byte)
                (Util.mkWorld None [Util.EvDone false; Util.EvDone false; Util.EvRead 1024])).
  assert (Hdel : Util.delivers w r [["h"; "e"; "l"; "l"; "o"]%byte] w1 []).
  { eapply (Util.delivers_cons w r 1%nat); [reflexivity|reflexivity|apply Util.delivers_nil]. }
  pose proof (proj2 (proj2 (proj1 ReadBuffConn_publishes w r _ w1 [] Hdel)) 5%nat [] EOF)
    as Hcase.
  eexists. apply Hcase; reflexivity.
Defined.

(** ** PassThrough *)

Section PassThroughProperties.
Import Util.
Context {C : Type} `{Conn C}.

(** The loop over the request chunks writes a prefix of them, in order:
    all of them when no write fails, and up to the first write that
    fails otherwise. *)
Lemma write_requests_spec reqs : forall (w : World) (d : C),
  let '(err, w0, d0) := write_requests w d reqs in
  exists k, (k <= length reqs)%nat
    /\ w0 = mkWorld (ctx w) (trace w ++ map (EvWrite Dest) (take k reqs))
    /\ match err with
       | None => k = length reqs /\ write_results d reqs = repeat None k
       | Some e => exists k', k = S k'
                              /\ write_results d (take k reqs) = repeat None k' ++ [Some e]
       end.
Proof.
  induction reqs as [|v rest IH]; intros w d; simpl.
  - exists 0%nat. split; [lia|]. split; [|split; reflexivity].
    destruct w; simpl. rewrite app_nil_r. reflexivity.
  - destruct (Write d v) as [[n [e|]] d1] eqn:Hw.
    + exists 1%nat. split; [simpl; lia|]. split; [reflexivity|].
      exists 0%nat. simpl. rewrite Hw. split; reflexivity.
    + specialize (IH (emit (EvWrite Dest v) w) d1).
      destruct (write_requests (emit (EvWrite Dest v) w) d1 rest) as [[err w0] d0].
      destruct IH as (k & Hk & Hw0 & Herr).
      exists (S k). split; [simpl; lia|]. split.
      * rewrite Hw0. unfold emit; simpl. rewrite <- app_assoc. reflexivity.
      * destruct err as [e|].
        -- destruct Herr as (k' & -> & Hres). exists (S k'). split; [reflexivity|].
           simpl. rewrite Hw. simpl in Hres. rewrite Hres. reflexivity.
        -- destruct Herr as [-> Hres]. split; [reflexivity|]. simpl. rewrite Hres. reflexivity.
Qed.

(** Conversely, the first write that fails ends the loop with its error. *)
Lemma write_requests_fails k : forall reqs (w : World) (d : C) e,
  (S k <= length reqs)%nat ->
  write_results d (take (S k) reqs) = repeat None k ++ [Some e] ->
  exists d0,
    write_requests w d reqs
    = (Some e, mkWorld (ctx w) (trace w ++ map (EvWrite Dest) (take (S k) reqs)), d0).
Proof.
  induction k as [|k IH]; intros [|v rest] w d e Hlen Hres; simpl in Hlen; try lia.
  - simpl in *. destruct (Write d v) as [[n err] d1]. simpl in Hres.
    injection Hres as ->. exists d1. reflexivity.
  - cbn [take write_results] in Hres. cbn [write_requests].
    destruct (Write d v) as [[n err] d1]. cbn [repeat app] in Hres.
    injection Hres as -> Hres.
    destruct (IH rest (emit (EvWrite Dest v) w) d1 e ltac:(lia) Hres) as [d0 Hd0].
    exists d0. rewrite Hd0. unfold emit; simpl. rewrite <- app_assoc. reflexivity.
Qed.

Lemma conn_events_app c l1 l2 :
  conn_events c (l1 ++ l2) = conn_events c l1 ++ conn_events c l2.
Proof. apply List.filter_app. Qed.

Lemma conn_events_writes l : conn_events Dest (map (EvWrite Dest) l) = map (EvWrite Dest) l.
Proof.
  induction l as [|v l IH]; [reflexivity|].
  unfold conn_events in *. cbn [map List.filter is_conn_event].
  rewrite bool_decide_eq_true_2 by reflexivity. rewrite IH. reflexivity.
Qed.

Lemma PassThrough_select_events sel (w : World) (cl : C) :
  let '(res, w1, cl1) := PassThrough_select sel w cl in
  conn_events Dest (trace w1) = conn_events Dest (trace w).
Proof.
  destruct sel as [b|err|]; simpl.
  - destruct (Write cl b) as [[n [e|]] cl1]; simpl;
      rewrite conn_events_app; simpl; apply app_nil_r.
  - destruct (negb (is_net_timeout err) && bool_decide (err <> None)); reflexivity.
  - reflexivity.
Qed.

(** C6: with a destination connection, [PassThrough] writes the request
    chunks to it in the order given, up to and including the first write
    that fails; a write that fails makes the call return at once with
    that write's error (nil bytes), whatever the fuel and the scheduling;
    and whenever the call returns, the events on the destination are
    those writes followed by one [Close], which is the last thing the
    call does. *)
Theorem PassThrough_writes_then_closes (w : World) (client d : C) reqs :
  (forall fuel pick res w' cl' d',
      PassThrough fuel pick w client (Some d) reqs = Some (res, w', cl', d') ->
      exists k, (k <= length reqs)%nat
        /\ conn_events Dest (trace w')
           = conn_events Dest (trace w) ++ map (EvWrite Dest) (take k reqs) ++ [EvClose Dest]
        /\ last (trace w') = Some (EvClose Dest)
        /\ ((k = length reqs /\ write_results d reqs = repeat None k)
            \/ exists k' e, k = S k'
                 /\ write_results d (take k reqs) = repeat None k' ++ [Some e]
                 /\ res = (None, Some e)))
  /\ (forall k e,
        (S k <= length reqs)%nat ->
        write_results d (take (S k) reqs) = repeat None k ++ [Some e] ->
        forall fuel pick, exists d',
          PassThrough fuel pick w client (Some d) reqs
          = Some ((None, Some e),
                  mkWorld (ctx w)
                    (trace w ++ map (EvWrite Dest) (take (S k) reqs) ++ [EvClose Dest]),
                  client, Some d')).
Proof.
  split.
  - intros fuel pick res w' cl' d' Hp. unfold PassThrough in Hp.
    pose proof (write_requests_spec reqs w d) as Hw.
    destruct (write_requests w d reqs) as [[err w0] d0].
    destruct Hw as (k & Hk & Hw0 & Herr). exists k. split; [exact Hk|].
    assert (Hev0 : conn_events Dest (trace w0)
                   = conn_events Dest (trace w) ++ map (EvWrite Dest) (take k reqs)).
    { rewrite Hw0. simpl. rewrite conn_events_app, conn_events_writes. reflexivity. }
    destruct err as [e|].
    + destruct (Close d0) as [ce d1]. injection Hp as <- <- <- <-.
      split; [|split; [apply last_snoc|]].
      * unfold emit; simpl. rewrite conn_events_app, Hev0, <- app_assoc. reflexivity.
      * right. destruct Herr as (k' & -> & Hres). exists k', e. auto.
    + destruct (ReadBuffConn_iter fuel w0 d0) as [[[pub w1] d1]|] eqn:Hi; [|discriminate].
      pose proof (ReadBuffConn_iter_filter (R := C) (is_conn_event Dest)
                    ltac:(reflexivity) ltac:(reflexivity) ltac:(reflexivity)
                    _ _ _ _ _ _ Hi) as Hev1.
      pose proof (PassThrough_select_events (select_branch pick (is_done w1) pub) w1 client)
        as Hev2.
      destruct (PassThrough_select _ w1 client) as [[res2 w2] cl2].
      destruct (Close d1) as [ce d2]. injection Hp as <- <- <- <-.
      split; [|split; [apply last_snoc|]].
      * unfold emit; simpl. rewrite conn_events_app. fold (conn_events Dest (trace w2)).
        rewrite Hev2. unfold conn_events at 1. rewrite Hev1.
        fold (conn_events Dest (trace w0)). rewrite Hev0, <- app_assoc. reflexivity.
      * left. exact Herr.
  - intros k e Hk Hres fuel pick.
    destruct (write_requests_fails k reqs w d e Hk Hres) as [d0 Hd0].
    unfold PassThrough. rewrite Hd0.
    destruct (Close d0) as [ce d1]. exists d1.
    unfold emit; simpl. rewrite <- app_assoc. reflexivity.
Qed.

(** C7: what [PassThrough] returns once the request chunks are written.
    When the background reader, started on the destination, reports an
    error (its [ReadBytes] returns one) and the [select] receives it,
    the call returns (nil, nil) if the error is a network error whose
    [Timeout()] is true, and (nil, that error) for every other error:
    the end of the stream, a network error that is no timeout, any other
    error.  When the operation is cancelled the call returns (nil, nil):
    when the context is done before the reader starts, whatever the
    [select] would choose, and when it is done at the [select] and that
    branch is chosen, whatever the reader has to offer.  In all these
    cases the destination is closed and nothing is written to the
    client. *)
Theorem PassThrough_error_or_cancel fuel pick (w : World) (client d : C) reqs w0 d0 :
  write_requests w d reqs = (None, w0, d0) ->
  (forall m e w1 d1,
      is_done w0 = false ->
      ReadBytes fuel (snd (Done w0)) d0 = Some ((m, Some e), w1, d1) ->
      is_done w1 && pick = false ->
      PassThrough fuel pick w client (Some d) reqs
      = Some ((None, match e with
                     | NetError true _ => None
                     | _ => Some e
                     end),
              emit (EvClose Dest) w1, client, Some (snd (Close d1))))
  /\ (is_done w0 = true ->
      PassThrough fuel pick w client (Some d) reqs
      = Some ((None, None), emit (EvClose Dest) (emit (EvDone true) w0), client,
              Some (snd (Close d0))))
  /\ (forall m err w1 d1,
        is_done w0 = false ->
        ReadBytes fuel (snd (Done w0)) d0 = Some ((m, err), w1, d1) ->
        is_done w1 = true -> pick = true ->
        PassThrough fuel pick w client (Some d) reqs
        = Some ((None, None), emit (EvClose Dest) w1, client, Some (snd (Close d1)))).
Proof.
  intros Hw. split; [|split].
  - intros m e w1 d1 Hd Hr Hpick.
    assert (Hi : ReadBuffConn_iter fuel w0 d0 = Some (PubErr e, w1, d1)).
    { unfold ReadBuffConn_iter. rewrite (Done_not_done w0 Hd).
      rewrite (Done_not_done w0 Hd) in Hr. cbn [snd] in Hr. rewrite Hr. reflexivity. }
    unfold PassThrough. rewrite Hw, Hi. unfold select_branch. rewrite Hpick.
    unfold PassThrough_select. rewrite bool_decide_eq_true_2 by discriminate.
    destruct (Close d1) as [ce d2].
    destruct e as [|[|] msg|msg]; reflexivity.
  - intros Hd.
    assert (Hi : ReadBuffConn_iter fuel w0 d0 = Some (PubNone, emit (EvDone true) w0, d0)).
    { unfold ReadBuffConn_iter. rewrite (Done_done w0 Hd). reflexivity. }
    unfold PassThrough. rewrite Hw, Hi. cbn [select_branch PassThrough_select].
    destruct (Close d0) as [ce d2]. reflexivity.
  - intros m err w1 d1 Hd Hr Hd1 ->.
    assert (Hi : exists pub, ReadBuffConn_iter fuel w0 d0 = Some (pub, w1, d1)
                             /\ pub <> PubNone).
    { unfold ReadBuffConn_iter. rewrite (Done_not_done w0 Hd).
      rewrite (Done_not_done w0 Hd) in Hr. cbn [snd] in Hr. rewrite Hr.
      destruct err as [e|]; eexists; (split; [reflexivity|discriminate]). }
    destruct Hi as (pub & Hi & Hpub).
    unfold PassThrough. rewrite Hw, Hi. unfold select_branch. rewrite Hd1.
    destruct (Close d1) as [ce d2].
    destruct pub as [|e|b]; [contradiction|reflexivity|reflexivity].
Qed.

(** C10: with a nil destination connection, [PassThrough] returns nil
    bytes and an error at once, for every client connection and request
    buffer: nothing is written, nothing is read and nothing is closed
    (the world and the client connection are as they were). *)
Theorem PassThrough_nil_dest (fuel : nat) (pick : bool) (w : World) (client : C)
  (reqs : list (list byte)) :
  PassThrough fuel pick w client None reqs = Some ((None, Some passErr), w, client, None).
Proof. reflexivity. Qed.

End PassThroughProperties.

Lemma PassThrough_writes_then_closes_witness :
  let d := Util.mkScriptConn [] [None; Some (ErrorString "write: broken pipe")] None in
  let cl := Util.mkScriptConn [] [] None in
  let reqs := [["001"]; ["002"]; ["003"]]%byte in
  exists d',
    Util.PassThrough 0 false (Util.mkWorld None []) cl (Some d) reqs
    = Some ((None, Some (ErrorString "write: broken pipe")),
            Util.mkWorld None
              ([] ++ map (Util.EvWrite Util.Dest) (take 2 reqs) ++ [Util.EvClose Util.Dest]),
            cl, Some d').
Proof.
  intros d cl reqs.
  apply (proj2 (PassThrough_writes_then_closes (Util.mkWorld None []) cl d reqs) 1%nat).
  - simpl. lia.
  - reflexivity.
Defined.

Lemma PassThrough_error_or_cancel_witness :
  let d := Util.mkScriptConn
             [(["H"; "T"]%byte, Some (ErrorString "read: connection reset by peer"))]
             [] None in
  let cl := Util.mkScriptConn [] [] None in
  exists w1 d1,
    Util.PassThrough 1 false (Util.mkWorld None []) cl (Some d) [["001"%byte]]
    = Some ((None, Some (ErrorString "read: connection reset by peer")),
            Util.emit (Util.EvClose Util.Dest) w1, cl, Some (snd (Util.Close d1))).
Proof.
  intros d cl.
  edestruct (PassThrough_error_or_cancel 1 false (Util.mkWorld None []) cl d
               [["001"%byte]]) as (He & _ & _); [reflexivity|].
  eexists _, _.
  apply (He ["H"; "T"]%byte (ErrorString "read: connection reset by peer"));
    reflexivity.
Defined.

(** ** Address codec *)

Section BinaryDigits.
Import Util.

Lemma bits_msb_length n : forall v, length (bits_msb n v) = n.
Proof.
  induction n as [|n IH]; intros v; simpl; [reflexivity|].
  rewrite length_app, IH. simpl. lia.
Qed.

Lemma bits_msb_zero n : bits_msb n 0 = repeat "0"%char n.
Proof.
  induction n as [|n IH]; [reflexivity|].
  cbn [bits_msb]. change (0 / 2) with 0. rewrite IH.
  change (Fmt.digit_char (0 mod 2)) with "0"%char.
  change ["0"%char] with (repeat "0"%char 1). rewrite <- repeat_app.
  f_equal. lia.
Qed.

(** Digits in front of the significant ones are zeros. *)
Lemma bits_msb_small n : forall m v,
  (m <= n)%nat -> 0 <= v < 2 ^ Z.of_nat m ->
  bits_msb n v = repeat "0"%char (n - m) ++ bits_msb m v.
Proof.
  induction n as [|n IH]; intros m v Hm Hv.
  - assert (m = 0%nat) as -> by lia. reflexivity.
  - destruct m as [|m].
    + assert (v = 0) as -> by (simpl in Hv; lia).
      rewrite bits_msb_zero. simpl. rewrite app_nil_r. reflexivity.
    + cbn [bits_msb]. rewrite (IH m (v / 2)).
      * rewrite <- app_assoc. reflexivity.
      * lia.
      * rewrite Nat2Z.inj_succ, Z.pow_succ_r in Hv by lia.
        split; [apply Z.div_pos; lia|]. apply Z.div_lt_upper_bound; lia.
Qed.

Lemma bits_msb_app b : forall a v,
  0 <= v ->
  bits_msb (a + b) v = bits_msb a (v / 2 ^ Z.of_nat b) ++ bits_msb b v.
Proof.
  induction b as [|b IH]; intros a v Hv.
  - rewrite Nat.add_0_r. simpl. rewrite Z.div_1_r, app_nil_r. reflexivity.
  - rewrite Nat.add_succ_r. cbn [bits_msb].
    rewrite (IH a (v / 2)) by (apply Z.div_pos; lia).
    rewrite <- app_assoc. f_equal. f_equal.
    rewrite Nat2Z.inj_succ, Z.pow_succ_r by lia.
    rewrite Z.div_div by lia. reflexivity.
Qed.

(** The formatting loop in base 2 writes the significant digits. *)
Lemma fmtInteger_bits fuel : forall n u acc,
  (1 <= n <= fuel)%nat -> 0 <= u < 2 ^ Z.of_nat n ->
  exists m, (1 <= m <= n)%nat /\ u < 2 ^ Z.of_nat m
            /\ Fmt.fmtInteger 2 fuel u acc = bits_msb m u ++ acc.
Proof.
  induction fuel as [|fuel IH]; intros n u acc Hn Hu; [lia|].
  cbn [Fmt.fmtInteger]. destruct (2 <=? u) eqn:H2.
  - apply Z.leb_le in H2.
    destruct n as [|n]; [lia|].
    rewrite Nat2Z.inj_succ, Z.pow_succ_r in Hu by lia.
    assert (Hn1 : (1 <= n)%nat).
    { destruct n; [simpl in Hu; lia|lia]. }
    destruct (IH n (u / 2) (Fmt.digit_char (u mod 2) :: acc) ltac:(lia)) as (m & Hm & Hlt & Heq).
    { split; [apply Z.div_pos; lia|]. apply Z.div_lt_upper_bound; lia. }
    exists (S m). split; [lia|]. split.
    + rewrite Nat2Z.inj_succ, Z.pow_succ_r by lia.
      pose proof (Z.div_mod u 2 ltac:(lia)). pose proof (Z.mod_pos_bound u 2 ltac:(lia)). lia.
    + rewrite Heq. cbn [bits_msb]. rewrite <- app_assoc. reflexivity.
  - apply Z.leb_gt in H2. exists 1%nat. split; [lia|]. split; [simpl; lia|].
    cbn [bits_msb app]. rewrite Z.mod_small by lia. reflexivity.
Qed.

Lemma Sprintf_032b_bits v :
  0 <= v < 2 ^ 32 -> Fmt.Sprintf_032b v = bits_msb 32 v.
Proof.
  intros Hv. unfold Fmt.Sprintf_032b, Fmt.Sprint_uint, Fmt.zero_pad.
  destruct (fmtInteger_bits 64 32 v [] ltac:(lia)) as (m & Hm & Hlt & Heq).
  { change (Z.of_nat 32) with 32. lia. }
  rewrite Heq, app_nil_r, bits_msb_length.
  symmetry. apply bits_msb_small; lia.
Qed.

(** The 32 digits are the digits of the four bytes, the most significant
    byte first. *)
Lemma bits_msb_bytes v :
  0 <= v ->
  bits_msb 32 v
  = bits_msb 8 (v / 2 ^ 24) ++ bits_msb 8 (v / 2 ^ 16)
    ++ bits_msb 8 (v / 2 ^ 8) ++ bits_msb 8 v.
Proof.
  intros Hv.
  change (bits_msb 32 v) with (bits_msb (8 + 24) v).
  rewrite (bits_msb_app 24 8 v Hv).
  change (bits_msb 24 v) with (bits_msb (8 + 16) v).
  rewrite (bits_msb_app 16 8 v Hv).
  change (bits_msb 16 v) with (bits_msb (8 + 8) v).
  rewrite (bits_msb_app 8 8 v Hv).
  reflexivity.
Qed.

Lemma digit_val_bit x :
  Fmt.digit_val (Fmt.digit_char (x mod 2)) = Some (x mod 2).
Proof.
  pose proof (Z.mod_pos_bound x 2 ltac:(lia)) as Hb.
  assert (Hc : x mod 2 = 0 \/ x mod 2 = 1) by lia.
  destruct Hc as [-> | ->]; reflexivity.
Qed.

(** Parsing binary digits back gives the number they write. *)
Lemma ParseUint_loop_bits n : forall x acc rest,
  0 <= x -> 0 <= acc -> (acc + 1) * 2 ^ Z.of_nat n <= 2 ^ 63 ->
  Fmt.ParseUint_loop 2 acc (bits_msb n x ++ rest)
  = Fmt.ParseUint_loop 2 (acc * 2 ^ Z.of_nat n + x mod 2 ^ Z.of_nat n) rest.
Proof.
  induction n as [|n IH]; intros x acc rest Hx Hacc Hb.
  - simpl. rewrite Z.mod_1_r, Z.mul_1_r, Z.add_0_r. reflexivity.
  - cbn [bits_msb]. rewrite <- app_assoc.
    rewrite Nat2Z.inj_succ, Z.pow_succ_r in * by lia.
    assert (Hp : 0 < 2 ^ Z.of_nat n) by (apply Z.pow_pos_nonneg; lia).
    rewrite IH; [|apply Z.div_pos; lia|lia|nia].
    pose proof (Z.mod_pos_bound (x / 2) (2 ^ Z.of_nat n) Hp) as Hm.
    pose proof (Z.mod_pos_bound x 2 ltac:(lia)) as Hm2.
    cbn [app Fmt.ParseUint_loop]. rewrite digit_val_bit.
    destruct (2 <=? x mod 2) eqn:H2; [apply Z.leb_le in H2; lia|].
    change (Fmt.maxUint64 / 2 + 1) with (2 ^ 63).
    destruct (2 ^ 63 <=? _) eqn:H3; [apply Z.leb_le in H3; nia|].
    destruct (Fmt.maxUint64 <? _) eqn:H4.
    { apply Z.ltb_lt in H4. unfold Fmt.maxUint64 in H4. nia. }
    f_equal. rewrite (Z.rem_mul_r x 2 (2 ^ Z.of_nat n)) by lia. ring.
Qed.

Lemma ParseUint_bits8 x :
  0 <= x -> Fmt.ParseUint (bits_msb 8 x) 2 = (x mod 256, None).
Proof.
  intros Hx. unfold Fmt.ParseUint.
  destruct (bits_msb 8 x) as [|c l] eqn:Hb.
  { apply (f_equal (@length ascii)) in Hb. rewrite bits_msb_length in Hb. discriminate. }
  rewrite <- Hb. rewrite <- (app_nil_r (bits_msb 8 x)).
  rewrite (ParseUint_loop_bits 8 x 0 [] Hx ltac:(lia)).
  - reflexivity.
  - change (Z.of_nat 8) with 8. lia.
Qed.

Lemma slice_bytes (a b c d : list ascii) :
  length a = 8%nat -> length b = 8%nat -> length c = 8%nat -> length d = 8%nat ->
  Fmt.slice (a ++ b ++ c ++ d) 0 8 = Some a
  /\ Fmt.slice (a ++ b ++ c ++ d) 8 16 = Some b
  /\ Fmt.slice (a ++ b ++ c ++ d) 16 24 = Some c
  /\ Fmt.slice (a ++ b ++ c ++ d) 24 32 = Some d.
Proof.
  intros Ha Hb Hc Hd. unfold Fmt.slice.
  assert (Hlen : length (a ++ b ++ c ++ d) = 32%nat) by (rewrite !length_app; lia).
  rewrite Hlen.
  repeat split.
  - rewrite decide_True by lia. simpl. f_equal. apply take_app_length'. symmetry; exact Ha.
  - rewrite decide_True by lia. f_equal.
    rewrite (drop_app_length' a _ 8) by (symmetry; exact Ha).
    change (16 - 8)%nat with 8%nat. apply take_app_length'. symmetry; exact Hb.
  - rewrite decide_True by lia. f_equal.
    rewrite (app_assoc a b).
    rewrite (drop_app_length' (a ++ b) _ 16) by (rewrite length_app; lia).
    change (24 - 16)%nat with 8%nat. apply take_app_length'. symmetry; exact Hc.
  - rewrite decide_True by lia. f_equal.
    rewrite (app_assoc a b), (app_assoc (a ++ b) c).
    rewrite (drop_app_length' ((a ++ b) ++ c) _ 24) by (rewrite !length_app; lia).
    change (32 - 24)%nat with 8%nat. rewrite <- Hd. apply firstn_all.
Qed.

(** What [ToIP4AddressStr] prints: the four bytes of the number in
    decimal, the most significant first, with dots between them. *)
Lemma ToIP4AddressStr_bytes v :
  0 <= v < 2 ^ 32 ->
  ToIP4AddressStr v
  = Some (Fmt.Sprintf_d (byte_at 24 v) ++ ["."%char] ++ Fmt.Sprintf_d (byte_at 16 v)
          ++ ["."%char] ++ Fmt.Sprintf_d (byte_at 8 v) ++ ["."%char]
          ++ Fmt.Sprintf_d (byte_at 0 v)).
Proof.
  intros Hv. unfold ToIP4AddressStr.
  rewrite (Sprintf_032b_bits v Hv), (bits_msb_bytes v) by lia.
  destruct (slice_bytes (bits_msb 8 (v / 2 ^ 24)) (bits_msb 8 (v / 2 ^ 16))
              (bits_msb 8 (v / 2 ^ 8)) (bits_msb 8 v))
    as (-> & -> & -> & ->); try apply bits_msb_length.
  cbn [mbind option_bind].
  rewrite !ParseUint_bits8 by (try apply Z.div_pos; lia).
  cbn [fst]. unfold byte_at. rewrite Z.pow_0_r, Z.div_1_r. reflexivity.
Qed.

End BinaryDigits.

Section DottedDecimal.
Import Util.

Lemma below_256 (P : Z -> Prop) :
  List.Forall P (map Z.of_nat (seq 0 256)) -> forall b, 0 <= b < 256 -> P b.
Proof.
  intros HF b Hb. apply (proj1 (List.Forall_forall P _) HF).
  apply in_map_iff. exists (Z.to_nat b). split; [lia|]. apply in_seq. lia.
Qed.

(** The decimal text of a byte, as [Sprintf] prints it, read by the
    parser of dotted-decimal text: it is not empty, it makes the text an
    IPv4 text when a dot follows, and the parser reads it as one field
    with the value of the byte. *)
Lemma octet_text b :
  0 <= b < 256 ->
  is_dot (List.last (Fmt.Sprintf_d b) "0"%char) = false
  /\ Fmt.Sprintf_d b <> []
  /\ (forall rest, text_family (Fmt.Sprintf_d b ++ "."%char :: rest) = TextV4)
  /\ (forall rest prev pos fields,
         parseIPv4Fields (Fmt.Sprintf_d b ++ rest) prev 0 pos 0 fields
         = parseIPv4Fields rest (Some (List.last (Fmt.Sprintf_d b) "0"%char)) b pos
             (Z.of_nat (length (Fmt.Sprintf_d b))) fields).
Proof.
  revert b. apply below_256.
  match goal with
  | |- List.Forall ?P ?l => let l' := eval vm_compute in l in change (List.Forall P l')
  end.
  repeat (constructor;
          [ cbv beta; split;
            [ vm_compute; reflexivity
            | split;
              [ vm_compute; discriminate
              | split; intros; reflexivity ] ]
          | ]).
  constructor.
Qed.

Lemma parse_dot c rest b pos len fields :
  is_dot c = false -> rest <> [] -> (pos < 3)%nat ->
  parseIPv4Fields ("."%char :: rest) (Some c) b pos len fields
  = parseIPv4Fields rest (Some "."%char) 0 (S pos) 0 (<[pos := b mod 256]> fields).
Proof.
  intros Hc Hr Hp. cbn [parseIPv4Fields].
  change (is_digit "."%char) with false. change (is_dot "."%char) with true. cbv iota.
  destruct rest as [|c' rest']; [contradiction|].
  rewrite Hc. destruct (pos =? 3)%nat eqn:H3; [apply Nat.eqb_eq in H3; lia|reflexivity].
Qed.

Lemma app_not_nil {T} (l1 l2 : list T) : l1 <> [] -> l1 ++ l2 <> [].
Proof. destruct l1; [contradiction|discriminate]. Qed.

(** The parser reads the text of four bytes back as those bytes. *)
Lemma parseIPv4_bytes b0 b1 b2 b3 :
  0 <= b0 < 256 -> 0 <= b1 < 256 -> 0 <= b2 < 256 -> 0 <= b3 < 256 ->
  parseIPv4 (Fmt.Sprintf_d b0 ++ ["."%char] ++ Fmt.Sprintf_d b1 ++ ["."%char]
             ++ Fmt.Sprintf_d b2 ++ ["."%char] ++ Fmt.Sprintf_d b3)
  = Some [b0; b1; b2; b3].
Proof.
  intros H0 H1 H2 H3.
  destruct (octet_text b0 H0) as (Hd0 & Hn0 & _ & Hp0).
  destruct (octet_text b1 H1) as (Hd1 & Hn1 & _ & Hp1).
  destruct (octet_text b2 H2) as (Hd2 & Hn2 & _ & Hp2).
  destruct (octet_text b3 H3) as (Hd3 & Hn3 & _ & Hp3).
  unfold parseIPv4. cbn [app].
  rewrite Hp0, parse_dot by (auto using app_not_nil; lia).
  rewrite Hp1, parse_dot by (auto using app_not_nil; lia).
  rewrite Hp2, parse_dot by (auto using app_not_nil; lia).
  rewrite <- (app_nil_r (Fmt.Sprintf_d b3)), Hp3.
  cbn [parseIPv4Fields Nat.ltb Nat.leb]. 
  rewrite !Z.mod_small by lia. reflexivity.
Qed.

Lemma ParseIP_bytes (parseIPv6 : list ascii -> IP) b0 b1 b2 b3 :
  0 <= b0 < 256 -> 0 <= b1 < 256 -> 0 <= b2 < 256 -> 0 <= b3 < 256 ->
  ParseIP parseIPv6
    (Fmt.Sprintf_d b0 ++ ["."%char] ++ Fmt.Sprintf_d b1 ++ ["."%char]
     ++ Fmt.Sprintf_d b2 ++ ["."%char] ++ Fmt.Sprintf_d b3)
  = [0; 0; 0; 0; 0; 0; 0; 0; 0; 0; 255; 255; b0; b1; b2; b3].
Proof.
  intros H0 H1 H2 H3. unfold ParseIP.
  rewrite (parseIPv4_bytes b0 b1 b2 b3 H0 H1 H2 H3).
  destruct (octet_text b0 H0) as (_ & _ & Hf & _).
  cbn [app] in *. rewrite Hf. reflexivity.
Qed.

End DottedDecimal.

Section Reassembly.
Import Util.

Lemma lor_high_low hi lo s :
  0 <= s -> 0 <= lo < 2 ^ s -> Z.lor (hi * 2 ^ s) lo = hi * 2 ^ s + lo.
Proof.
  intros Hs Hlo. symmetry. apply Z.add_nocarry_lor.
  apply Z.bits_inj'. intros n Hn. rewrite Z.land_spec, Z.bits_0.
  destruct (Z.lt_ge_cases n s) as [Hlt|Hge].
  - rewrite Z.mul_pow2_bits_low by lia. reflexivity.
  - rewrite <- (Z.mod_small lo (2 ^ s)) by lia.
    rewrite Z.mod_pow2_bits_high by lia. apply andb_false_r.
Qed.

Lemma byte_at_range s v : 0 <= byte_at s v < 256.
Proof. unfold byte_at. apply Z.mod_pos_bound. lia. Qed.

(** The four bytes of a 32-bit number put it together again. *)
Lemma bytes_reassemble v :
  0 <= v < 2 ^ 32 ->
  byte_at 24 v * 2 ^ 24 + (byte_at 16 v * 2 ^ 16 + (byte_at 8 v * 2 ^ 8 + byte_at 0 v)) = v.
Proof.
  intros Hv. unfold byte_at.
  change (2 ^ 32) with 4294967296 in Hv.
  change (2 ^ 24) with 16777216. change (2 ^ 16) with 65536.
  change (2 ^ 8) with 256. change (2 ^ 0) with 1.
  Z.div_mod_to_equations. lia.
Qed.

Lemma ToIPV4_bytes v :
  0 <= v < 2 ^ 32 ->
  ToIPV4 [0; 0; 0; 0; 0; 0; 0; 0; 0; 0; 255; 255;
          byte_at 24 v; byte_at 16 v; byte_at 8 v; byte_at 0 v]
  = (v, true).
Proof.
  intros Hv.
  pose proof (byte_at_range 24 v) as H0. pose proof (byte_at_range 16 v) as H1.
  pose proof (byte_at_range 8 v) as H2. pose proof (byte_at_range 0 v) as H3.
  unfold ToIPV4, To4. cbn [length Nat.eqb firstn forallb Z.eqb andb skipn nth].
  rewrite !bool_decide_eq_true_2 by reflexivity. cbn [andb firstn skipn nth].
  f_equal. unfold uint32.
  rewrite !(Z.mod_small (byte_at _ v)) by lia.
  rewrite !Z.shiftl_mul_pow2 by lia.
  rewrite !(Z.mod_small (_ * _)) by (change (2 ^ 32) with 4294967296;
    change (2 ^ 24) with 16777216; change (2 ^ 16) with 65536; change (2 ^ 8) with 256; lia).
  rewrite <- !Z.lor_assoc.
  rewrite (lor_high_low (byte_at 8 v) (byte_at 0 v) 8) by lia.
  rewrite (lor_high_low (byte_at 16 v) _ 16)
    by (change (2 ^ 16) with 65536; change (2 ^ 8) with 256; lia).
  rewrite (lor_high_low (byte_at 24 v) _ 24)
    by (change (2 ^ 24) with 16777216; change (2 ^ 16) with 65536;
        change (2 ^ 8) with 256; lia).
  apply bytes_reassemble, Hv.
Qed.

(** C9: for every 32-bit unsigned integer [v], [ToIP4AddressStr] gives a
    dotted-decimal text, and that text, parsed by [net.ParseIP] and
    converted by [ToIPV4], gives [v] back with [true]; the number
    0x0A000001 gives the text "10.0.0.1", and "10.0.0.1" gives
    0x0A000001 with [true]. *)
Theorem IPv4_text_roundtrip (parseIPv6 : list ascii -> IP) (v : Z) :
  0 <= v < 2 ^ 32 ->
  (exists text,
      ToIP4AddressStr v = Some text
      /\ ToIPV4 (ParseIP parseIPv6 text) = (v, true))
  /\ ToIP4AddressStr 0x0A000001 = Some (String.list_ascii_of_string "10.0.0.1")
  /\ ToIPV4 (ParseIP parseIPv6 (String.list_ascii_of_string "10.0.0.1")) = (0x0A000001, true).
Proof.
  intros Hv. split; [|split; reflexivity].
  eexists. split; [apply ToIP4AddressStr_bytes, Hv|].
  rewrite ParseIP_bytes by apply byte_at_range.
  apply ToIPV4_bytes, Hv.
Qed.

End Reassembly.

Lemma IPv4_text_roundtrip_witness :
  (exists text,
      Util.ToIP4AddressStr 0xC0A80001 = Some text
      /\ Util.ToIPV4 (Util.ParseIP (fun _ => []) text) = (0xC0A80001, true))
  /\ Util.ToIP4AddressStr 0x0A000001 = Some (String.list_ascii_of_string "10.0.0.1")
  /\ Util.ToIPV4 (Util.ParseIP (fun _ => []) (String.list_ascii_of_string "10.0.0.1"))
     = (0x0A000001, true).
Proof.
  apply (IPv4_text_roundtrip (fun _ => []) 0xC0A80001). lia.
Defined.

(* ===================================================================== *)
(** * Part III: further properties of the code                           *)
(* ===================================================================== *)

(** ** GetNextID *)

Section NextID.
Import Util.

Lemma int64_small x : - 2 ^ 63 <= x < 2 ^ 63 -> int64 x = x.
Proof.
  intros Hx. unfold int64. rewrite Z.mod_small by lia. lia.
Qed.

Lemma GetNextID_calls_from k : forall c,
  -1 <= c -> c + Z.of_nat k < 2 ^ 63 ->
  GetNextID_calls k c = (map (fun i => c + 1 + Z.of_nat i) (seq 0 k), c + Z.of_nat k).
Proof.
  induction k as [|k IH]; intros c Hc Hk.
  - simpl. rewrite Z.add_0_r. reflexivity.
  - cbn [GetNextID_calls]. unfold GetNextID.
    rewrite int64_small by lia.
    rewrite IH by lia. cbn [seq map]. rewrite Z.add_0_r.
    f_equal; [|lia]. f_equal.
    rewrite <- seq_shift, map_map. apply map_ext. intros i. lia.
Qed.

(** X1: from the initial counter (-1), [k] calls of [GetNextID] return
    0, 1, ..., k-1 in this order (as long as [k] does not exceed 2^63, the
    range of the counter), so no value is returned twice. *)
Theorem GetNextID_counts (k : nat) :
  Z.of_nat k <= 2 ^ 63 ->
  fst (GetNextID_calls k idCounter0) = map Z.of_nat (seq 0 k)
  /\ List.NoDup (fst (GetNextID_calls k idCounter0)).
Proof.
  intros Hk. unfold idCounter0.
  rewrite (GetNextID_calls_from k (-1)) by lia. cbn [fst].
  assert (Heq : map (fun i => -1 + 1 + Z.of_nat i) (seq 0 k) = map Z.of_nat (seq 0 k)).
  { apply map_ext. intros i. lia. }
  rewrite Heq. split; [reflexivity|].
  apply List.NoDup_map_NoDup_ForallPairs; [|apply List.seq_NoDup].
  intros a b _ _ Hab. lia.
Qed.

End NextID.

Lemma GetNextID_counts_witness :
  fst (Util.GetNextID_calls 3 Util.idCounter0) = map Z.of_nat (seq 0 3)
  /\ List.NoDup (fst (Util.GetNextID_calls 3 Util.idCounter0)).
Proof. apply (GetNextID_counts 3). simpl. lia. Defined.

(** ** More on ReadBytes, and ReadInitialBuf *)

Section ReadMore.
Import Util.
Context {R : Type} `{Reader R}.

Lemma windows_add a b : windows (a + b) = windows a ++ windows b.
Proof.
  induction a as [|a IH]; [reflexivity|].
  cbn [Nat.add windows]. rewrite IH. reflexivity.
Qed.

(** [k] reads that fill the window: the loop takes [k] iterations without
    a sleep and has appended what they brought. *)
Lemma ReadBytes_windows k : forall (w : World) (r rk : R) b acc,
  full_streak k r = Some (acc, rk) ->
  open_for k (ctx w) = true ->
  iter_n ReadBytes_iter k (mkReadState w r b 0)
  = Some (mkReadState (mkWorld (spend k (ctx w)) (trace w ++ windows k)) rk (b ++ acc) 0).
Proof.
  induction k as [|k IH]; intros w r rk b acc Hs Ho.
  - simpl in *. injection Hs as <- <-. destruct w as [c tr]; simpl.
    rewrite !app_nil_r. repeat f_equal.
    destruct c; simpl; [f_equal; lia|reflexivity].
  - cbn [full_streak] in Hs. cbn [iter_n]. unfold ReadBytes_iter.
    cbn [rs_world rs_reader rs_buffer rs_emptyReads].
    destruct (Done_open w k Ho) as [-> Ho'].
    destruct (Read r 1024) as [[data err] r1].
    destruct (length data =? 1024)%nat eqn:Hlen; [|discriminate].
    destruct (bool_decide (err = None)) eqn:Herr; [|discriminate].
    apply bool_decide_eq_true in Herr. subst err. simpl in Hs.
    destruct (full_streak k r1) as [[acc1 r2]|] eqn:Hs1; [|discriminate].
    injection Hs as <- <-.
    apply Nat.eqb_eq in Hlen. rewrite Hlen. simpl.
    rewrite (IH _ r1 r2 (b ++ data) acc1 Hs1); simpl; [|assumption].
    unfold emit; simpl. rewrite spend_spend, <- !app_assoc. reflexivity.
Qed.

(** One iteration that ends the call: a short read without error, or a
    read with an error that is not end of stream. *)
Lemma ReadBytes_iter_ends (w : World) (r r' : R) data err b e :
  is_done w = false ->
  Read r 1024 = ((data, err), r') ->
  (err = None /\ (length data < 1024)%nat) \/ (exists e0, err = Some e0 /\ e0 <> EOF) ->
  ReadBytes_iter (mkReadState w r b e)
  = Return ((b ++ data, err),
            mkWorld (spend 1 (ctx w)) (trace w ++ [EvDone false; EvRead 1024]), r').
Proof.
  intros Hd Hr Hcase. unfold ReadBytes_iter.
  cbn [rs_world rs_reader rs_buffer rs_emptyReads].
  rewrite (Done_not_done w Hd), Hr.
  assert (Hbuf : (if (0 <? length data)%nat then b ++ data else b) = b ++ data).
  { destruct data; simpl; [rewrite app_nil_r|]; reflexivity. }
  rewrite Hbuf. unfold emit; simpl. rewrite <- app_assoc. simpl.
  destruct Hcase as [[-> Hlt]|(e0 & -> & Hne)].
  - destruct (length data <? 1024)%nat eqn:H1; [reflexivity|apply Nat.ltb_ge in H1; lia].
  - unfold is_EOF. rewrite bool_decide_eq_false_2 by exact Hne. reflexivity.
Qed.

(** X2: after any number [k] of reads that fill the 1024-byte window
    without error, a read that brings fewer bytes without error (none at
    all included), or any read whose error is not end of stream, ends
    [ReadBytes]: it returns everything read so far, in order, with the
    error of that last read (nil for the short read), and it has not
    slept. *)
Theorem ReadBytes_accumulates (w : World) (r rk r' : R) k acc data err fuel :
  full_streak k r = Some (acc, rk) ->
  open_for (S k) (ctx w) = true ->
  Read rk 1024 = ((data, err), r') ->
  (err = None /\ (length data < 1024)%nat) \/ (exists e0, err = Some e0 /\ e0 <> EOF) ->
  ReadBytes (k + S fuel) w r
  = Some ((acc ++ data, err),
          mkWorld (spend (S k) (ctx w))
                  (trace w ++ windows k ++ [EvDone false; EvRead 1024]),
          r').
Proof.
  intros Hs Ho Hr Hcase. unfold ReadBytes.
  rewrite (loop_iter_n _ k (S fuel) _ _
             (ReadBytes_windows k w r rk [] acc Hs (open_for_le k (S k) _ ltac:(lia) Ho))).
  cbn [loop].
  rewrite (ReadBytes_iter_ends _ rk r' data err _ _); cbn [ctx trace]; try assumption.
  - rewrite spend_spend, Nat.add_1_r, <- (app_assoc (trace w)). reflexivity.
  - unfold is_done; cbn [ctx].
    replace (S k) with (k + 1)%nat in Ho by lia.
    apply (open_for_spend k 1) in Ho.
    destruct (spend k (ctx w)) as [[|n]|]; [discriminate|reflexivity..].
Qed.

(** A read that brings data together with the end-of-stream error is
    retried, and the count of empty reads starts again at one. *)
Lemma ReadBytes_iter_eof_data (w : World) (r r1 : R) data b e :
  is_done w = false ->
  Read r 1024 = ((data, Some EOF), r1) ->
  (0 < length data)%nat ->
  ReadBytes_iter (mkReadState w r b e)
  = Continue (mkReadState
                (mkWorld (spend 1 (ctx w)) (trace w ++ retries 1)) r1 (b ++ data) 1).
Proof.
  intros Hd Hr Hpos. unfold ReadBytes_iter.
  cbn [rs_world rs_reader rs_buffer rs_emptyReads].
  rewrite (Done_not_done w Hd), Hr.
  destruct (0 <? length data)%nat eqn:H0; [|apply Nat.ltb_ge in H0; lia].
  simpl. unfold emit; simpl. rewrite <- !app_assoc. reflexivity.
Qed.

Lemma open_is_not_done (c : Context) tr : open_for 1 c = true -> is_done (mkWorld c tr) = false.
Proof. unfold is_done; cbn [ctx]. destruct c as [[|n]|]; [discriminate|reflexivity..]. Qed.

(** The run of [ReadBytes] on [k] empty end-of-stream reads, one read
    that brings data with the end-of-stream error, and four more empty
    end-of-stream reads. *)
Lemma ReadBytes_eof_data_run (w : World) (r rk r1 r' : R) k data :
  (k < 5)%nat ->
  eof_streak k r = Some rk ->
  Read rk 1024 = ((data, Some EOF), r1) -> (0 < length data)%nat ->
  eof_streak 4 r1 = Some r' ->
  open_for (k + 5) (ctx w) = true ->
  ReadBytes (k + 4) w r = None
  /\ forall fuel,
      ReadBytes (k + 5 + fuel) w r
      = Some ((data, Some EOF),
              mkWorld (spend (k + 5) (ctx w))
                      (trace w ++ retries (k + 4) ++ [EvDone false; EvRead 1024]),
              r').
Proof.
  intros Hk Hs Hr Hpos Hs4 Ho.
  destruct (eof_streak_split 3 1 r1 r' Hs4) as (r4 & Hs3 & Hs1).
  pose proof (ReadBytes_streak k w r rk [] 0 Hs (open_for_le k (k + 5) _ ltac:(lia) Ho)
                ltac:(lia) ltac:(unfold maxEmptyReads; lia)) as Hit1.
  set (w1 := mkWorld (spend k (ctx w)) (trace w ++ retries k)) in *.
  assert (Ho1 : open_for 5 (ctx w1) = true).
  { unfold w1; cbn [ctx]. apply open_for_spend. exact Ho. }
  pose proof (ReadBytes_iter_eof_data w1 rk r1 data [] (0 + Z.of_nat k)
                (open_is_not_done _ _ (open_for_le 1 5 _ ltac:(lia) Ho1)) Hr Hpos) as Hit2.
  set (w2 := mkWorld (spend 1 (ctx w1)) (trace w1 ++ retries 1)) in *.
  assert (Ho2 : open_for 4 (ctx w2) = true).
  { unfold w2; cbn [ctx]. apply (open_for_spend 1 4). exact Ho1. }
  pose proof (ReadBytes_streak 3 w2 r1 r4 ([] ++ data) 1 Hs3 (open_for_le 3 4 _ ltac:(lia) Ho2)
                ltac:(lia) ltac:(unfold maxEmptyReads; lia)) as Hit3.
  set (w3 := mkWorld (spend 3 (ctx w2)) (trace w2 ++ retries 3)) in *.
  assert (Ho3 : open_for 1 (ctx w3) = true).
  { unfold w3; cbn [ctx]. apply (open_for_spend 3 1). exact Ho2. }
  pose proof (ReadBytes_ceiling w3 r4 r' ([] ++ data) (1 + Z.of_nat 3) Hs1
                (open_is_not_done _ _ Ho3) eq_refl) as Hit4.
  assert (Hreach : iter_n ReadBytes_iter (k + 4) (mkReadState w r [] 0)
                   = Some (mkReadState w3 r4 ([] ++ data) (1 + Z.of_nat 3))).
  { clear Hit4. revert Hit1 Hit2 Hit3. generalize (mkReadState w r [] 0).
    intros s0 Hit1 Hit2 Hit3.
    assert (Hcomp : forall a b (s s1 s2 : ReadState R),
               iter_n ReadBytes_iter a s = Some s1 -> iter_n ReadBytes_iter b s1 = Some s2 ->
               iter_n ReadBytes_iter (a + b) s = Some s2).
    { induction a as [|a IHa]; intros b s s1 s2 Ha Hb; simpl in *.
      - injection Ha as ->. exact Hb.
      - destruct (ReadBytes_iter s); [|discriminate]. eapply IHa; eassumption. }
    replace (k + 4)%nat with (k + (1 + 3))%nat by lia.
    eapply Hcomp; [exact Hit1|]. eapply Hcomp; [|exact Hit3].
    cbn [iter_n]. rewrite Hit2. reflexivity. }
  assert (Hw3 : mkWorld (spend 1 (ctx w3)) (trace w3 ++ [EvDone false; EvRead 1024])
                = mkWorld (spend (k + 5) (ctx w))
                    (trace w ++ retries (k + 4) ++ [EvDone false; EvRead 1024])).
  { unfold w3, w2, w1; cbn [ctx trace]. rewrite !spend_spend.
    replace (k + 4)%nat with (k + (1 + 3))%nat by lia.
    rewrite !retries_add, <- !app_assoc.
    replace (k + (1 + (3 + 1)))%nat with (k + 5)%nat by lia. reflexivity. }
  split.
  - unfold ReadBytes. rewrite <- (Nat.add_0_r (k + 4)).
    rewrite (loop_iter_n _ (k + 4) 0 _ _ Hreach). reflexivity.
  - intros fuel. unfold ReadBytes.
    replace (k + 5 + fuel)%nat with (k + 4 + S fuel)%nat by lia.
    rewrite (loop_iter_n _ (k + 4) (S fuel) _ _ Hreach). cbn [loop].
    rewrite Hit4, Hw3. reflexivity.
Qed.

(** X3: an end-of-stream read that brings data restarts the count of
    empty reads.  After [k < 5] empty end-of-stream reads, a read with
    data and the end-of-stream error, and four more empty end-of-stream
    reads, [ReadBytes] returns the data with the end-of-stream error at
    the last of these [k + 5] reads and not before, having slept after
    each of the other [k + 4]. *)
Theorem ReadBytes_eof_with_data (w : World) (r rk r1 r' : R) k data :
  (k < 5)%nat ->
  eof_streak k r = Some rk ->
  Read rk 1024 = ((data, Some EOF), r1) -> (0 < length data)%nat ->
  eof_streak 4 r1 = Some r' ->
  open_for (k + 5) (ctx w) = true ->
  ReadBytes (k + 4) w r = None
  /\ forall fuel,
      ReadBytes (k + 5 + fuel) w r
      = Some ((data, Some EOF),
              mkWorld (spend (k + 5) (ctx w))
                      (trace w ++ retries (k + 4) ++ [EvDone false; EvRead 1024]),
              r').
Proof. apply ReadBytes_eof_data_run. Qed.

Lemma loop_never {St A} (body : St -> step St A) (I : St -> Prop) :
  (forall s, I s -> exists s', body s = Continue s' /\ I s') ->
  forall fuel s, I s -> loop body fuel s = None.
Proof.
  intros Hstep. induction fuel as [|fuel IH]; intros s Hi; [reflexivity|].
  simpl. destruct (Hstep s Hi) as (s' & -> & Hi'). apply IH, Hi'.
Qed.

(** X4: with a context that is never cancelled, [ReadBytes] does not
    return on a reader whose every read brings at least one byte together
    with the end-of-stream error: each such read sets the count of empty
    reads back to one, so the ceiling of five is never reached, whatever
    the number of iterations. *)
Theorem ReadBytes_data_with_eof_never_returns (w : World) (r : R) :
  (forall r0 : R, exists data r1,
      Read r0 1024 = ((data, Some EOF), r1) /\ (0 < length data)%nat) ->
  ctx w = None ->
  forall fuel, ReadBytes fuel w r = None.
Proof.
  intros Hall Hc fuel. unfold ReadBytes.
  apply (loop_never ReadBytes_iter (fun s => ctx (rs_world s) = None)); [|exact Hc].
  intros [w0 r0 b e] Hi. cbn [rs_world] in Hi.
  destruct (Hall r0) as (data & r1 & Hr & Hpos).
  eexists. split.
  - apply (ReadBytes_iter_eof_data w0 r0 r1 data b e); [|exact Hr|exact Hpos].
    unfold is_done. rewrite Hi. reflexivity.
  - cbn [rs_world ctx]. rewrite Hi. reflexivity.
Qed.

End ReadMore.

Lemma ReadBytes_accumulates_witness :
  let window := repeat "000"%byte 1024 in
  let r : Util.script := [(window, None); (["h"; "i"]%byte, None)] in
  Util.ReadBytes 2 (Util.mkWorld None []) r
  = Some ((window ++ ["h"; "i"]%byte, None),
          Util.mkWorld None ([] ++ Util.windows 1 ++ [Util.EvDone false; Util.EvRead 1024]),
          []).
Proof.
  intros window r.
  apply (ReadBytes_accumulates (Util.mkWorld None []) r [(["h"; "i"]%byte, None)] []
           1 window ["h"; "i"]%byte None 0).
  - vm_compute. reflexivity.
  - reflexivity.
  - reflexivity.
  - left. split; [reflexivity|simpl; lia].
Defined.

Lemma ReadBytes_eof_with_data_witness :
  let r : Util.script := [([], Some EOF); (["h"; "i"]%byte, Some EOF)] in
  Util.ReadBytes 5 (Util.mkWorld None []) r = None
  /\ forall fuel,
      Util.ReadBytes (1 + 5 + fuel) (Util.mkWorld None []) r
      = Some ((["h"; "i"]%byte, Some EOF),
              Util.mkWorld None
                ([] ++ Util.retries (1 + 4) ++ [Util.EvDone false; Util.EvRead 1024]),
              []).
Proof.
  intros r.
  apply (ReadBytes_eof_with_data (Util.mkWorld None []) r
           [(["h"; "i"]%byte, Some EOF)] [] [] 1 ["h"; "i"]%byte).
  - lia.
  - reflexivity.
  - reflexivity.
  - simpl. lia.
  - reflexivity.
  - reflexivity.
Defined.

Lemma ReadBytes_data_with_eof_never_returns_witness :
  Util.ReadBytes 64 (Util.mkWorld None []) Util.Chatter = None.
Proof.
  apply (ReadBytes_data_with_eof_never_returns (Util.mkWorld None []) Util.Chatter).
  - intros r0. exists ["000"%byte], r0. split; [reflexivity|simpl; lia].
  - reflexivity.
Defined.

Section InitialBuf.
Import Util.
Context {R : Type} `{Reader R}.

(** What [ReadInitialBuf] makes of the result of [ReadBytes]. *)
Lemma ReadInitialBuf_of_ReadBytes fuel (w : World) (conn : R) :
  ReadInitialBuf fuel w conn
  = match ReadBytes fuel w conn with
    | None => None
    | Some ((buf, None), w', c') => Some ((buf, None), w', c')
    | Some ((_, Some _), w', c') => Some (([], Some readErr), w', c')
    end.
Proof.
  unfold ReadInitialBuf.
  destruct (ReadBytes fuel w conn) as [[[[buf [e|]] w'] c']|]; [| |reflexivity].
  - rewrite (bool_decide_eq_true_2 (Some e <> None)) by discriminate.
    destruct (bool_decide (Some e = Some EOF)); simpl;
      [destruct (length buf =? 0)%nat|]; reflexivity.
  - rewrite (bool_decide_eq_false_2 (None <> None)) by congruence.
    rewrite (bool_decide_eq_false_2 (None = Some EOF)) by discriminate. reflexivity.
Qed.

(** X5: [ReadInitialBuf] never returns bytes together with an error: it
    returns the bytes of [ReadBytes] with a nil error when [ReadBytes]
    returns a nil error, and otherwise no bytes and its own error, also
    when [ReadBytes] had read something.  So the bytes that come with the
    end-of-stream error are lost: after a read that brings data with the
    end-of-stream error and four empty end-of-stream reads, the result is
    no bytes and the error "failed to read the initial request buffer". *)
Theorem ReadInitialBuf_drops_data_on_error :
  (forall fuel (w : World) (conn : R) buf err w' c',
      ReadInitialBuf fuel w conn = Some ((buf, err), w', c') ->
      exists buf0 err0,
        ReadBytes fuel w conn = Some ((buf0, err0), w', c')
        /\ ((err0 = None /\ err = None /\ buf = buf0)
            \/ (err0 <> None /\ err = Some readErr /\ buf = [])))
  /\ (forall (w : World) (r r1 r' : R) data,
        Read r 1024 = ((data, Some EOF), r1) -> (0 < length data)%nat ->
        eof_streak 4 r1 = Some r' ->
        open_for 5 (ctx w) = true ->
        forall fuel,
          ReadInitialBuf (5 + fuel) w r
          = Some (([], Some readErr),
                  mkWorld (spend 5 (ctx w))
                          (trace w ++ retries 4 ++ [EvDone false; EvRead 1024]),
                  r')).
Proof.
  split.
  - intros fuel w conn buf err w' c'. rewrite ReadInitialBuf_of_ReadBytes.
    destruct (ReadBytes fuel w conn) as [[[[buf0 [e|]] w0] c0]|]; [| |discriminate];
      intros [= <- <- <- <-]; eexists _, _; (split; [reflexivity|]).
    + right. repeat split. discriminate.
    + left. repeat split.
  - intros w r r1 r' data Hr Hpos Hs Ho fuel.
    rewrite ReadInitialBuf_of_ReadBytes.
    destruct (ReadBytes_eof_data_run w r r r1 r' 0 data ltac:(lia) eq_refl Hr Hpos Hs Ho)
      as [_ Hrun].
    change (5 + fuel)%nat with (0 + 5 + fuel)%nat.
    rewrite (Hrun fuel). reflexivity.
Qed.

(** X6: a cancelled context makes [ReadInitialBuf] succeed with whatever
    [ReadBytes] had accumulated: when the context is found done after [k]
    reads that filled the window, the result is the bytes of those reads
    with a nil error (no bytes at all when the context is done from the
    start), not an error. *)
Theorem ReadInitialBuf_cancelled (w : World) (r rk : R) k acc fuel :
  full_streak k r = Some (acc, rk) ->
  ctx w = Some k ->
  ReadInitialBuf (k + S fuel) w r
  = Some ((acc, None),
          mkWorld (Some 0%nat) (trace w ++ windows k ++ [EvDone true]), rk).
Proof.
  intros Hs Hc. rewrite ReadInitialBuf_of_ReadBytes. unfold ReadBytes.
  assert (Ho : open_for k (ctx w) = true).
  { rewrite Hc. simpl. apply Nat.leb_refl. }
  rewrite (loop_iter_n _ k (S fuel) _ _ (ReadBytes_windows k w r rk [] acc Hs Ho)).
  cbn [loop]. rewrite ReadBytes_iter_done.
  - cbn [rs_world rs_buffer rs_reader]. unfold emit; cbn [ctx trace].
    rewrite Hc. cbn [spend]. rewrite Nat.sub_diag, <- app_assoc. reflexivity.
  - unfold is_done; cbn [rs_world ctx]. rewrite Hc. cbn [spend].
    rewrite Nat.sub_diag. reflexivity.
Qed.

End InitialBuf.

Lemma ReadInitialBuf_drops_data_on_error_witness :
  let r : Util.script := [(["h"; "i"]%byte, Some EOF)] in
  Util.ReadInitialBuf (5 + 0) (Util.mkWorld None []) r
  = Some (([], Some Util.readErr),
          Util.mkWorld None ([] ++ Util.retries 4 ++ [Util.EvDone false; Util.EvRead 1024]),
          []).
Proof.
  intros r.
  apply (fun Hr Hp Hs Ho =>
           proj2 ReadInitialBuf_drops_data_on_error (Util.mkWorld None []) r [] []
             ["h"; "i"]%byte Hr Hp Hs Ho 0%nat).
  - reflexivity.
  - simpl. lia.
  - reflexivity.
  - reflexivity.
Defined.

Lemma ReadInitialBuf_cancelled_witness :
  let r : Util.script := [(["h"; "i"]%byte, None)] in
  Util.ReadInitialBuf 1 (Util.mkWorld (Some 0%nat) []) r
  = Some (([], None),
          Util.mkWorld (Some 0%nat) ([] ++ Util.windows 0 ++ [Util.EvDone true]), r).
Proof.
  intros r.
  apply (ReadInitialBuf_cancelled (Util.mkWorld (Some 0%nat) []) r r 0 [] 0); reflexivity.
Defined.

(** ** ReadRequiredBytes *)

Section RequiredBytes.
Import Util.
Context {R : Type} `{Reader R}.

Lemma ReadRequiredBytes_partial k : forall (w : World) (r rk : R) n b e acc evs rest,
  partial_reads k n r = Some (acc, evs, rest, rk) ->
  open_for k (ctx w) = true ->
  0 <= n ->
  exists e',
    iter_n ReadRequiredBytes_iter k (mkRequiredState w r b n e)
    = Some (mkRequiredState (mkWorld (spend k (ctx w)) (trace w ++ evs)) rk (b ++ acc) rest e')
    /\ 0 <= rest
    /\ Z.of_nat (length acc) + rest = n.
Proof.
  induction k as [|k IH]; intros w r rk n b e acc evs rest Hp Ho Hn.
  - simpl in *. injection Hp as <- <- <- <-. exists e. destruct w as [c tr]; simpl.
    rewrite !app_nil_r. split; [|split; lia]. repeat f_equal.
    destruct c; simpl; [f_equal; lia|reflexivity].
  - cbn [partial_reads] in Hp. cbn [iter_n]. unfold ReadRequiredBytes_iter.
    cbn [rq_world rq_reader rq_buffer rq_numBytes rq_emptyReads].
    destruct (Done_open w k Ho) as [-> Ho'].
    destruct (n <? 0) eqn:Hneg; [apply Z.ltb_lt in Hneg; lia|].
    destruct (Read r (Z.to_nat n)) as [[data err] r1].
    destruct (0 <? Z.of_nat (length data)) eqn:Hpos; [|discriminate].
    destruct (Z.of_nat (length data) <? n) eqn:Hlt; [|discriminate].
    destruct (bool_decide (err = None)) eqn:Herr; [|discriminate].
    apply bool_decide_eq_true in Herr. subst err. simpl in Hp.
    destruct (partial_reads k (n - Z.of_nat (length data)) r1)
      as [[[[acc1 evs1] rest1] r2]|] eqn:Hp1; [|discriminate].
    injection Hp as <- <- <- <-.
    apply Z.ltb_lt in Hlt. apply Z.ltb_lt in Hpos.
    destruct (Z.of_nat (length data) =? n) eqn:Heq; [apply Z.eqb_eq in Heq; lia|].
    destruct (IH (emit (EvRead (Z.to_nat n))
                    (mkWorld (spend 1 (ctx w)) (trace w ++ [EvDone false])))
                 r1 r2 (n - Z.of_nat (length data)) (b ++ data) 0 acc1 evs1 rest1 Hp1)
      as (e' & Hit & Hleft & Hsum); [exact Ho'|lia|].
    exists e'. lazy beta iota zeta. fold (@ReadRequiredBytes_iter R H). rewrite Hit. unfold emit; cbn [ctx trace].
    rewrite spend_spend, <- !app_assoc. split; [reflexivity|].
    split; [exact Hleft|]. rewrite length_app. lia.
Qed.

(** X7: [ReadRequiredBytes] puts together the bytes of successive reads
    until it has exactly the count asked for: after [k] reads that each
    bring some but not all of the bytes still required, a read that
    brings all that is rest ends the call with the bytes of all these
    reads, in order, and a nil error, whatever error that last read
    returned.  In particular a count of zero is satisfied by the first
    read, also on a stream that has ended. *)
Theorem ReadRequiredBytes_exact (w : World) (r rk r' : R) n k acc evs rest data err fuel :
  0 <= n ->
  partial_reads k n r = Some (acc, evs, rest, rk) ->
  Read rk (Z.to_nat rest) = ((data, err), r') ->
  Z.of_nat (length data) = rest ->
  open_for (S k) (ctx w) = true ->
  ReadRequiredBytes (k + S fuel) w r n
  = Some (Ret (acc ++ data, None),
          mkWorld (spend (S k) (ctx w))
                  (trace w ++ evs ++ [EvDone false; EvRead (Z.to_nat rest)]),
          r')
  /\ Z.of_nat (length (acc ++ data)) = n.
Proof.
  intros Hn Hp Hr Hlen Ho.
  destruct (ReadRequiredBytes_partial k w r rk n [] 0 acc evs rest Hp
              (open_for_le k (S k) _ ltac:(lia) Ho) Hn) as (e' & Hit & Hleft & Hsum).
  split; [|rewrite length_app; lia].
  unfold ReadRequiredBytes. rewrite (loop_iter_n _ k (S fuel) _ _ Hit). cbn [loop].
  unfold ReadRequiredBytes_iter.
  cbn [rq_world rq_reader rq_buffer rq_numBytes rq_emptyReads].
  rewrite Done_not_done.
  2:{ unfold is_done; cbn [ctx].
      replace (S k) with (k + 1)%nat in Ho by lia.
      apply (open_for_spend k 1) in Ho.
      destruct (spend k (ctx w)) as [[|m]|]; [discriminate|reflexivity..]. }
  destruct (rest <? 0) eqn:Hneg; [apply Z.ltb_lt in Hneg; lia|].
  rewrite Hr. rewrite (proj2 (Z.eqb_eq _ _) Hlen).
  unfold emit; cbn [ctx trace]. rewrite spend_spend, Nat.add_1_r.
  rewrite <- !(app_assoc (trace w)), <- (app_assoc evs). reflexivity.
Qed.

(** X8: the bytes that [ReadRequiredBytes] has put together and the
    count it still asks for always add up to the count it was called
    with: after any number of iterations the length given to [make] in
    the next one is between 0 and that count (the reader keeps the
    contract of [io.Reader]: a read returns at most as many bytes as the
    buffer holds).  So for a count that is not negative the call never
    returns more bytes than asked for, and when it returns a nil error
    and has not stopped at the cancellation check, it returns exactly
    the count asked for.  For a negative count the first iteration
    panics in [make]. *)
Theorem ReadRequiredBytes_length :
  (forall k (w : World) (r : R) n s,
      0 <= n ->
      iter_n ReadRequiredBytes_iter k (mkRequiredState w r [] n 0) = Some s ->
      0 <= rq_numBytes s <= n
      /\ Z.of_nat (length (rq_buffer s)) + rq_numBytes s = n)
  /\ (forall fuel (w : World) (r : R) n buf err w' r',
        0 <= n ->
        ReadRequiredBytes fuel w r n = Some (Ret (buf, err), w', r') ->
        Z.of_nat (length buf) <= n
        /\ (err = None -> last (trace w') <> Some (EvDone true) ->
            Z.of_nat (length buf) = n))
  /\ (forall fuel (w : World) (r : R) n,
        n < 0 -> is_done w = false ->
        ReadRequiredBytes (S fuel) w r n = Some (Panic, snd (Done w), r)).
Proof.
  assert (Hstep : forall n s s',
             0 <= rq_numBytes s
             /\ Z.of_nat (length (rq_buffer s)) + rq_numBytes s = n ->
             ReadRequiredBytes_iter s = Continue s' ->
             0 <= rq_numBytes s'
             /\ Z.of_nat (length (rq_buffer s')) + rq_numBytes s' = n).
  { intros n s s' [Hrem Hsum]. unfold ReadRequiredBytes_iter.
    destruct (Done (rq_world s)) as [[|] w1]; [discriminate|].
    destruct (rq_numBytes s <? 0); [discriminate|].
    pose proof (Read_le (rq_reader s) (Z.to_nat (rq_numBytes s))) as Hle.
    destruct (Read (rq_reader s) _) as [[data err] r1]. cbn [fst] in Hle.
    destruct (_ =? rq_numBytes s); [discriminate|].
    assert (Hinv : forall e w2,
               0 <= rq_numBytes (mkRequiredState w2 r1
                      (if 0 <? Z.of_nat (length data) then rq_buffer s ++ data else rq_buffer s)
                      (if 0 <? Z.of_nat (length data)
                       then rq_numBytes s - Z.of_nat (length data) else rq_numBytes s) e)
               /\ Z.of_nat (length (rq_buffer (mkRequiredState w2 r1
                      (if 0 <? Z.of_nat (length data) then rq_buffer s ++ data else rq_buffer s)
                      (if 0 <? Z.of_nat (length data)
                       then rq_numBytes s - Z.of_nat (length data) else rq_numBytes s) e)))
                  + rq_numBytes (mkRequiredState w2 r1
                      (if 0 <? Z.of_nat (length data) then rq_buffer s ++ data else rq_buffer s)
                      (if 0 <? Z.of_nat (length data)
                       then rq_numBytes s - Z.of_nat (length data) else rq_numBytes s) e) = n).
    { intros e w2. cbn [rq_numBytes rq_buffer].
      destruct (0 <? Z.of_nat (length data)); [rewrite length_app|]; lia. }
    destruct err as [e0|].
    * destruct (is_EOF e0); [|discriminate].
      destruct (maxEmptyReads <=? _); [discriminate|].
      intros [= <-]. apply Hinv.
    * intros [= <-]. apply Hinv. }
  split; [|split].
  - intros k w r n s Hn Hit.
    assert (Hgen : forall k s0,
               0 <= rq_numBytes s0
               /\ Z.of_nat (length (rq_buffer s0)) + rq_numBytes s0 = n ->
               iter_n ReadRequiredBytes_iter k s0 = Some s ->
               0 <= rq_numBytes s
               /\ Z.of_nat (length (rq_buffer s)) + rq_numBytes s = n).
    { clear k Hit. induction k as [|k IH]; intros s0 Hi Hk; cbn [iter_n] in Hk.
      - injection Hk as <-. exact Hi.
      - destruct (ReadRequiredBytes_iter s0) as [s1|a] eqn:Hs; [|discriminate].
        apply (IH s1); [apply (Hstep n s0 s1 Hi Hs)|exact Hk]. }
    destruct (Hgen k (mkRequiredState w r [] n 0)) as [Hrem Hsum];
      [cbn [rq_numBytes rq_buffer length]; lia|exact Hit|].
    split; [|exact Hsum]. lia.
  - intros fuel w r n buf err w' r' Hn Hr. unfold ReadRequiredBytes in Hr.
    refine (loop_invariant ReadRequiredBytes_iter
              (fun s => 0 <= rq_numBytes s
                        /\ Z.of_nat (length (rq_buffer s)) + rq_numBytes s = n)
              (fun a => forall buf err,
                   fst (fst a) = Ret (buf, err) ->
                   Z.of_nat (length buf) <= n
                   /\ (err = None -> last (trace (snd (fst a))) <> Some (EvDone true) ->
                       Z.of_nat (length buf) = n))
              (Hstep n) _ fuel _ (Ret (buf, err), w', r') _ Hr buf err eq_refl).
    + intros s [[res0 w0] r0] [Hrem Hsum]. unfold ReadRequiredBytes_iter. cbn [fst snd].
      destruct (Done (rq_world s)) as [[|] w1] eqn:Hd.
      { intros [= <- <- <-] buf0 err0 [= <- <-].
        split; [lia|]. intros _ Hlast. exfalso. apply Hlast.
        unfold Done in Hd. destruct (ctx (rq_world s)) as [[|m]|]; try discriminate.
        injection Hd as <-. apply last_snoc. }
      destruct (rq_numBytes s <? 0) eqn:Hneg; [apply Z.ltb_lt in Hneg; lia|].
      pose proof (Read_le (rq_reader s) (Z.to_nat (rq_numBytes s))) as Hle.
      destruct (Read (rq_reader s) _) as [[data err1] r1]. cbn [fst] in Hle.
      destruct (_ =? rq_numBytes s) eqn:Heq.
      { apply Z.eqb_eq in Heq. intros [= <- <- <-] buf0 err0 [= <- <-].
        rewrite length_app. split; [lia|]. intros _ _. lia. }
      assert (Hbuf : Z.of_nat (length (if 0 <? Z.of_nat (length data)
                                       then rq_buffer s ++ data else rq_buffer s)) <= n).
      { destruct (0 <? Z.of_nat (length data)); [rewrite length_app|]; lia. }
      destruct err1 as [e0|]; [|discriminate].
      destruct (is_EOF e0).
      * destruct (maxEmptyReads <=? _); [|discriminate].
        intros [= <- <- <-] buf0 err0 [= <- <-].
        split; [exact Hbuf|]. discriminate.
      * intros [= <- <- <-] buf0 err0 [= <- <-].
        split; [exact Hbuf|]. discriminate.
    + cbn [rq_numBytes rq_buffer length]. lia.
  - intros fuel w r n Hn Hd. unfold ReadRequiredBytes. cbn [loop].
    unfold ReadRequiredBytes_iter.
    cbn [rq_world rq_reader rq_buffer rq_numBytes rq_emptyReads].
    rewrite (Done_not_done w Hd). cbn [snd].
    rewrite (proj2 (Z.ltb_lt n 0) Hn). reflexivity.
Qed.

(** An empty end-of-stream read below the ceiling is retried. *)
Lemma ReadRequiredBytes_iter_eof (w : World) (r : R) n b e :
  is_done w = false ->
  fst (Read r (Z.to_nat n)) = ([], Some EOF) ->
  0 < n -> e + 1 < maxEmptyReads ->
  ReadRequiredBytes_iter (mkRequiredState w r b n e)
  = Continue (mkRequiredState
                (mkWorld (spend 1 (ctx w))
                         (trace w ++ [EvDone false; EvRead (Z.to_nat n); EvSleep 100]))
                (snd (Read r (Z.to_nat n))) b n (e + 1)).
Proof.
  intros Hd Hr Hn He. unfold ReadRequiredBytes_iter.
  cbn [rq_world rq_reader rq_buffer rq_numBytes rq_emptyReads].
  rewrite (Done_not_done w Hd).
  destruct (n <? 0) eqn:Hneg; [apply Z.ltb_lt in Hneg; lia|].
  destruct (Read r (Z.to_nat n)) as [[data err] r1]. cbn [fst snd] in *.
  injection Hr as -> ->. cbn [length].
  destruct (Z.of_nat 0 =? n) eqn:Heq; [apply Z.eqb_eq in Heq; simpl in Heq; lia|].
  change (0 <? Z.of_nat 0) with false. unfold is_EOF.
  rewrite bool_decide_eq_true_2 by reflexivity. lazy beta iota zeta.
  destruct (maxEmptyReads <=? e + 1) eqn:Hc; [apply Z.leb_le in Hc; lia|].
  unfold emit; cbn [ctx trace]. rewrite <- !app_assoc. reflexivity.
Qed.

(** A streak of empty end-of-stream reads below the ceiling, in
    [ReadRequiredBytes]. *)
Lemma ReadRequiredBytes_streak k : forall (w : World) (r : R) n b e,
  (forall (r0 : R) size, fst (Read r0 size) = ([], Some EOF)) ->
  open_for k (ctx w) = true ->
  0 < n -> 0 <= e -> e + Z.of_nat k < maxEmptyReads ->
  exists rk,
    iter_n ReadRequiredBytes_iter k (mkRequiredState w r b n e)
    = Some (mkRequiredState
              (mkWorld (spend k (ctx w)) (trace w ++ attempts (Z.to_nat n) k))
              rk b n (e + Z.of_nat k)).
Proof.
  induction k as [|k IH]; intros w r n b e Ha Ho Hn He Hlt.
  - exists r. simpl. destruct w as [c tr]; simpl.
    rewrite app_nil_r, Z.add_0_r. repeat f_equal.
    destruct c; simpl; [f_equal; lia|reflexivity].
  - cbn [iter_n].
    assert (Hd : is_done w = false).
    { pose proof (open_is_not_done (ctx w) (trace w)
                    (open_for_le 1 (S k) _ ltac:(lia) Ho)) as Hd.
      destruct w; exact Hd. }
    rewrite (ReadRequiredBytes_iter_eof w r n b e Hd (Ha _ _) Hn ltac:(lia)).
    destruct (IH (mkWorld (spend 1 (ctx w))
                      (trace w ++ [EvDone false; EvRead (Z.to_nat n); EvSleep 100]))
                   (snd (Read r (Z.to_nat n))) n b (e + 1) Ha) as [rk Hit];
        try assumption; try lia.
    { cbn [ctx]. apply (open_for_spend 1 k). exact Ho. }
    exists rk. rewrite Hit. cbn [ctx trace].
    rewrite spend_spend, <- !app_assoc. cbn [attempts app].
      replace (e + Z.of_nat (S k)) with (e + 1 + Z.of_nat k) by lia.
      reflexivity.
Qed.

(** X9: on a reader whose reads always return no byte and the
    end-of-stream error, [ReadRequiredBytes] for a positive count (with
    a context that stays open) has not returned after four attempts and
    returns at the fifth, with no bytes and the end-of-stream error,
    having slept 100ms after each of the first four attempts. *)
Theorem ReadRequiredBytes_eof_ceiling (w : World) (r : R) n :
  (forall (r0 : R) size, fst (Read r0 size) = ([], Some EOF)) ->
  0 < n ->
  open_for 5 (ctx w) = true ->
  ReadRequiredBytes 4 w r n = None
  /\ exists r5, forall fuel,
      ReadRequiredBytes (5 + fuel) w r n
      = Some (Ret ([], Some EOF),
              mkWorld (spend 5 (ctx w))
                      (trace w ++ attempts (Z.to_nat n) 4
                       ++ [EvDone false; EvRead (Z.to_nat n)]),
              r5).
Proof.
  intros Ha Hn Ho.
  destruct (ReadRequiredBytes_streak 4 w r n [] 0 Ha (open_for_le 4 5 _ ltac:(lia) Ho) Hn
              ltac:(lia) ltac:(unfold maxEmptyReads; simpl; lia)) as [r4 Hit].
  split.
  - unfold ReadRequiredBytes. rewrite <- (Nat.add_0_r 4).
    rewrite (loop_iter_n _ 4 0 _ _ Hit). reflexivity.
  - exists (snd (Read r4 (Z.to_nat n))). intros fuel. unfold ReadRequiredBytes.
    change (5 + fuel)%nat with (4 + S fuel)%nat.
    rewrite (loop_iter_n _ 4 (S fuel) _ _ Hit). cbn [loop].
    unfold ReadRequiredBytes_iter.
    cbn [rq_world rq_reader rq_buffer rq_numBytes rq_emptyReads].
    rewrite Done_not_done.
    2:{ unfold is_done; cbn [ctx]. apply (open_for_spend 4 1) in Ho.
        destruct (spend 4 (ctx w)) as [[|m]|]; [discriminate|reflexivity..]. }
    destruct (n <? 0) eqn:Hneg; [apply Z.ltb_lt in Hneg; lia|].
    pose proof (Ha r4 (Z.to_nat n)) as Hr.
    destruct (Read r4 (Z.to_nat n)) as [[data err] r5]. cbn [fst] in Hr.
    injection Hr as -> ->. cbn [length snd].
    destruct (Z.of_nat 0 =? n) eqn:Heq; [apply Z.eqb_eq in Heq; simpl in Heq; lia|].
    cbn. unfold emit; cbn [ctx trace].
    rewrite spend_spend, <- !(app_assoc (trace w)). reflexivity.
Qed.

End RequiredBytes.

Lemma ReadRequiredBytes_exact_witness :
  let r : Util.script := [(["h"; "e"]%byte, None); (["l"; "l"; "o"]%byte, Some EOF)] in
  Util.ReadRequiredBytes (1 + 1) (Util.mkWorld None []) r 5
  = Some (Util.Ret (["h"; "e"]%byte ++ ["l"; "l"; "o"]%byte, None),
          Util.mkWorld None
            ([] ++ [Util.EvDone false; Util.EvRead 5]
             ++ [Util.EvDone false; Util.EvRead 3]), [])
  /\ Z.of_nat (length (["h"; "e"]%byte ++ ["l"; "l"; "o"]%byte)) = 5.
Proof.
  intros r.
  apply (ReadRequiredBytes_exact (Util.mkWorld None []) r
           [(["l"; "l"; "o"]%byte, Some EOF)] [] 5 1 ["h"; "e"]%byte
           [Util.EvDone false; Util.EvRead 5] 3 ["l"; "l"; "o"]%byte (Some EOF) 0).
  - lia.
  - reflexivity.
  - reflexivity.
  - reflexivity.
  - reflexivity.
Defined.

Lemma ReadRequiredBytes_eof_ceiling_witness :
  Util.ReadRequiredBytes 4 (Util.mkWorld None []) Util.Ended 8 = None
  /\ exists r5, forall fuel,
      Util.ReadRequiredBytes (5 + fuel) (Util.mkWorld None []) Util.Ended 8
      = Some (Util.Ret ([], Some EOF),
              Util.mkWorld None
                ([] ++ Util.attempts (Z.to_nat 8) 4
                 ++ [Util.EvDone false; Util.EvRead (Z.to_nat 8)]),
              r5).
Proof.
  apply (ReadRequiredBytes_eof_ceiling (Util.mkWorld None []) Util.Ended 8).
  - intros r0 size. reflexivity.
  - lia.
  - reflexivity.
Defined.

Lemma ReadRequiredBytes_length_witness :
  Z.of_nat (length (["h"; "e"; "l"; "l"; "o"]%byte)) <= 5
  /\ (@None error = None ->
      last (Util.trace
              (Util.mkWorld None
                 [Util.EvDone false; Util.EvRead 5; Util.EvDone false; Util.EvRead 3]))
      <> Some (Util.EvDone true) ->
      Z.of_nat (length (["h"; "e"; "l"; "l"; "o"]%byte)) = 5).
Proof.
  apply (proj1 (proj2 ReadRequiredBytes_length) 2%nat (Util.mkWorld None [])
           ([(["h"; "e"]%byte, None); (["l"; "l"; "o"]%byte, Some EOF)] : Util.script) 5
           ["h"; "e"; "l"; "l"; "o"]%byte None
           (Util.mkWorld None
              [Util.EvDone false; Util.EvRead 5; Util.EvDone false; Util.EvRead 3])
           ([] : Util.script)).
  - lia.
  - reflexivity.
Defined.

(** ** More on ReadBuffConn and PassThrough *)

Section ReadBuffConnShape.
Import Util.
Context {R : Type} `{Reader R}.

Lemma ReadBuffConn_iter_none fuel (w : World) (conn : R) w1 c1 :
  ReadBuffConn_iter fuel w conn = Some (PubNone, w1, c1) ->
  last (trace w1) = Some (EvDone true).
Proof.
  unfold ReadBuffConn_iter. destruct (Done w) as [[|] w0] eqn:Hd.
  - intros [= <- <-]. unfold Done in Hd.
    destruct (ctx w) as [[|m]|]; try discriminate. injection Hd as <-. apply last_snoc.
  - destruct (ReadBytes fuel w0 conn) as [[[[b [e|]] w2] c2]|]; discriminate.
Qed.

(** X10: in every run of [ReadBuffConn] that returns, what has been sent
    on the two channels is a sequence of buffers followed by at most one
    error: an error is sent at most once, it is the last value sent, and
    the function returns right after it; when no error was sent, the
    function has returned at a check that found the context done. *)
Theorem ReadBuffConn_sends_shape fuel : forall (w : World) (conn : R) w' conn',
  ReadBuffConn fuel w conn = Some (w', conn') ->
  exists ms tail,
    sends (trace w') = sends (trace w) ++ map EvSendBuffer ms ++ tail
    /\ ((tail = [] /\ last (trace w') = Some (EvDone true))
        \/ exists e, tail = [EvSendErr e] /\ last (trace w') = Some (EvSendErr e)).
Proof.
  induction fuel as [|fuel IH]; intros w conn w' conn' Hr; simpl in Hr; [discriminate|].
  destruct (ReadBuffConn_iter fuel w conn) as [[[pub w1] c1]|] eqn:Hi; [|discriminate].
  pose proof (ReadBuffConn_iter_filter is_send ltac:(reflexivity) ltac:(reflexivity)
                ltac:(reflexivity) _ _ _ _ _ _ Hi) as Hs.
  fold (sends (trace w1)) in Hs. fold (sends (trace w)) in Hs.
  destruct pub as [|e|b].
  - injection Hr as <- <-. exists [], []. split.
    + rewrite Hs. simpl. rewrite app_nil_r. reflexivity.
    + left. split; [reflexivity|]. eapply ReadBuffConn_iter_none, Hi.
  - injection Hr as <- <-. exists [], [EvSendErr e]. split.
    + rewrite sends_emit, Hs. reflexivity.
    + right. exists e. split; [reflexivity|]. apply last_snoc.
  - destruct (IH _ _ _ _ Hr) as (ms & tail & Hsend & Htail).
    exists (b :: ms), tail. split; [|exact Htail].
    rewrite Hsend, sends_emit, Hs. simpl. rewrite <- app_assoc. reflexivity.
Qed.

End ReadBuffConnShape.

Lemma ReadBuffConn_sends_shape_witness :
  exists ms tail,
    Util.sends [Util.EvDone false; Util.EvDone false; Util.EvRead 1024;
                Util.EvSendBuffer ["h"; "i"]%byte; Util.EvDone true]
    = Util.sends [] ++ map Util.EvSendBuffer ms ++ tail
    /\ ((tail = []
         /\ last [Util.EvDone false; Util.EvDone false; Util.EvRead 1024;
                  Util.EvSendBuffer ["h"; "i"]%byte; Util.EvDone true]
            = Some (Util.EvDone true))
        \/ exists e, tail = [Util.EvSendErr e]
             /\ last [Util.EvDone false; Util.EvDone false; Util.EvRead 1024;
                      Util.EvSendBuffer ["h"; "i"]%byte; Util.EvDone true]
                = Some (Util.EvSendErr e)).
Proof.
  apply (ReadBuffConn_sends_shape 3 (Util.mkWorld (Some 2%nat) [])
           ([(["h"; "i"]%byte, None)] : Util.script)
           (Util.mkWorld (Some 0%nat)
              [Util.EvDone false; Util.EvDone false; Util.EvRead 1024;
               Util.EvSendBuffer ["h"; "i"]%byte; Util.EvDone true])
           ([] : Util.script)).
  reflexivity.
Defined.

Section PassThroughMore.
Import Util.
Context {C : Type} `{Conn C}.

Lemma conn_events_dest_writes (l : list (list byte)) :
  conn_events Client (map (EvWrite Dest) l) = [].
Proof. induction l as [|v l IHl]; [reflexivity|]. simpl. exact IHl. Qed.

(** X11: the exchange.  When every write of the request chunks to the
    destination succeeds and the first [ReadBytes] of the background
    reader on the destination returns a buffer with a nil error, and the
    [select] receives it, [PassThrough] writes that buffer, as it is, to
    the client, closes the destination and returns nil bytes with the
    error of the write to the client (nil when it succeeds); the client
    sees that one write and nothing else. *)
Theorem PassThrough_exchange fuel pick (w : World) (client d : C) reqs
  w0 d0 m w1 d1 n werr cl' :
  write_requests w d reqs = (None, w0, d0) ->
  is_done w0 = false ->
  ReadBytes fuel (snd (Done w0)) d0 = Some ((m, None), w1, d1) ->
  is_done w1 && pick = false ->
  Write client m = ((n, werr), cl') ->
  PassThrough fuel pick w client (Some d) reqs
  = Some ((None, werr),
          emit (EvClose Dest) (emit (EvWrite Client m) w1), cl', Some (snd (Close d1)))
  /\ conn_events Client (trace (emit (EvClose Dest) (emit (EvWrite Client m) w1)))
     = conn_events Client (trace w) ++ [EvWrite Client m].
Proof.
  intros Hw Hd Hr Hpick Hcl.
  assert (Hi : ReadBuffConn_iter fuel w0 d0 = Some (PubBuffer m, w1, d1)).
  { unfold ReadBuffConn_iter. rewrite (Done_not_done w0 Hd).
    rewrite (Done_not_done w0 Hd) in Hr. cbn [snd] in Hr. rewrite Hr. reflexivity. }
  split.
  - unfold PassThrough. rewrite Hw, Hi. unfold select_branch. rewrite Hpick.
    unfold PassThrough_select. rewrite Hcl.
    destruct (Close d1) as [ce d2]. destruct werr; reflexivity.
  - pose proof (write_requests_spec reqs w d) as Hspec. rewrite Hw in Hspec.
    destruct Hspec as (k & _ & Hw0 & _).
    pose proof (ReadBuffConn_iter_filter (R := C) (is_conn_event Client)
                  ltac:(reflexivity) ltac:(reflexivity) ltac:(reflexivity)
                  _ _ _ _ _ _ Hi) as Hev.
    unfold emit; cbn [ctx trace]. rewrite !conn_events_app.
    unfold conn_events at 1. rewrite Hev, Hw0. cbn [trace].
    rewrite List.filter_app.
    fold (conn_events Client (map (EvWrite Dest) (take k reqs))).
    rewrite conn_events_dest_writes. simpl. rewrite !app_nil_r. reflexivity.
Qed.

(** X12: whatever happens, [PassThrough] returns nil bytes, writes to
    the client at most once and never closes the client connection: in
    every run that returns, the events on the client connection are
    those before the call, followed by nothing or by one write. *)
Theorem PassThrough_client_once fuel pick (w : World) (client : C) dest reqs
  res w' cl' d' :
  PassThrough fuel pick w client dest reqs = Some (res, w', cl', d') ->
  fst res = None
  /\ exists tail,
      conn_events Client (trace w') = conn_events Client (trace w) ++ tail
      /\ (tail = [] \/ exists m, tail = [EvWrite Client m]).
Proof.
  intros Hp. unfold PassThrough in Hp.
  destruct dest as [d|].
  2:{ injection Hp as <- <- <- <-. split; [reflexivity|]. exists [].
      rewrite app_nil_r. auto. }
  pose proof (write_requests_spec reqs w d) as Hspec.
  destruct (write_requests w d reqs) as [[err w0] d0].
  destruct Hspec as (k & _ & Hw0 & _).
  assert (Hev0 : conn_events Client (trace w0) = conn_events Client (trace w)).
  { rewrite Hw0. cbn [trace]. rewrite conn_events_app.
    rewrite conn_events_dest_writes. apply app_nil_r. }
  destruct err as [e|].
  - destruct (Close d0) as [ce d1]. injection Hp as <- <- <- <-.
    split; [reflexivity|]. exists []. rewrite app_nil_r. split; [|auto].
    unfold emit; cbn [trace]. rewrite conn_events_app, Hev0. simpl. apply app_nil_r.
  - destruct (ReadBuffConn_iter fuel w0 d0) as [[[pub w1] d1]|] eqn:Hi; [|discriminate].
    pose proof (ReadBuffConn_iter_filter (R := C) (is_conn_event Client)
                  ltac:(reflexivity) ltac:(reflexivity) ltac:(reflexivity)
                  _ _ _ _ _ _ Hi) as Hev1.
    fold (conn_events Client (trace w1)) in Hev1.
    fold (conn_events Client (trace w0)) in Hev1.
    destruct (select_branch pick (is_done w1) pub) as [b|e|]; cbn [PassThrough_select] in Hp.
    + destruct (Write client b) as [[n [e|]] cl1]; destruct (Close d1) as [ce d2];
        injection Hp as <- <- <- <-; (split; [reflexivity|]);
        exists [EvWrite Client b]; (split; [|eauto]);
        unfold emit; cbn [trace]; rewrite !conn_events_app, Hev1, Hev0; simpl;
        rewrite app_nil_r; reflexivity.
    + destruct (negb (is_net_timeout e) && bool_decide (e <> None));
        destruct (Close d1) as [ce d2]; injection Hp as <- <- <- <-;
        (split; [reflexivity|]); exists []; rewrite app_nil_r; (split; [|auto]);
        unfold emit; cbn [trace]; rewrite conn_events_app, Hev1, Hev0; simpl;
        apply app_nil_r.
    + destruct (Close d1) as [ce d2]. injection Hp as <- <- <- <-.
      split; [reflexivity|]. exists []. rewrite app_nil_r. split; [|auto].
      unfold emit; cbn [trace]. rewrite conn_events_app, Hev1, Hev0. simpl.
      apply app_nil_r.
Qed.

End PassThroughMore.

Lemma PassThrough_exchange_witness :
  let d := Util.mkScriptConn [(["p"; "o"; "n"; "g"]%byte, None)] [] None in
  let cl := Util.mkScriptConn [] [] None in
  let w1 := Util.mkWorld None
              [Util.EvWrite Util.Dest ["p"; "i"; "n"; "g"]%byte;
               Util.EvDone false; Util.EvDone false; Util.EvRead 1024] in
  Util.PassThrough 1 false (Util.mkWorld None []) cl (Some d) [["p"; "i"; "n"; "g"]%byte]
  = Some ((None, None),
          Util.emit (Util.EvClose Util.Dest)
            (Util.emit (Util.EvWrite Util.Client ["p"; "o"; "n"; "g"]%byte) w1),
          cl, Some (snd (Util.Close (Util.mkScriptConn [] [] None))))
  /\ Util.conn_events Util.Client
       (Util.trace (Util.emit (Util.EvClose Util.Dest)
                      (Util.emit (Util.EvWrite Util.Client ["p"; "o"; "n"; "g"]%byte) w1)))
     = Util.conn_events Util.Client [] ++ [Util.EvWrite Util.Client ["p"; "o"; "n"; "g"]%byte].
Proof.
  intros d cl w1.
  apply (PassThrough_exchange 1 false (Util.mkWorld None []) cl d [["p"; "i"; "n"; "g"]%byte]
           (Util.mkWorld None [Util.EvWrite Util.Dest ["p"; "i"; "n"; "g"]%byte]) d
           ["p"; "o"; "n"; "g"]%byte w1 (Util.mkScriptConn [] [] None) 4%nat None cl);
    reflexivity.
Defined.

Lemma PassThrough_client_once_witness :
  let d := Util.mkScriptConn [(["p"; "o"; "n"; "g"]%byte, None)] [] None in
  let cl := Util.mkScriptConn [] [] None in
  fst (@None (list byte), @None error) = None
  /\ exists tail,
      Util.conn_events Util.Client
        [Util.EvWrite Util.Dest ["p"; "i"; "n"; "g"]%byte;
         Util.EvDone false; Util.EvDone false; Util.EvRead 1024;
         Util.EvWrite Util.Client ["p"; "o"; "n"; "g"]%byte; Util.EvClose Util.Dest]
      = Util.conn_events Util.Client [] ++ tail
      /\ (tail = [] \/ exists m, tail = [Util.EvWrite Util.Client m]).
Proof.
  intros d cl.
  apply (PassThrough_client_once 1 false (Util.mkWorld None []) cl (Some d)
           [["p"; "i"; "n"; "g"]%byte] (None, None)
           (Util.mkWorld None
              [Util.EvWrite Util.Dest ["p"; "i"; "n"; "g"]%byte;
               Util.EvDone false; Util.EvDone false; Util.EvRead 1024;
               Util.EvWrite Util.Client ["p"; "o"; "n"; "g"]%byte; Util.EvClose Util.Dest])
           cl (Some (Util.mkScriptConn [] [] None))).
  reflexivity.
Defined.

(** ** More on the address codec *)

Section CodecMore.
Import Util.

Lemma bytes_of_sum a b c d :
  0 <= a < 256 -> 0 <= b < 256 -> 0 <= c < 256 -> 0 <= d < 256 ->
  let v := a * 2 ^ 24 + (b * 2 ^ 16 + (c * 2 ^ 8 + d)) in
  0 <= v < 2 ^ 32
  /\ byte_at 24 v = a /\ byte_at 16 v = b /\ byte_at 8 v = c /\ byte_at 0 v = d.
Proof.
  intros Ha Hb Hc Hd v. unfold v, byte_at.
  change (2 ^ 32) with 4294967296. change (2 ^ 24) with 16777216.
  change (2 ^ 16) with 65536. change (2 ^ 8) with 256. change (2 ^ 0) with 1.
  repeat split; try lia; Z.div_mod_to_equations; lia.
Qed.

(** The shifts and ors of [ToIPV4] on four bytes. *)
Lemma lor_bytes a b c d :
  0 <= a < 256 -> 0 <= b < 256 -> 0 <= c < 256 -> 0 <= d < 256 ->
  Z.lor (Z.lor (Z.lor (uint32 (Z.shiftl (uint32 a) 24)) (uint32 (Z.shiftl (uint32 b) 16)))
               (uint32 (Z.shiftl (uint32 c) 8)))
        (uint32 d)
  = a * 2 ^ 24 + (b * 2 ^ 16 + (c * 2 ^ 8 + d)).
Proof.
  intros Ha Hb Hc Hd. unfold uint32.
  rewrite (Z.mod_small a), (Z.mod_small b), (Z.mod_small c), (Z.mod_small d) by lia.
  rewrite !Z.shiftl_mul_pow2 by lia.
  rewrite !(Z.mod_small (_ * _)) by (change (2 ^ 32) with 4294967296;
    change (2 ^ 24) with 16777216; change (2 ^ 16) with 65536; change (2 ^ 8) with 256; lia).
  rewrite <- !Z.lor_assoc.
  rewrite (lor_high_low c d 8) by lia.
  rewrite (lor_high_low b _ 16)
    by (change (2 ^ 16) with 65536; change (2 ^ 8) with 256; lia).
  rewrite (lor_high_low a _ 24)
    by (change (2 ^ 24) with 16777216; change (2 ^ 16) with 65536;
        change (2 ^ 8) with 256; lia).
  reflexivity.
Qed.

(** The same for the order in which [binary.BigEndian.Uint32] writes
    them. *)
Lemma BigEndian_Uint32_bytes a b c d :
  0 <= a < 256 -> 0 <= b < 256 -> 0 <= c < 256 -> 0 <= d < 256 ->
  BigEndian_Uint32 [a; b; c; d] = a * 2 ^ 24 + (b * 2 ^ 16 + (c * 2 ^ 8 + d)).
Proof.
  intros Ha Hb Hc Hd. rewrite <- (lor_bytes a b c d Ha Hb Hc Hd).
  unfold BigEndian_Uint32. cbn [nth].
  set (A := uint32 (Z.shiftl (uint32 a) 24)). set (B := uint32 (Z.shiftl (uint32 b) 16)).
  set (C := uint32 (Z.shiftl (uint32 c) 8)). set (D := uint32 d).
  rewrite (Z.lor_comm (Z.lor (Z.lor D C) B) A), (Z.lor_comm (Z.lor D C) B),
    (Z.lor_comm D C).
  rewrite !Z.lor_assoc. reflexivity.
Qed.

Lemma ToIPV4_four a b c d :
  0 <= a < 256 -> 0 <= b < 256 -> 0 <= c < 256 -> 0 <= d < 256 ->
  ToIPV4 [a; b; c; d] = (a * 2 ^ 24 + (b * 2 ^ 16 + (c * 2 ^ 8 + d)), true).
Proof.
  intros Ha Hb Hc Hd. unfold ToIPV4, To4. cbn [length Nat.eqb nth].
  rewrite (lor_bytes a b c d Ha Hb Hc Hd). reflexivity.
Qed.

(** What [To4] accepts: a slice of four bytes, or the sixteen bytes of an
    IPv4-mapped address. *)
Lemma To4_cases (ip p4 : IP) :
  To4 ip = Some p4 ->
  exists a b c d,
    p4 = [a; b; c; d]
    /\ (ip = p4 \/ ip = [0; 0; 0; 0; 0; 0; 0; 0; 0; 0; 255; 255] ++ p4).
Proof.
  unfold To4.
  destruct ip as [|x0 [|x1 [|x2 [|x3 [|x4 [|x5 [|x6 [|x7 [|x8 [|x9 [|x10 [|x11
    [|x12 [|x13 [|x14 [|x15 [|x16 ip]]]]]]]]]]]]]]]]];
    cbn [length Nat.eqb andb]; try discriminate.
  - intros [= <-]. eexists _, _, _, _. split; [reflexivity|left; reflexivity].
  - cbn [firstn forallb skipn lookup list_lookup].
    destruct (Z.eqb_spec 0 x0) as [<-|]; [|discriminate].
    destruct (Z.eqb_spec 0 x1) as [<-|]; [|discriminate].
    destruct (Z.eqb_spec 0 x2) as [<-|]; [|discriminate].
    destruct (Z.eqb_spec 0 x3) as [<-|]; [|discriminate].
    destruct (Z.eqb_spec 0 x4) as [<-|]; [|discriminate].
    destruct (Z.eqb_spec 0 x5) as [<-|]; [|discriminate].
    destruct (Z.eqb_spec 0 x6) as [<-|]; [|discriminate].
    destruct (Z.eqb_spec 0 x7) as [<-|]; [|discriminate].
    destruct (Z.eqb_spec 0 x8) as [<-|]; [|discriminate].
    destruct (Z.eqb_spec 0 x9) as [<-|]; [|discriminate].
    cbn [andb].
    destruct (bool_decide (Some x10 = Some 255)) eqn:H10; [|discriminate].
    destruct (bool_decide (Some x11 = Some 255)) eqn:H11; [|discriminate].
    apply bool_decide_eq_true in H10, H11. injection H10 as ->. injection H11 as ->.
    intros [= <-]. eexists _, _, _, _. split; [reflexivity|right; reflexivity].
Qed.

Lemma ToIPV4_of_To4 (ip : IP) a b c d :
  To4 ip = Some [a; b; c; d] ->
  0 <= a < 256 -> 0 <= b < 256 -> 0 <= c < 256 -> 0 <= d < 256 ->
  ToIPV4 ip = (a * 2 ^ 24 + (b * 2 ^ 16 + (c * 2 ^ 8 + d)), true).
Proof.
  intros Ht Ha Hb Hc Hd. unfold ToIPV4. rewrite Ht. cbn [nth].
  rewrite (lor_bytes a b c d Ha Hb Hc Hd). reflexivity.
Qed.

Lemma range4 a b c d :
  in_byte_range [a; b; c; d] ->
  0 <= a < 256 /\ 0 <= b < 256 /\ 0 <= c < 256 /\ 0 <= d < 256.
Proof.
  intros Hr. inversion Hr as [|? ? Ha Hr1]; subst.
  inversion Hr1 as [|? ? Hb Hr2]; subst. inversion Hr2 as [|? ? Hc Hr3]; subst.
  inversion Hr3 as [|? ? Hd _]; subst. auto.
Qed.

(** X13: the sixteen bytes that [ToIPv6AddressStr] builds from four
    32-bit words (each word most significant byte first) are read back by
    [IPv6ToUint32Array] as the same four words, without error. *)
Theorem IPv6_words_roundtrip (w0 w1 w2 w3 : Z) :
  0 <= w0 < 2 ^ 32 -> 0 <= w1 < 2 ^ 32 -> 0 <= w2 < 2 ^ 32 -> 0 <= w3 < 2 ^ 32 ->
  length (ToIPv6Bytes (w0, w1, w2, w3)) = 16%nat
  /\ in_byte_range (ToIPv6Bytes (w0, w1, w2, w3))
  /\ IPv6ToUint32Array (ToIPv6Bytes (w0, w1, w2, w3)) = ((w0, w1, w2, w3), None).
Proof.
  intros H0 H1 H2 H3.
  assert (Hb : forall w,
             [byte_of (Z.shiftr w 24); byte_of (Z.shiftr w 16); byte_of (Z.shiftr w 8);
              byte_of w]
             = [byte_at 24 w; byte_at 16 w; byte_at 8 w; byte_at 0 w]).
  { intros w. unfold byte_of, byte_at. rewrite !Z.shiftr_div_pow2 by lia.
    rewrite Z.pow_0_r, Z.div_1_r. reflexivity. }
  assert (Hw : forall w, 0 <= w < 2 ^ 32 ->
             BigEndian_Uint32 [byte_at 24 w; byte_at 16 w; byte_at 8 w; byte_at 0 w] = w).
  { intros w Hr. rewrite BigEndian_Uint32_bytes by apply byte_at_range.
    apply bytes_reassemble, Hr. }
  assert (Heq : ToIPv6Bytes (w0, w1, w2, w3)
                = [byte_of (Z.shiftr w0 24); byte_of (Z.shiftr w0 16);
                   byte_of (Z.shiftr w0 8); byte_of w0]
                  ++ [byte_of (Z.shiftr w1 24); byte_of (Z.shiftr w1 16);
                      byte_of (Z.shiftr w1 8); byte_of w1]
                  ++ [byte_of (Z.shiftr w2 24); byte_of (Z.shiftr w2 16);
                      byte_of (Z.shiftr w2 8); byte_of w2]
                  ++ [byte_of (Z.shiftr w3 24); byte_of (Z.shiftr w3 16);
                      byte_of (Z.shiftr w3 8); byte_of w3]) by reflexivity.
  rewrite Heq. split; [reflexivity|]. split.
  - rewrite !Hb. repeat (apply List.Forall_cons; [apply byte_at_range|]).
    apply List.Forall_nil.
  - unfold IPv6ToUint32Array, To16. cbn [app length Nat.eqb firstn skipn].
    rewrite !Hb, !Hw by assumption. reflexivity.
Qed.

(** X14: [IPv6ToUint32Array] reads a 4-byte IPv4 address as the
    IPv4-mapped IPv6 address: the words are 0, 0, 0xFFFF and the integer
    that [ToIPV4] gives for the address.  It fails, with four zero words,
    exactly when the slice has neither 4 nor 16 bytes. *)
Theorem IPv6ToUint32Array_of_IPv4 :
  (forall a b c d,
      in_byte_range [a; b; c; d] ->
      IPv6ToUint32Array [a; b; c; d] = ((0, 0, 0xFFFF, fst (ToIPV4 [a; b; c; d])), None)
      /\ snd (ToIPV4 [a; b; c; d]) = true)
  /\ (forall ip : IP,
        (length ip <> 4%nat /\ length ip <> 16%nat
         -> IPv6ToUint32Array ip = ((0, 0, 0, 0), Some invalidIPv6))
        /\ (length ip = 4%nat \/ length ip = 16%nat -> snd (IPv6ToUint32Array ip) = None)).
Proof.
  split.
  - intros a b c d Hr. destruct (range4 a b c d Hr) as (Ha & Hb & Hc & Hd).
    rewrite (ToIPV4_four a b c d Ha Hb Hc Hd). cbn [fst snd]. split; [|reflexivity].
    unfold IPv6ToUint32Array, To16. cbn [length Nat.eqb app nth firstn skipn].
    rewrite (BigEndian_Uint32_bytes a b c d Ha Hb Hc Hd). reflexivity.
  - intros ip. unfold IPv6ToUint32Array, To16. split.
    + intros [H4 H16].
      destruct (length ip =? 4)%nat eqn:E4; [apply Nat.eqb_eq in E4; contradiction|].
      destruct (length ip =? 16)%nat eqn:E16; [apply Nat.eqb_eq in E16; contradiction|].
      reflexivity.
    + intros [H4|H16].
      * rewrite H4. reflexivity.
      * rewrite H16. reflexivity.
Qed.

Lemma appendDecimal_app b x :
  appendDecimal b x = b ++ appendDecimal [] x.
Proof.
  unfold appendDecimal.
  destruct (100 <=? x); destruct (10 <=? x); cbn [app]; rewrite <- ?app_assoc; reflexivity.
Qed.

(** netip prints a byte as [fmt] prints it in decimal. *)
Lemma appendDecimal_Sprintf x :
  0 <= x < 256 -> appendDecimal [] x = Fmt.Sprintf_d x.
Proof.
  revert x. apply below_256.
  match goal with
  | |- List.Forall ?P ?l => let l' := eval vm_compute in l in change (List.Forall P l')
  end.
  repeat (constructor; [vm_compute; reflexivity|]).
  constructor.
Qed.

Lemma string4_Sprintf a b c d :
  0 <= a < 256 -> 0 <= b < 256 -> 0 <= c < 256 -> 0 <= d < 256 ->
  string4 [a; b; c; d]
  = Fmt.Sprintf_d a ++ ["."%char] ++ Fmt.Sprintf_d b ++ ["."%char]
    ++ Fmt.Sprintf_d c ++ ["."%char] ++ Fmt.Sprintf_d d.
Proof.
  intros Ha Hb Hc Hd. unfold string4. cbn [nth].
  rewrite (appendDecimal_app (_ ++ _) d), (appendDecimal_app (_ ++ _) c),
    (appendDecimal_app (_ ++ _) b).
  rewrite !appendDecimal_Sprintf by assumption.
  rewrite <- !app_assoc. reflexivity.
Qed.

Section WithTexts.
Variable string16 : IP -> list ascii.
Variable hexString : IP -> list ascii.
Variable parseIPv6 : list ascii -> IP.

Lemma IPToDotDecimal_of_To4 (ip : IP) a b c d :
  To4 ip = Some [a; b; c; d] ->
  IPToDotDecimal string16 hexString ip = string4 [a; b; c; d].
Proof.
  intros Ht. unfold IPToDotDecimal. rewrite Ht. reflexivity.
Qed.

(** X15: for every address that [To4] accepts (a 4-byte slice or an
    IPv4-mapped 16-byte slice, bytes below 256), [IPToDotDecimal] gives
    the text that [ToIP4AddressStr] gives for the integer of [ToIPV4]:
    the two ways from a [net.IP] to dotted-decimal text agree. *)
Theorem IPToDotDecimal_agrees (ip p4 : IP) :
  To4 ip = Some p4 ->
  in_byte_range p4 ->
  ToIP4AddressStr (fst (ToIPV4 ip)) = Some (IPToDotDecimal string16 hexString ip).
Proof.
  intros Ht Hr. destruct (To4_cases ip p4 Ht) as (a & b & c & d & -> & _).
  destruct (range4 a b c d Hr) as (Ha & Hb & Hc & Hd).
  rewrite (ToIPV4_of_To4 ip a b c d Ht Ha Hb Hc Hd). cbn [fst].
  destruct (bytes_of_sum a b c d Ha Hb Hc Hd) as (Hv & E24 & E16 & E8 & E0).
  rewrite (ToIP4AddressStr_bytes _ Hv), E24, E16, E8, E0.
  rewrite (IPToDotDecimal_of_To4 ip a b c d Ht), string4_Sprintf by assumption.
  reflexivity.
Qed.

(** X16: the text that [IPToDotDecimal] gives for an address that [To4]
    accepts is parsed by [net.ParseIP] into the 16-byte form of that
    address, and [ToIPV4] gives the same integer for the parsed address
    as for the original one. *)
Theorem IPToDotDecimal_roundtrip (ip p4 : IP) :
  To4 ip = Some p4 ->
  in_byte_range p4 ->
  ParseIP parseIPv6 (IPToDotDecimal string16 hexString ip)
  = [0; 0; 0; 0; 0; 0; 0; 0; 0; 0; 255; 255] ++ p4
  /\ ToIPV4 (ParseIP parseIPv6 (IPToDotDecimal string16 hexString ip)) = ToIPV4 ip
  /\ snd (ToIPV4 ip) = true.
Proof.
  intros Ht Hr. destruct (To4_cases ip p4 Ht) as (a & b & c & d & -> & _).
  destruct (range4 a b c d Hr) as (Ha & Hb & Hc & Hd).
  rewrite (IPToDotDecimal_of_To4 ip a b c d Ht), string4_Sprintf by assumption.
  rewrite (ParseIP_bytes parseIPv6 a b c d Ha Hb Hc Hd).
  split; [reflexivity|].
  rewrite (ToIPV4_of_To4 ip a b c d Ht Ha Hb Hc Hd).
  split; [|reflexivity].
  apply (ToIPV4_of_To4 _ a b c d); [reflexivity|assumption..].
Qed.

End WithTexts.

(** X17: [ToIPV4] gives a number below 2^32 and tells IPv4 addresses
    apart: two addresses that [To4] accepts get the same integer only
    when their four bytes are the same (so the 4-byte and the 16-byte
    form of one address get the same integer, and nothing else does);
    an address that [To4] refuses gets (0, false). *)
Theorem ToIPV4_injective :
  (forall (ip ip' p4 p4' : IP),
      To4 ip = Some p4 -> To4 ip' = Some p4' ->
      in_byte_range p4 -> in_byte_range p4' ->
      0 <= fst (ToIPV4 ip) < 2 ^ 32
      /\ (fst (ToIPV4 ip) = fst (ToIPV4 ip') <-> p4 = p4'))
  /\ (forall ip : IP, To4 ip = None -> ToIPV4 ip = (0, false)).
Proof.
  split.
  - intros ip ip' p4 p4' Ht Ht' Hr Hr'.
    destruct (To4_cases ip p4 Ht) as (a & b & c & d & -> & _).
    destruct (To4_cases ip' p4' Ht') as (a' & b' & c' & d' & -> & _).
    destruct (range4 a b c d Hr) as (Ha & Hb & Hc & Hd).
    destruct (range4 a' b' c' d' Hr') as (Ha' & Hb' & Hc' & Hd').
    rewrite (ToIPV4_of_To4 ip a b c d Ht Ha Hb Hc Hd).
    rewrite (ToIPV4_of_To4 ip' a' b' c' d' Ht' Ha' Hb' Hc' Hd'). cbn [fst].
    destruct (bytes_of_sum a b c d Ha Hb Hc Hd) as (Hv & E24 & E16 & E8 & E0).
    destruct (bytes_of_sum a' b' c' d' Ha' Hb' Hc' Hd') as (Hv' & E24' & E16' & E8' & E0').
    split; [exact Hv|]. split.
    + intros Heq. rewrite Heq in E24, E16, E8, E0. congruence.
    + intros [= -> -> -> ->]. reflexivity.
  - intros ip Ht. unfold ToIPV4. rewrite Ht. reflexivity.
Qed.

End CodecMore.

Lemma IPv6_words_roundtrip_witness :
  length (Util.ToIPv6Bytes (0x20010db8, 0, 0xffff, 0x0A000001)) = 16%nat
  /\ Util.in_byte_range (Util.ToIPv6Bytes (0x20010db8, 0, 0xffff, 0x0A000001))
  /\ Util.IPv6ToUint32Array (Util.ToIPv6Bytes (0x20010db8, 0, 0xffff, 0x0A000001))
     = ((0x20010db8, 0, 0xffff, 0x0A000001), None).
Proof. apply (IPv6_words_roundtrip 0x20010db8 0 0xffff 0x0A000001); lia. Defined.

Lemma IPv6ToUint32Array_of_IPv4_witness :
  Util.IPv6ToUint32Array [10; 0; 0; 1]
  = ((0, 0, 0xFFFF, fst (Util.ToIPV4 [10; 0; 0; 1])), None)
  /\ snd (Util.ToIPV4 [10; 0; 0; 1]) = true.
Proof.
  apply (proj1 IPv6ToUint32Array_of_IPv4 10 0 0 1).
  repeat (apply List.Forall_cons; [lia|]). apply List.Forall_nil.
Defined.

Lemma IPToDotDecimal_agrees_witness :
  Util.ToIP4AddressStr (fst (Util.ToIPV4 [192; 168; 0; 109]))
  = Some (Util.IPToDotDecimal (fun _ => []) (fun _ => []) [192; 168; 0; 109]).
Proof.
  apply (IPToDotDecimal_agrees (fun _ => []) (fun _ => []) [192; 168; 0; 109]
           [192; 168; 0; 109]).
  - reflexivity.
  - repeat (apply List.Forall_cons; [lia|]). apply List.Forall_nil.
Defined.

Lemma IPToDotDecimal_roundtrip_witness :
  let ip := [0; 0; 0; 0; 0; 0; 0; 0; 0; 0; 255; 255; 192; 168; 0; 109] in
  Util.ParseIP (fun _ => []) (Util.IPToDotDecimal (fun _ => []) (fun _ => []) ip)
  = [0; 0; 0; 0; 0; 0; 0; 0; 0; 0; 255; 255] ++ [192; 168; 0; 109]
  /\ Util.ToIPV4 (Util.ParseIP (fun _ => []) (Util.IPToDotDecimal (fun _ => []) (fun _ => []) ip))
     = Util.ToIPV4 ip
  /\ snd (Util.ToIPV4 ip) = true.
Proof.
  intros ip.
  apply (IPToDotDecimal_roundtrip (fun _ => []) (fun _ => []) (fun _ => []) ip
           [192; 168; 0; 109]).
  - reflexivity.
  - repeat (apply List.Forall_cons; [lia|]). apply List.Forall_nil.
Defined.

Lemma ToIPV4_injective_witness :
  let ip := [10; 0; 0; 1] in
  let ip' := [0; 0; 0; 0; 0; 0; 0; 0; 0; 0; 255; 255; 10; 0; 0; 1] in
  0 <= fst (Util.ToIPV4 ip) < 2 ^ 32
  /\ (fst (Util.ToIPV4 ip) = fst (Util.ToIPV4 ip') <-> [10; 0; 0; 1] = [10; 0; 0; 1]).
Proof.
  intros ip ip'.
  apply (proj1 ToIPV4_injective ip ip' [10; 0; 0; 1] [10; 0; 0; 1]).
  - reflexivity.
  - reflexivity.
  - repeat (apply List.Forall_cons; [lia|]). apply List.Forall_nil.
  - repeat (apply List.Forall_cons; [lia|]). apply List.Forall_nil.
Defined.

(** ** The local address of the machine *)

Section LocalAddress.
Import Util.

Lemma first_addr_head test addrs :
  first_addr test addrs = head (List.filter test (ipnets addrs)).
Proof.
  induction addrs as [|[ip|] addrs IH]; cbn [first_addr ipnets flat_map app List.filter].
  - reflexivity.
  - fold (ipnets addrs). destruct (test ip); [reflexivity|exact IH].
  - fold (ipnets addrs). exact IH.
Qed.

(** The outer loop on interfaces whose [Addrs()] succeed. *)
Lemma scan_interfaces_inl test notFound (pre : list (list Addr)) (rest : list Interface) :
  scan_interfaces test notFound (map inl pre ++ rest)
  = match head (List.filter test (listed pre)) with
    | Some ip => (ip, None)
    | None => scan_interfaces test notFound rest
    end.
Proof.
  induction pre as [|addrs pre IH]; [reflexivity|].
  cbn [map app scan_interfaces listed flat_map]. fold (listed pre).
  rewrite first_addr_head, List.filter_app.
  destruct (List.filter test (ipnets addrs)) as [|ip l]; [exact IH|reflexivity].
Qed.

Lemma first_addr_sound test addrs ip :
  first_addr test addrs = Some ip -> In (IPNetAddr ip) addrs /\ test ip = true.
Proof.
  induction addrs as [|[ip'|] addrs IH]; cbn [first_addr]; [discriminate| |].
  - destruct (test ip') eqn:Ht.
    + intros [= ->]. split; [left; reflexivity|exact Ht].
    + intros H. destruct (IH H) as [Hin Hok]. split; [right; exact Hin|exact Hok].
  - intros H. destruct (IH H) as [Hin Hok]. split; [right; exact Hin|exact Hok].
Qed.

Lemma scan_interfaces_sound test notFound ifaces ip :
  scan_interfaces test notFound ifaces = (ip, None) ->
  exists addrs, In (inl addrs) ifaces /\ In (IPNetAddr ip) addrs /\ test ip = true.
Proof.
  induction ifaces as [|[addrs|err] ifaces IH]; cbn [scan_interfaces]; [discriminate| |discriminate].
  destruct (first_addr test addrs) as [ip'|] eqn:Hf.
  - intros [= ->]. destruct (first_addr_sound _ _ _ Hf) as [Hin Hok].
    exists addrs. split; [left; reflexivity|]. split; assumption.
  - intros H. destruct (IH H) as (addrs' & Hin & Hin' & Hok).
    exists addrs'. split; [right; exact Hin|]. split; assumption.
Qed.

(** X18: an address that [GetLocalIPv4] returns without error is the
    [IP] of a [*net.IPNet] address of one of the interfaces, is not a
    loopback address, and is an IPv4 address: [ToIPV4] converts it (its
    second result is true) and its first byte is not 127. *)
Theorem GetLocalIPv4_sound (interfaces : list Interface + error) (ip : IP) :
  GetLocalIPv4 interfaces = (ip, None) ->
  exists ifaces addrs p4,
    interfaces = inl ifaces /\ In (inl addrs) ifaces /\ In (IPNetAddr ip) addrs
    /\ IsLoopback ip = false
    /\ To4 ip = Some p4 /\ nth 0 p4 0 <> 127
    /\ snd (ToIPV4 ip) = true.
Proof.
  destruct interfaces as [ifaces|err]; cbn [GetLocalIPv4]; [|discriminate].
  intros H. destruct (scan_interfaces_sound _ _ _ _ H) as (addrs & Hin & Hin' & Hok).
  unfold is_local_v4 in Hok. apply andb_prop in Hok as [Hl H4].
  apply negb_true_iff in Hl. apply bool_decide_eq_true in H4.
  destruct (To4 ip) as [p4|] eqn:Ht; [|congruence].
  exists ifaces, addrs, p4. repeat split; try assumption.
  - unfold IsLoopback in Hl. rewrite Ht in Hl. apply Z.eqb_neq in Hl. exact Hl.
  - unfold ToIPV4. rewrite Ht. reflexivity.
Qed.

(** X19: [GetLocalIPv4] returns the first non-loopback IPv4 address in
    the order of the interfaces and, within one interface, of its
    addresses; what comes after it is not looked at.  When the interfaces
    up to a failing [Addrs()] have no such address the error of that call
    is returned, whatever the later interfaces have; when no interface
    has one and no call fails the error is "no valid IP address
    found".  An error of [net.Interfaces()] is returned as it is. *)
Theorem GetLocalIPv4_first (pre : list (list Addr)) :
  (forall ip rest, head (List.filter is_local_v4 (listed pre)) = Some ip ->
                   GetLocalIPv4 (inl (map inl pre ++ rest)) = (ip, None))
  /\ (forall err rest, List.filter is_local_v4 (listed pre) = [] ->
                       GetLocalIPv4 (inl (map inl pre ++ inr err :: rest)) = ([], Some err))
  /\ (List.filter is_local_v4 (listed pre) = [] ->
      GetLocalIPv4 (inl (map inl pre))
      = ([], Some (ErrorString "no valid IP address found")))
  /\ (forall err, GetLocalIPv4 (inr err) = ([], Some err)).
Proof.
  cbn [GetLocalIPv4]. repeat split.
  - intros ip rest H. rewrite scan_interfaces_inl, H. reflexivity.
  - intros err rest H. rewrite scan_interfaces_inl, H. reflexivity.
  - intros H. rewrite <- (app_nil_r (map inl pre)), scan_interfaces_inl, H. reflexivity.
Qed.

(** X20: an address that [GetLocalIPv6] returns without error is the
    [IP] of a [*net.IPNet] address of one of the interfaces, has 16
    bytes, is not the IPv6 loopback address and is no IPv4 address (also
    not an IPv4-mapped one): [ToIPV4] refuses it with (0, false),
    [IPv6ToUint32Array] converts it without error, and [GetLocalIPv4]
    would not have taken it. *)
Theorem GetLocalIPv6_sound (interfaces : list Interface + error) (ip : IP) :
  GetLocalIPv6 interfaces = (ip, None) ->
  exists ifaces addrs,
    interfaces = inl ifaces /\ In (inl addrs) ifaces /\ In (IPNetAddr ip) addrs
    /\ length ip = 16%nat /\ ip <> IPv6loopback
    /\ ToIPV4 ip = (0, false)
    /\ snd (IPv6ToUint32Array ip) = None
    /\ is_local_v4 ip = false.
Proof.
  destruct interfaces as [ifaces|err]; cbn [GetLocalIPv6]; [|discriminate].
  intros H. destruct (scan_interfaces_sound _ _ _ _ H) as (addrs & Hin & Hin' & Hok).
  unfold is_local_v6 in Hok. apply andb_prop in Hok as [Hok H16].
  apply andb_prop in Hok as [Hl H4].
  apply negb_true_iff in Hl. apply bool_decide_eq_true in H4, H16.
  assert (Hlen : length ip = 16%nat).
  { unfold To16 in H16. unfold To4 in H4.
    destruct (length ip =? 4)%nat eqn:E4; [discriminate|].
    destruct (length ip =? 16)%nat eqn:E16; [|congruence].
    apply Nat.eqb_eq in E16. exact E16. }
  exists ifaces, addrs. repeat split; try assumption.
  - unfold IsLoopback in Hl. rewrite H4 in Hl. apply bool_decide_eq_false in Hl. exact Hl.
  - unfold ToIPV4. rewrite H4. reflexivity.
  - unfold IPv6ToUint32Array, To16. rewrite Hlen. reflexivity.
  - unfold is_local_v4. rewrite H4, Hl. reflexivity.
Qed.

(** X21: [GetLocalIPv6] returns the first address, in the order of the
    interfaces and of their addresses, that is neither a loopback nor an
    IPv4 address and has 16 bytes; the error of the first failing
    [Addrs()] when no such address comes before it; "no valid IPv6
    address found" when there is none and no call fails; and the error
    of [net.Interfaces()] as it is. *)
Theorem GetLocalIPv6_first (pre : list (list Addr)) :
  (forall ip rest, head (List.filter is_local_v6 (listed pre)) = Some ip ->
                   GetLocalIPv6 (inl (map inl pre ++ rest)) = (ip, None))
  /\ (forall err rest, List.filter is_local_v6 (listed pre) = [] ->
                       GetLocalIPv6 (inl (map inl pre ++ inr err :: rest)) = ([], Some err))
  /\ (List.filter is_local_v6 (listed pre) = [] ->
      GetLocalIPv6 (inl (map inl pre))
      = ([], Some (ErrorString "no valid IPv6 address found")))
  /\ (forall err, GetLocalIPv6 (inr err) = ([], Some err)).
Proof.
  cbn [GetLocalIPv6]. repeat split.
  - intros ip rest H. rewrite scan_interfaces_inl, H. reflexivity.
  - intros err rest H. rewrite scan_interfaces_inl, H. reflexivity.
  - intros H. rewrite <- (app_nil_r (map inl pre)), scan_interfaces_inl, H. reflexivity.
Qed.

End LocalAddress.

Lemma GetLocalIPv4_sound_witness :
  exists ifaces addrs p4,
    Util.example_interfaces = inl ifaces
    /\ In (inl addrs) ifaces /\ In (Util.IPNetAddr [192; 168; 1; 5]) addrs
    /\ Util.IsLoopback [192; 168; 1; 5] = false
    /\ Util.To4 [192; 168; 1; 5] = Some p4 /\ nth 0 p4 0 <> 127
    /\ snd (Util.ToIPV4 [192; 168; 1; 5]) = true.
Proof.
  apply (GetLocalIPv4_sound (Util.example_interfaces)
           [192; 168; 1; 5]).
  reflexivity.
Defined.

Lemma GetLocalIPv4_first_witness :
  Util.GetLocalIPv4
    (inl (map inl [Util.example_lo; Util.example_eth0]
          ++ [inr Util.example_addrs_error]))
  = ([192; 168; 1; 5], None)
  /\ Util.GetLocalIPv4
       (inl (map inl [Util.example_lo]
             ++ inr Util.example_addrs_error
                :: [inl Util.example_eth0 : Util.Interface]))
     = ([], Some Util.example_addrs_error)
  /\ Util.GetLocalIPv4 (inl (map inl [Util.example_lo]))
     = ([], Some (ErrorString "no valid IP address found")).
Proof.
  split; [|split].
  - apply (proj1 (GetLocalIPv4_first [Util.example_lo; Util.example_eth0])). reflexivity.
  - apply (proj1 (proj2 (GetLocalIPv4_first [Util.example_lo]))). reflexivity.
  - apply (proj1 (proj2 (proj2 (GetLocalIPv4_first [Util.example_lo])))). reflexivity.
Defined.

Lemma GetLocalIPv6_sound_witness :
  exists ifaces addrs,
    Util.example_interfaces = inl ifaces
    /\ In (inl addrs) ifaces /\ In (Util.IPNetAddr Util.example_linklocal) addrs
    /\ length Util.example_linklocal = 16%nat
    /\ Util.example_linklocal <> Util.IPv6loopback
    /\ Util.ToIPV4 Util.example_linklocal = (0, false)
    /\ snd (Util.IPv6ToUint32Array Util.example_linklocal) = None
    /\ Util.is_local_v4 Util.example_linklocal = false.
Proof.
  apply (GetLocalIPv6_sound (Util.example_interfaces)
           Util.example_linklocal).
  reflexivity.
Defined.

Lemma GetLocalIPv6_first_witness :
  Util.GetLocalIPv6
    (inl (map inl [Util.example_lo; Util.example_eth0]
          ++ [inr Util.example_addrs_error]))
  = (Util.example_linklocal, None)
  /\ Util.GetLocalIPv6
       (inl (map inl [Util.example_lo]
             ++ inr Util.example_addrs_error
                :: [inl Util.example_eth0 : Util.Interface]))
     = ([], Some Util.example_addrs_error).
Proof.
  split.
  - apply (proj1 (GetLocalIPv6_first [Util.example_lo; Util.example_eth0])). reflexivity.
  - apply (proj1 (proj2 (GetLocalIPv6_first [Util.example_lo]))). reflexivity.
Defined.
